(** * KRDS: the Kindle reader data store decoder (krds.py)

    A shallow embedding of the decoder of [krds.py] and the properties of
    its byte cursor ([Deserializer]), its tagged-value decoder
    ([decode_next]), its per-name reconstruction rules ([decode_object])
    and its top-level driver ([deserialize]).

    Python objects are modelled by the inductive type [value]; a Python
    [str] is represented by its UTF-8 encoding (a [string]); a Python
    [float] is a binary64 number ([spec_float]); a [dict] is an insertion
    ordered association list.  Exceptions are values of type [exn]; code
    that may raise lives in the monads [R] (the local list [val] of
    [decode_object]) and [M] (the cursor and the log of a
    [KindleReaderDataStore]). *)

From Stdlib Require Import ZArith List String Ascii Strings.Byte Bool Lia.
From Stdlib Require Import Floats.SpecFloat.
Import ListNotations.
Open Scope string_scope.
Open Scope list_scope.
Open Scope Z_scope.
Set Warnings "-register-all".

(** ** Python values *)

Inductive value : Type :=
| VNone
| VBool (b : bool)
| VInt (z : Z)
| VFloat (f : spec_float)
| VStr (s : string)
| VList (l : list value)
| VDict (d : list (value * value)).

(** The arguments of the messages of the [Exception]s the program raises
    itself. *)
Inductive message : Type :=
| SignatureIncorrect
| FirstValue (first_value : value)
| DuplicateItem (k : value)
| UnknownBoolean (b : Z)
| UnknownDatatype (datatype : Z)
| UnknownLprVersion (version : Z)
| UnknownAnnotationType (annotation_type : Z)
| UnknownAnnotationFormat (annotation : value)
| ExcessValues (name : string) (val : list value)
| InsufficientData (need have : Z).

Inductive exn : Type :=
| Exception (msg : message)
| IndexError              (* list.pop on an empty list *)
| KeyError (k : string)
| TypeError
| AttributeError
| ValueError
| OverflowError
| OSError
| StructError             (* struct.error *)
| UnicodeDecodeError.

(** The result of running a piece of the program: a value, a raised
    exception, or the exhaustion of the recursion budget of the model. *)
Inductive outcome (A : Type) : Type :=
| Ok (a : A)
| Raise (e : exn)
| OutOfFuel.
Arguments Ok {A} a.
Arguments Raise {A} e.
Arguments OutOfFuel {A}.

(** ** Numbers *)

Definition prec64 : Z := 53.
Definition emax64 : Z := 1024.

Definition float_of_Z (z : Z) : spec_float :=
  binary_normalize prec64 emax64 z 0 false.

(** [float(i)] for an [int]: too large an integer raises. *)
Definition float_of_int (z : Z) : outcome spec_float :=
  match float_of_Z z with
  | S754_infinity _ => Raise OverflowError
  | f => Ok f
  end.

(** Exact comparison of a float with an integer, as Python does it;
    [None] for a NaN. *)
Definition float_compare_Z (f : spec_float) (z : Z) : option comparison :=
  match f with
  | S754_nan => None
  | S754_zero _ => Some (0 ?= z)
  | S754_infinity s => Some (if s then Lt else Gt)
  | S754_finite s m e =>
      let sm := if s then Z.neg m else Z.pos m in
      Some (if 0 <=? e then (sm * 2 ^ e ?= z) else (sm ?= z * 2 ^ (- e)))
  end.

(** [int(f)]: truncation towards zero. *)
Definition int_of_float (f : spec_float) : outcome Z :=
  match f with
  | S754_nan => Raise ValueError
  | S754_infinity _ => Raise OverflowError
  | S754_zero _ => Ok 0
  | S754_finite s m e =>
      let sm := if s then Z.neg m else Z.pos m in
      Ok (if 0 <=? e then sm * 2 ^ e else Z.quot sm (2 ^ (- e)))
  end.

Definition Z_of_bool (b : bool) : Z := if b then 1 else 0.

(** Python's [==] on the values that can be dictionary keys here; numbers
    of different types compare by value. *)
Definition py_eq (a b : value) : bool :=
  match a, b with
  | VNone, VNone => true
  | VBool x, VBool y => Bool.eqb x y
  | VBool x, VInt y | VInt y, VBool x => Z_of_bool x =? y
  | VInt x, VInt y => x =? y
  | VBool x, VFloat f | VFloat f, VBool x =>
      match float_compare_Z f (Z_of_bool x) with Some Eq => true | _ => false end
  | VInt x, VFloat f | VFloat f, VInt x =>
      match float_compare_Z f x with Some Eq => true | _ => false end
  | VFloat f, VFloat g => SFeqb f g
  | VStr s, VStr t => String.eqb s t
  | _, _ => false
  end.

(** [v == i] and [v <= i] for an integer literal [i]. *)
Definition py_eq_int (v : value) (i : Z) : bool := py_eq v (VInt i).

Definition py_le_int (v : value) (i : Z) : outcome bool :=
  match v with
  | VBool b => Ok (Z_of_bool b <=? i)
  | VInt z => Ok (z <=? i)
  | VFloat f =>
      Ok (match float_compare_Z f i with Some Gt | None => false | _ => true end)
  | _ => Raise TypeError
  end.

(** ["%d" % v] : the integer that is printed. *)
Definition format_d (v : value) : outcome Z :=
  match v with
  | VBool b => Ok (Z_of_bool b)
  | VInt z => Ok z
  | VFloat f => int_of_float f
  | _ => Raise TypeError
  end.

(** [v / 1000.0] *)
Definition truediv_1000 (v : value) : outcome spec_float :=
  match v with
  | VBool b => Ok (SFdiv prec64 emax64 (float_of_Z (Z_of_bool b)) (float_of_Z 1000))
  | VInt z =>
      match float_of_int z with
      | Ok f => Ok (SFdiv prec64 emax64 f (float_of_Z 1000))
      | Raise e => Raise e
      | OutOfFuel => OutOfFuel
      end
  | VFloat f => Ok (SFdiv prec64 emax64 f (float_of_Z 1000))
  | _ => Raise TypeError
  end.

(** [range(v)] : the number of iterations. *)
Definition range (v : value) : outcome nat :=
  match v with
  | VBool b => Ok (Z.to_nat (Z_of_bool b))
  | VInt z => Ok (Z.to_nat z)
  | _ => Raise TypeError
  end.

(** ** Dictionaries *)

Definition hashable (k : value) : bool :=
  match k with
  | VList _ | VDict _ => false
  | _ => true
  end.

Fixpoint dict_get (d : list (value * value)) (k : value) : option value :=
  match d with
  | [] => None
  | (k', v) :: d' => if py_eq k' k then Some v else dict_get d' k
  end.

Definition dict_contains (d : list (value * value)) (k : value) : bool :=
  match dict_get d k with Some _ => true | None => false end.

(** [d[k] = v] on a hashable key: an equal key keeps its place and its key
    object, a new key goes last. *)
Fixpoint dict_set (d : list (value * value)) (k v : value) : list (value * value) :=
  match d with
  | [] => [(k, v)]
  | (k', v') :: d' =>
      if py_eq k' k then (k', v) :: d' else (k', v') :: dict_set d' k v
  end.

Definition setitem (d : list (value * value)) (k v : value)
  : outcome (list (value * value)) :=
  if hashable k then Ok (dict_set d k v) else Raise TypeError.

(** [v[key]] for a string [key]. *)
Definition getitem_str (v : value) (key : string) : outcome value :=
  match v with
  | VDict d =>
      match dict_get d (VStr key) with
      | Some x => Ok x
      | None => Raise (KeyError key)
      end
  | _ => Raise TypeError
  end.

(** ** Strings: UTF-8 *)

Definition is_continuation (c : ascii) : bool :=
  Z.land (Z.of_N (N_of_ascii c)) 192 =? 128.

(** The characters of a [str], each as a [str] of its own. *)
Fixpoint chars_from (cur : string) (s : string) : list string :=
  match s with
  | EmptyString => [cur]
  | String c s' =>
      if is_continuation c then chars_from (cur ++ String c EmptyString) s'
      else cur :: chars_from (String c EmptyString) s'
  end.

Definition chars (s : string) : list string :=
  match s with
  | EmptyString => []
  | String c s' => chars_from (String c EmptyString) s'
  end.

Definition in_range (lo hi x : Z) : bool := (lo <=? x) && (x <=? hi).

(** Strict UTF-8 well-formedness, as [bytes.decode("utf-8")] checks it. *)
Fixpoint utf8_valid_from (fuel : nat) (bs : list Z) : bool :=
  match fuel with
  | O => match bs with [] => true | _ => false end
  | S fuel' =>
      match bs with
      | [] => true
      | b0 :: r0 =>
          if b0 <=? 127 then utf8_valid_from fuel' r0
          else if in_range 194 223 b0 then
            match r0 with
            | b1 :: r1 => in_range 128 191 b1 && utf8_valid_from fuel' r1
            | _ => false
            end
          else if in_range 224 239 b0 then
            match r0 with
            | b1 :: b2 :: r2 =>
                in_range (if b0 =? 224 then 160 else 128)
                         (if b0 =? 237 then 159 else 191) b1
                && in_range 128 191 b2 && utf8_valid_from fuel' r2
            | _ => false
            end
          else if in_range 240 244 b0 then
            match r0 with
            | b1 :: b2 :: b3 :: r3 =>
                in_range (if b0 =? 240 then 144 else 128)
                         (if b0 =? 244 then 143 else 191) b1
                && in_range 128 191 b2 && in_range 128 191 b3
                && utf8_valid_from fuel' r3
            | _ => false
            end
          else false
      end
  end.

Definition Z_of_byte (b : byte) : Z := Z.of_N (Byte.to_N b).

Definition utf8_valid (bs : list byte) : bool :=
  utf8_valid_from (List.length bs) (map Z_of_byte bs).

(** [bs.decode("utf-8")] *)
Definition decode_utf8 (bs : list byte) : outcome value :=
  if utf8_valid bs then Ok (VStr (string_of_list_byte bs))
  else Raise UnicodeDecodeError.

(** ** Byte strings *)

Definition unsigned_be (bs : list byte) : Z :=
  fold_left (fun acc b => acc * 256 + Z_of_byte b) bs 0.

Definition signed_be (bs : list byte) : Z :=
  let n := 8 * Z.of_nat (List.length bs) in
  let u := unsigned_be bs in
  if u <? 2 ^ (n - 1) then u else u - 2 ^ n.

(** The binary64 number with the given 64-bit encoding. *)
Definition float_of_bits64 (x : Z) : spec_float :=
  let s := Z.testbit x 63 in
  let e := Z.land (Z.shiftr x 52) 2047 in
  let m := Z.land x (2 ^ 52 - 1) in
  if e =? 0 then
    if m =? 0 then S754_zero s else S754_finite s (Z.to_pos m) (-1074)
  else if e =? 2047 then
    if m =? 0 then S754_infinity s else S754_nan
  else S754_finite s (Z.to_pos (m + 2 ^ 52)) (e - 1075).

(** The binary32 number with the given 32-bit encoding, as a binary64
    number (every binary32 number is one). *)
Definition float_of_bits32 (x : Z) : spec_float :=
  let s := Z.testbit x 31 in
  let e := Z.land (Z.shiftr x 23) 255 in
  let m := Z.land x (2 ^ 23 - 1) in
  if e =? 255 then
    if m =? 0 then S754_infinity s else S754_nan
  else
    let sm := if e =? 0 then m else m + 2 ^ 23 in
    let ex := if e =? 0 then -149 else e - 150 in
    binary_normalize prec64 emax64 (if s then - sm else sm) ex s.

(** [b[i:j]] for a byte string. *)
Definition slice_index (len i : Z) : Z :=
  if i <? 0 then Z.max (i + len) 0 else Z.min i len.

Definition slice (b : list byte) (i j : Z) : list byte :=
  let len := Z.of_nat (List.length b) in
  let i' := slice_index len i in
  let j' := slice_index len j in
  firstn (Z.to_nat (j' - i')) (skipn (Z.to_nat i') b).

(** ** class Deserializer *)

Module Deserializer.

Record t : Type := mk { buffer : list byte; offset : Z }.

Definition init (data : list byte) : t := mk data 0.

(** [__len__] *)
Definition len (self : t) : Z := Z.of_nat (List.length (buffer self)) - offset self.

(** The [struct] formats the program uses. *)
Inductive fmt : Type :=
| Fmt_b     (* "b"  *)
| Fmt_c     (* "c"  *)
| Fmt_h     (* ">h" *)
| Fmt_H     (* ">H" *)
| Fmt_l     (* ">l" *)
| Fmt_q     (* ">q" *)
| Fmt_f     (* ">f" *)
| Fmt_d.    (* ">d" *)

Definition calcsize (f : fmt) : Z :=
  match f with
  | Fmt_b | Fmt_c => 1
  | Fmt_h | Fmt_H => 2
  | Fmt_l | Fmt_f => 4
  | Fmt_q | Fmt_d => 8
  end.

(** The type of [struct.unpack_from(fmt, ...)[0]]: an [int], a [float]
    or (for "c") a [bytes] of length 1. *)
Definition unpacked (f : fmt) : Type :=
  match f with
  | Fmt_c => list byte
  | Fmt_f | Fmt_d => spec_float
  | _ => Z
  end.

Definition interpret (f : fmt) (bs : list byte) : unpacked f :=
  match f return unpacked f with
  | Fmt_b | Fmt_h | Fmt_l | Fmt_q => signed_be bs
  | Fmt_H => unsigned_be bs
  | Fmt_c => bs
  | Fmt_f => float_of_bits32 (unsigned_be bs)
  | Fmt_d => float_of_bits64 (unsigned_be bs)
  end.

(** [struct.unpack_from(fmt, buffer, offset)[0]] *)
Definition unpack_from (f : fmt) (buf : list byte) (off : Z) : outcome (unpacked f) :=
  let size := calcsize f in
  let blen := Z.of_nat (List.length buf) in
  if (off <? 0) && ((0 <? off + size) || (off + blen <? 0)) then Raise StructError
  else
    let off' := if off <? 0 then off + blen else off in
    if blen - off' <? size then Raise StructError
    else Ok (interpret f (firstn (Z.to_nat size) (skipn (Z.to_nat off') buf))).

Definition unpack (f : fmt) (advance : bool) (self : t)
  : outcome (unpacked f) * t :=
  match unpack_from f (buffer self) (offset self) with
  | Ok result =>
      (Ok result,
       if advance then mk (buffer self) (offset self + calcsize f) else self)
  | Raise e => (Raise e, self)
  | OutOfFuel => (OutOfFuel, self)
  end.

Definition extract (size upto : option Z) (advance : bool) (self : t)
  : outcome (list byte) * t :=
  let size :=
    match size with
    | Some size => size
    | None =>
        match upto with
        | None => len self
        | Some upto => upto - offset self
        end
    end in
  let data := slice (buffer self) (offset self) (offset self + size) in
  if (Z.of_nat (List.length data) <? size) || (size <? 0) then
    (Raise (Exception (InsufficientData size (Z.of_nat (List.length data)))), self)
  else
    (Ok data, if advance then mk (buffer self) (offset self + size) else self).

End Deserializer.

(** ** State and exceptions *)

(** A computation over a mutable state [S] that returns or raises; the
    state survives a raised exception. *)
Definition SE (S A : Type) : Type := S -> outcome A * S.

Definition ret {S A : Type} (a : A) : SE S A := fun s => (Ok a, s).

Definition raise {S A : Type} (e : exn) : SE S A := fun s => (Raise e, s).

Definition out_of_fuel {S A : Type} : SE S A := fun s => (OutOfFuel, s).

Definition bind {S A B : Type} (c : SE S A) (k : A -> SE S B) : SE S B :=
  fun s =>
    match c s with
    | (Ok a, s') => k a s'
    | (Raise e, s') => (Raise e, s')
    | (OutOfFuel, s') => (OutOfFuel, s')
    end.

Definition lift {S A : Type} (o : outcome A) : SE S A := fun s => (o, s).

Notation "x <- c ;; k" := (bind c (fun x => k))
  (at level 61, c at next level, right associativity).
Notation "c ;; k" := (bind c (fun _ => k))
  (at level 61, right associativity).

(** ** decode_object: the local list [val] *)

(** Code that pops from [val]. *)
Definition R (A : Type) : Type := SE (list value) A.

(** [val.pop(0)] *)
Definition pop0 : R value :=
  fun val =>
    match val with
    | [] => (Raise IndexError, val)
    | x :: val' => (Ok x, val')
    end.

(** [len(val)] *)
Definition remaining : R nat := fun val => (Ok (List.length val), val).

(** [[elt for _ in range(n)]] *)
Fixpoint list_comp {A : Type} (n : nat) (elt : R A) : R (list A) :=
  match n with
  | O => ret []
  | S n' => x <- elt ;; xs <- list_comp n' elt ;; ret (x :: xs)
  end.

Definition dict : Type := list (value * value).

Definition set_str (obj : dict) (k : string) (v : value) : dict :=
  dict_set obj (VStr k) v.

Definition ANNOT_CLASS_NAMES : list (Z * string) :=
  [ (0, "annotation.personal.bookmark");
    (1, "annotation.personal.highlight");
    (2, "annotation.personal.note");
    (3, "annotation.personal.clip_article");
    (10, "annotation.personal.handwritten_note");
    (11, "annotation.personal.sticky_note") ].

(** [ANNOT_CLASS_NAMES.get(annotation_type)] *)
Definition ANNOT_CLASS_NAMES_get (annotation_type : value) : outcome (option string) :=
  if hashable annotation_type then
    Ok (option_map snd
          (find (fun kv => py_eq (VInt (fst kv)) annotation_type) ANNOT_CLASS_NAMES))
  else Raise TypeError.

(** [len(v)] *)
Definition py_len (v : value) : outcome nat :=
  match v with
  | VStr s => Ok (List.length (chars s))
  | VList l => Ok (List.length l)
  | VDict d => Ok (List.length d)
  | _ => Raise TypeError
  end.

(** [iter(v)] : the elements a [for] loop goes through. *)
Definition py_iter (v : value) : outcome (list value) :=
  match v with
  | VStr s => Ok (map VStr (chars s))
  | VList l => Ok l
  | VDict d => Ok (map fst d)
  | _ => Raise TypeError
  end.

Fixpoint is_substring (s t : string) : bool :=
  String.prefix s t
  || match t with
     | EmptyString => false
     | String _ t' => is_substring s t'
     end.

(** [s in v] for a [str] [s]. *)
Definition contains_str (v : value) (s : string) : outcome bool :=
  match v with
  | VStr t => Ok (is_substring s t)
  | VList l => Ok (existsb (fun x => py_eq x (VStr s)) l)
  | VDict d => Ok (dict_contains d (VStr s))
  | _ => Raise TypeError
  end.

Definition bind_outcome {A B : Type} (o : outcome A) (k : A -> outcome B) : outcome B :=
  match o with
  | Ok a => k a
  | Raise e => Raise e
  | OutOfFuel => OutOfFuel
  end.

(** The body of the loop over the annotations of one interval tree: the
    payload of [annotation], or the exception. *)
Definition unwrap_annotation (annot_class_name : string) (annotation : value)
  : outcome value :=
  bind_outcome (py_len annotation) (fun n =>
  if negb (Nat.eqb n 1) then Raise (Exception (UnknownAnnotationFormat annotation))
  else
    bind_outcome (contains_str annotation annot_class_name) (fun c =>
    if negb c then Raise (Exception (UnknownAnnotationFormat annotation))
    else getitem_str annotation annot_class_name)).

Fixpoint unwrap_annotations (annot_class_name : string) (tree : list value)
  : outcome (list value) :=
  match tree with
  | [] => Ok []
  | annotation :: tree' =>
      bind_outcome (unwrap_annotation annot_class_name annotation) (fun a =>
      bind_outcome (unwrap_annotations annot_class_name tree') (fun annotations =>
      Ok (a :: annotations)))
  end.

(** [decode_position] *)
Definition decode_position (position : value) : value := position.

(** ** class KindleReaderDataStore *)

Inductive log_record : Type :=
| Info_decode_failed_at_offset (offset : Z)
| Info_partial_value (value : dict)
| Error_unknown_data_structure (name : string)
| Error_bytes_of_extra_data (n : Z).

Record KindleReaderDataStore : Type := mkStore {
  krds : Deserializer.t;
  log : list log_record;
  data : list byte
}.

Definition M (A : Type) : Type := SE KindleReaderDataStore A.

(** The branches of the conditional of [decode_object], in its order. *)
Inductive rule : Type :=
| SingleValue
| KeyValuePairs
| SingleValueJson
| Erl
| Lpr
| Fpr
| AnnotationCacheObject
| SavedAvlIntervalTree
| AnnotationPersonal
| ApnxKey
| FixedLayoutData
| SharingLimits
| LanguageStore
| PeriodicalsViewState
| FontPrefs
| PurchaseStateData
| TimerDataStore
| TimerDataStoreV2
| TimerModel
| TimerAverageCalculator
| TimerAverageCalculatorDistributionNormal
| TimerAverageCalculatorOutliers
| BookInfoStore
| PageHistoryStore
| PageHistoryRecord
| ReaderStatePreferences.

(** [name in names] *)
Definition name_in (name : string) (names : list string) : bool :=
  existsb (String.eqb name) names.

Definition select_rule (name : string) : option rule :=
  if name_in name
       ["clock.data.store"; "dictionary"; "lpu"; "pdf.contrast"; "sync_lpr";
        "tpz.line.spacing"; "XRAY_OTA_UPDATE_STATE"; "XRAY_SHOWING_SPOILERS";
        "XRAY_SORTING_STATE"; "XRAY_TAB_STATE"]
  then Some SingleValue
  else if name_in name
       ["dict.prefs.v2"; "EndActions"; "ReaderMetrics"; "StartActions";
        "Translator"; "Wikipedia"]
  then Some KeyValuePairs
  else if name_in name
       ["buy.asin.response.data"; "next.in.series.info.data"; "price.info.data"]
  then Some SingleValueJson
  else if String.eqb name "erl" then Some Erl
  else if name_in name ["lpr"] then Some Lpr
  else if name_in name ["fpr"; "updated_lpr"] then Some Fpr
  else if String.eqb name "annotation.cache.object" then Some AnnotationCacheObject
  else if String.eqb name "saved.avl.interval.tree" then Some SavedAvlIntervalTree
  else if name_in name (map snd ANNOT_CLASS_NAMES) then Some AnnotationPersonal
  else if String.eqb name "apnx.key" then Some ApnxKey
  else if String.eqb name "fixed.layout.data" then Some FixedLayoutData
  else if String.eqb name "sharing.limits" then Some SharingLimits
  else if String.eqb name "language.store" then Some LanguageStore
  else if String.eqb name "periodicals.view.state" then Some PeriodicalsViewState
  else if String.eqb name "font.prefs" then Some FontPrefs
  else if String.eqb name "purchase.state.data" then Some PurchaseStateData
  else if String.eqb name "timer.data.store" then Some TimerDataStore
  else if String.eqb name "timer.data.store.v2" then Some TimerDataStoreV2
  else if String.eqb name "timer.model" then Some TimerModel
  else if String.eqb name "timer.average.calculator" then Some TimerAverageCalculator
  else if String.eqb name "timer.average.calculator.distribution.normal"
  then Some TimerAverageCalculatorDistributionNormal
  else if String.eqb name "timer.average.calculator.outliers"
  then Some TimerAverageCalculatorOutliers
  else if String.eqb name "book.info.store" then Some BookInfoStore
  else if String.eqb name "page.history.store" then Some PageHistoryStore
  else if String.eqb name "page.history.record" then Some PageHistoryRecord
  else if String.eqb name "reader.state.preferences" then Some ReaderStatePreferences
  else None.

Section KRDS.

(** [datetime.datetime.fromtimestamp(t).isoformat()]: the local time of
    [t] seconds after the epoch as a string ([inr]); the library raises
    ([inl]) on the values it does not support. *)
Variable fromtimestamp_isoformat : spec_float -> exn + string.

(** [datetime.datetime.fromtimestamp(time / 1000.0).isoformat()] *)
Definition isoformat_of_millis (time : value) : outcome value :=
  bind_outcome (truediv_1000 time) (fun seconds =>
  match fromtimestamp_isoformat seconds with
  | inr s => Ok (VStr s)
  | inl e => Raise e
  end).

(** [... if time != -1 else None] *)
Definition time_unless_sentinel (time : value) : outcome value :=
  if negb (py_eq_int time (-1)) then isoformat_of_millis time else Ok VNone.

(** [timezone if timezone != -1 else None] *)
Definition unless_sentinel (timezone : value) : value :=
  if negb (py_eq_int timezone (-1)) then timezone else VNone.

(** [obj[k] = c] for a string literal [k]. *)
Definition field (obj : dict) (k : string) (c : R value) : R dict :=
  v <- c ;; ret (set_str obj k v).

(** [if len(val): obj[k] = val.pop(0)] *)
Definition optional_field (obj : dict) (k : string) : R dict :=
  n <- remaining ;;
  if negb (Nat.eqb n 0) then field obj k pop0 else ret obj.

(** [[elt for _ in range(val.pop(0))]] *)
Definition counted_list (elt : R value) : R value :=
  count <- pop0 ;;
  n <- lift (range count) ;;
  l <- list_comp n elt ;;
  ret (VList l).

(** [val.pop(0)[key]] *)
Definition pop0_item (key : string) : R value :=
  v <- pop0 ;; lift (getitem_str v key).

(** [datetime.datetime.fromtimestamp(val.pop(0) / 1000.0).isoformat()] *)
Definition pop0_time : R value :=
  time <- pop0 ;; lift (isoformat_of_millis time).

(** The loop of the key/value rule, [n] iterations left. *)
Fixpoint key_value_pairs (n : nat) (obj : dict) : R dict :=
  match n with
  | O => ret obj
  | S n' =>
      k <- pop0 ;;
      v <- pop0 ;;
      obj' <- lift (setitem obj k v) ;;
      key_value_pairs n' obj'
  end.

(** The loop of [annotation.cache.object], [n] iterations left. *)
Fixpoint annotation_cache (n : nat) (obj : dict) : R dict :=
  match n with
  | O => ret obj
  | S n' =>
      annotation_type <- pop0 ;;
      annot_class_name <- lift (ANNOT_CLASS_NAMES_get annotation_type) ;;
      match annot_class_name with
      | None =>
          d <- lift (format_d annotation_type) ;;
          raise (Exception (UnknownAnnotationType d))
      | Some annot_class_name =>
          tree <- pop0_item "saved.avl.interval.tree" ;;
          elements <- lift (py_iter tree) ;;
          annotations <- lift (unwrap_annotations annot_class_name elements) ;;
          annotation_cache n' (set_str obj annot_class_name (VList annotations))
      end
  end.

(** The body of one branch of the conditional of [decode_object]: it
    pops from [val] and returns [obj]. *)
Definition run_rule (r : rule) (name : string) : R value :=
  match r with
  | SingleValue => pop0
  | KeyValuePairs =>
      count <- pop0 ;;
      n <- lift (range count) ;;
      obj <- key_value_pairs n [] ;;
      ret (VDict obj)
  | SingleValueJson => pop0
  | Erl => v <- pop0 ;; ret (decode_position v)
  | Lpr =>
      version <- pop0 ;;
      match version with
      | VStr _ => ret (VDict (set_str [] "position" (decode_position version)))
      | _ =>
          le <- lift (py_le_int version 2) ;;
          if (le : bool) then
            obj <- field [] "position" (v <- pop0 ;; ret (decode_position v)) ;;
            time <- pop0 ;;
            obj <- field obj "time" (lift (time_unless_sentinel time)) ;;
            ret (VDict obj)
          else
            d <- lift (format_d version) ;;
            raise (Exception (UnknownLprVersion d))
      end
  | Fpr =>
      obj <- field [] "position" (v <- pop0 ;; ret (decode_position v)) ;;
      time <- pop0 ;;
      obj <- field obj "time" (lift (time_unless_sentinel time)) ;;
      timezone <- pop0 ;;
      obj <- field obj "timeZoneOffset" (ret (unless_sentinel timezone)) ;;
      obj <- field obj "country" pop0 ;;
      obj <- field obj "device" pop0 ;;
      ret (VDict obj)
  | AnnotationCacheObject =>
      count <- pop0 ;;
      n <- lift (range count) ;;
      obj <- annotation_cache n [] ;;
      ret (VDict obj)
  | SavedAvlIntervalTree => counted_list pop0
  | AnnotationPersonal =>
      obj <- field [] "startPosition" (v <- pop0 ;; ret (decode_position v)) ;;
      obj <- field obj "endPosition" (v <- pop0 ;; ret (decode_position v)) ;;
      obj <- field obj "creationTime" pop0_time ;;
      obj <- field obj "lastModificationTime" pop0_time ;;
      obj <- field obj "template" pop0 ;;
      obj <- (if String.eqb name "annotation.personal.note"
              then field obj "note" pop0
              else if String.eqb name "annotation.personal.handwritten_note"
              then field obj "handwritten_note_nbk_ref" pop0
              else if String.eqb name "annotation.personal.sticky_note"
              then field obj "sticky_note_nbk_ref" pop0
              else ret obj) ;;
      ret (VDict obj)
  | ApnxKey =>
      obj <- field [] "asin" pop0 ;;
      obj <- field obj "cdeType" pop0 ;;
      obj <- field obj "sidecarAvailable" pop0 ;;
      obj <- field obj "oPNToPosition" (counted_list pop0) ;;
      obj <- field obj "first" pop0 ;;
      obj <- field obj "unknown1" pop0 ;;
      obj <- field obj "unknown2" pop0 ;;
      obj <- field obj "pageMap" pop0 ;;
      ret (VDict obj)
  | FixedLayoutData =>
      obj <- field [] "unknown1" pop0 ;;
      obj <- field obj "unknown2" pop0 ;;
      obj <- field obj "unknown3" pop0 ;;
      ret (VDict obj)
  | SharingLimits =>
      obj <- field [] "accumulated" pop0 ;;
      ret (VDict obj)
  | LanguageStore =>
      obj <- field [] "language" pop0 ;;
      obj <- field obj "unknown1" pop0 ;;
      ret (VDict obj)
  | PeriodicalsViewState =>
      obj <- field [] "unknown1" pop0 ;;
      obj <- field obj "unknown2" pop0 ;;
      ret (VDict obj)
  | FontPrefs =>
      obj <- field [] "typeface" pop0 ;;
      obj <- field obj "lineSp" pop0 ;;
      obj <- field obj "size" pop0 ;;
      obj <- field obj "align" pop0 ;;
      obj <- field obj "insetTop" pop0 ;;
      obj <- field obj "insetLeft" pop0 ;;
      obj <- field obj "insetBottom" pop0 ;;
      obj <- field obj "insetRight" pop0 ;;
      obj <- field obj "unknown1" pop0 ;;
      obj <- optional_field obj "bold" ;;
      obj <- optional_field obj "userSideloadableFont" ;;
      obj <- optional_field obj "customFontIndex" ;;
      obj <- optional_field obj "mobi7SystemFont" ;;
      obj <- optional_field obj "mobi7RestoreFont" ;;
      obj <- optional_field obj "readingPresetSelected" ;;
      obj <- optional_field obj "unknown2" ;;
      ret (VDict obj)
  | PurchaseStateData =>
      obj <- field [] "state" pop0 ;;
      obj <- field obj "time" pop0_time ;;
      ret (VDict obj)
  | TimerDataStore =>
      obj <- field [] "on" pop0 ;;
      obj <- field obj "readingTimerModel" pop0 ;;
      obj <- field obj "version" pop0 ;;
      ret (VDict obj)
  | TimerDataStoreV2 =>
      obj <- field [] "on" pop0 ;;
      obj <- field obj "readingTimerModel" pop0 ;;
      obj <- field obj "version" pop0 ;;
      obj <- field obj "lastOption" pop0 ;;
      ret (VDict obj)
  | TimerModel =>
      obj <- field [] "version" pop0 ;;
      obj <- field obj "totalTime" pop0 ;;
      obj <- field obj "totalWords" pop0 ;;
      obj <- field obj "totalPercent" pop0 ;;
      obj <- field obj "averageCalculator" (pop0_item "timer.average.calculator") ;;
      ret (VDict obj)
  | TimerAverageCalculator =>
      obj <- field [] "samples1" (counted_list pop0) ;;
      obj <- field obj "samples2" (counted_list pop0) ;;
      obj <- field obj "normalDistributions"
               (counted_list (pop0_item "timer.average.calculator.distribution.normal")) ;;
      obj <- field obj "outliers"
               (counted_list (pop0_item "timer.average.calculator.outliers")) ;;
      ret (VDict obj)
  | TimerAverageCalculatorDistributionNormal =>
      obj <- field [] "count" pop0 ;;
      obj <- field obj "sum" pop0 ;;
      obj <- field obj "sumOfSquares" pop0 ;;
      ret (VDict obj)
  | TimerAverageCalculatorOutliers => counted_list pop0
  | BookInfoStore =>
      obj <- field [] "numberOfWords" pop0 ;;
      obj <- field obj "percentOfBook" pop0 ;;
      ret (VDict obj)
  | PageHistoryStore => counted_list (pop0_item "page.history.record")
  | PageHistoryRecord =>
      obj <- field [] "position" (v <- pop0 ;; ret (decode_position v)) ;;
      obj <- field obj "time" pop0_time ;;
      ret (VDict obj)
  | ReaderStatePreferences =>
      obj <- field [] "fontPreferences" pop0 ;;
      obj <- field obj "leftMargin" pop0 ;;
      obj <- field obj "rightMargin" pop0 ;;
      obj <- field obj "topMargin" pop0 ;;
      obj <- field obj "bottomMargin" pop0 ;;
      obj <- field obj "unknown1" pop0 ;;
      ret (VDict obj)
  end.

(** [self.log.error(...)], [self.log.info(...)] *)
Definition log_record_ (r : log_record) : M unit :=
  fun self => (Ok tt, mkStore (krds self) (log self ++ [r]) (data self)).

Definition decode_object (name : string) (val : list value) : M value :=
  fun self =>
    let '(body, self) :=
      match select_rule name with
      | Some r => (run_rule r name val, self)
      | None =>
          (* obj = val; val = [] *)
          ((Ok (VList val), []),
           snd (log_record_ (Error_unknown_data_structure name) self))
      end in
    match body with
    | (Ok obj, val) =>
        if negb (Nat.eqb (List.length val) 0)
        then (Raise (Exception (ExcessValues name val)), self)
        else (Ok (VDict [(VStr name, obj)]), self)
    | (Raise e, _) => (Raise e, self)
    | (OutOfFuel, _) => (OutOfFuel, self)
    end.

(** *** decode_next *)

Definition SIGNATURE : list byte := [x00; x00; x00; x00; x00; x1a; xb1; x26].

Definition DATATYPE_BOOLEAN : Z := 0.
Definition DATATYPE_INT : Z := 1.
Definition DATATYPE_LONG : Z := 2.
Definition DATATYPE_UTF : Z := 3.
Definition DATATYPE_DOUBLE : Z := 4.
Definition DATATYPE_SHORT : Z := 5.
Definition DATATYPE_FLOAT : Z := 6.
Definition DATATYPE_BYTE : Z := 7.
Definition DATATYPE_CHAR : Z := 9.
Definition DATATYPE_OBJECT_BEGIN : Z := -2.
Definition DATATYPE_OBJECT_END : Z := -1.

(** [self.krds.unpack(fmt, advance)] *)
Definition unpack (f : Deserializer.fmt) (advance : bool)
  : M (Deserializer.unpacked f) :=
  fun self =>
    let '(result, d) := Deserializer.unpack f advance (krds self) in
    (result, mkStore d (log self) (data self)).

(** [self.krds.extract(size)] *)
Definition extract (size : Z) : M (list byte) :=
  fun self =>
    let '(result, d) := Deserializer.extract (Some size) None true (krds self) in
    (result, mkStore d (log self) (data self)).

(** The body of [decode_next] for [DATATYPE_BOOLEAN]. *)
Definition decode_boolean : M bool :=
  b <- unpack Deserializer.Fmt_b true ;;
  if b =? 0 then ret false
  else if b =? 1 then ret true
  else raise (Exception (UnknownBoolean b)).

(** The body of [decode_next] for [DATATYPE_UTF]; its flag is read by
    [decode_next(DATATYPE_BOOLEAN)]. *)
Definition decode_utf : M string :=
  empty <- decode_boolean ;;
  if (empty : bool) then ret ""
  else
    n <- unpack Deserializer.Fmt_H true ;;
    bs <- extract n ;;
    if utf8_valid bs then ret (string_of_list_byte bs)
    else raise UnicodeDecodeError.

(** [decode_next(datatype)], with a bound [fuel] on the depth of the
    calls; [decode_children] is its [while] loop, [val] the children
    decoded so far. *)
Fixpoint decode_next_fuel (fuel : nat) (datatype : option Z) {struct fuel}
  : M value :=
  match fuel with
  | O => out_of_fuel
  | S fuel =>
      datatype <- match datatype with
                  | None => unpack Deserializer.Fmt_b true
                  | Some datatype => ret datatype
                  end ;;
      if datatype =? DATATYPE_BOOLEAN then
        b <- decode_boolean ;; ret (VBool b)
      else if datatype =? DATATYPE_INT then
        v <- unpack Deserializer.Fmt_l true ;; ret (VInt v)
      else if datatype =? DATATYPE_LONG then
        v <- unpack Deserializer.Fmt_q true ;; ret (VInt v)
      else if datatype =? DATATYPE_UTF then
        s <- decode_utf ;; ret (VStr s)
      else if datatype =? DATATYPE_DOUBLE then
        v <- unpack Deserializer.Fmt_d true ;; ret (VFloat v)
      else if datatype =? DATATYPE_SHORT then
        v <- unpack Deserializer.Fmt_h true ;; ret (VInt v)
      else if datatype =? DATATYPE_FLOAT then
        v <- unpack Deserializer.Fmt_f true ;; ret (VFloat v)
      else if datatype =? DATATYPE_BYTE then
        v <- unpack Deserializer.Fmt_b true ;; ret (VInt v)
      else if datatype =? DATATYPE_CHAR then
        c <- unpack Deserializer.Fmt_c true ;; lift (decode_utf8 c)
      else if datatype =? DATATYPE_OBJECT_BEGIN then
        name <- decode_utf ;;
        val <- decode_children fuel [] ;;
        unpack Deserializer.Fmt_b true ;;
        decode_object name val
      else raise (Exception (UnknownDatatype datatype))
  end

with decode_children (fuel : nat) (val : list value) {struct fuel}
  : M (list value) :=
  match fuel with
  | O => out_of_fuel
  | S fuel =>
      next <- unpack Deserializer.Fmt_b false ;;
      if negb (next =? DATATYPE_OBJECT_END) then
        v <- decode_next_fuel fuel None ;;
        decode_children fuel (val ++ [v])
      else ret val
  end.

(** Every call consumes a byte before it calls again, so twice the
    number of bytes left (and one) is depth enough: see
    [decode_next_fuel_enough]. *)
Definition enough_fuel (self : KindleReaderDataStore) : nat :=
  Z.to_nat (2 * Deserializer.len (krds self) + 1).

Definition decode_next (datatype : option Z) : M value :=
  fun self => decode_next_fuel (enough_fuel self) datatype self.

(** *** deserialize *)

(** [try: c / except Exception: handler; raise] *)
Definition try_except_reraise {A : Type} (c : M A) (handler : M unit) : M A :=
  fun self =>
    match c self with
    | (Raise e, self') =>
        match handler self' with
        | (Ok _, self'') => (Raise e, self'')
        | (Raise e', self'') => (Raise e', self'')
        | (OutOfFuel, self'') => (OutOfFuel, self'')
        end
    | r => r
    end.

(** [val.items()] *)
Definition items (val : value) : outcome (list (value * value)) :=
  match val with
  | VDict d => Ok d
  | _ => Raise AttributeError
  end.

(** [for k, v in ...: if k in value: raise ...; value[k] = v] *)
Fixpoint merge_items (kvs : list (value * value)) (value : dict) : outcome dict :=
  match kvs with
  | [] => Ok value
  | (k, v) :: kvs' =>
      if dict_contains value k then Raise (Exception (DuplicateItem k))
      else merge_items kvs' (dict_set value k v)
  end.

(** The loop of [deserialize], [n] iterations left. *)
Fixpoint decode_entries (n : nat) (value : dict) : M dict :=
  match n with
  | O => ret value
  | S n' =>
      val <- try_except_reraise (decode_next None)
               (fun self =>
                  (log_record_
                     (Info_decode_failed_at_offset
                        (Z.of_nat (List.length (data self))
                         - Deserializer.len (krds self))) ;;
                   log_record_ (Info_partial_value value)) self) ;;
      kvs <- lift (items val) ;;
      value' <- lift (merge_items kvs value) ;;
      decode_entries n' value'
  end.

(** [a == b] on [bytes] *)
Fixpoint list_byte_eqb (a b : list byte) : bool :=
  match a, b with
  | [], [] => true
  | x :: a', y :: b' => Byte.eqb x y && list_byte_eqb a' b'
  | _, _ => false
  end.

(** [if len(self.krds) != 0: self.log.error(...)] *)
Definition warn_extra_data : M unit :=
  fun self =>
    (if negb (Deserializer.len (krds self) =? 0)
     then log_record_ (Error_bytes_of_extra_data (Deserializer.len (krds self)))
     else ret tt) self.

(** [deserialize] from [value_cnt = self.decode_next()] on. *)
Definition deserialize_entries : M dict :=
  value_cnt <- decode_next None ;;
  n <- lift (range value_cnt) ;;
  value <- decode_entries n [] ;;
  warn_extra_data ;;
  ret value.

Definition deserialize : M dict :=
  fun self =>
    (signature <- extract (Z.of_nat (List.length SIGNATURE)) ;;
     if negb (list_byte_eqb signature SIGNATURE)
     then raise (Exception SignatureIncorrect)
     else
       first_value <- decode_next None ;;
       if negb (py_eq_int first_value 1)
       then raise (Exception (FirstValue first_value))
       else deserialize_entries)
      (mkStore (Deserializer.init (data self)) (log self) (data self)).

End KRDS.

(** * Properties *)

(** ** The byte cursor *)

Module DeserializerFacts.
Import Deserializer.

(** The offset lies within the buffer. *)
Definition wf (d : t) : Prop :=
  0 <= offset d <= Z.of_nat (List.length (buffer d)).

(** The bytes a read of [n] bytes at the offset of [d] returns. *)
Definition bytes_at (d : t) (n : Z) : list byte :=
  firstn (Z.to_nat n) (skipn (Z.to_nat (offset d)) (buffer d)).

Definition advanced (advance : bool) (d : t) (n : Z) : t :=
  if advance then mk (buffer d) (offset d + n) else d.

Lemma calcsize_pos f : 1 <= calcsize f <= 8.
Proof. destruct f; simpl; lia. Qed.

Lemma wf_init data : wf (init data).
Proof. unfold wf; simpl; lia. Qed.

Lemma unpack_spec f advance d :
  wf d ->
  unpack f advance d =
    if calcsize f <=? len d
    then (Ok (interpret f (bytes_at d (calcsize f))), advanced advance d (calcsize f))
    else (Raise StructError, d).
Proof.
  intros [H0 H1]. unfold unpack, unpack_from, len, bytes_at, advanced.
  destruct (offset d <? 0) eqn:Hneg; [apply Z.ltb_lt in Hneg; lia|].
  simpl andb. cbv iota.
  destruct (Z.of_nat (List.length (buffer d)) - offset d <? calcsize f) eqn:Hlt.
  - apply Z.ltb_lt in Hlt.
    destruct (calcsize f <=? _) eqn:Hle; [apply Z.leb_le in Hle; lia|reflexivity].
  - apply Z.ltb_ge in Hlt.
    destruct (calcsize f <=? _) eqn:Hle; [reflexivity|apply Z.leb_gt in Hle; lia].
Qed.

Lemma slice_length b i n :
  0 <= i <= Z.of_nat (List.length b) ->
  0 <= n ->
  slice b i (i + n) = firstn (Z.to_nat (Z.min n (Z.of_nat (List.length b) - i)))
                        (skipn (Z.to_nat i) b).
Proof.
  intros Hi Hn. unfold slice, slice_index.
  destruct (i <? 0) eqn:E1; [apply Z.ltb_lt in E1; lia|].
  destruct (i + n <? 0) eqn:E2; [apply Z.ltb_lt in E2; lia|].
  f_equal; [|f_equal; lia]. lia.
Qed.

Lemma extract_spec n advance d :
  wf d ->
  extract (Some n) None advance d =
    if (0 <=? n) && (n <=? len d)
    then (Ok (bytes_at d n), advanced advance d n)
    else (Raise (Exception (InsufficientData n
                   (Z.of_nat (List.length (slice (buffer d) (offset d) (offset d + n)))))),
          d).
Proof.
  intros [H0 H1]. unfold extract, len, bytes_at, advanced.
  destruct (0 <=? n) eqn:Hn; simpl andb.
  - apply Z.leb_le in Hn.
    rewrite slice_length by lia.
    rewrite length_firstn, length_skipn.
    destruct (n <=? _) eqn:Hle.
    + apply Z.leb_le in Hle.
      replace (Z.min n (Z.of_nat (List.length (buffer d)) - offset d)) with n by lia.
      match goal with |- (if ?c then _ else _) = _ => replace c with false end;
        [reflexivity|].
      symmetry. apply orb_false_iff; split; apply Z.ltb_ge; lia.
    + apply Z.leb_gt in Hle.
      match goal with |- (if ?c then _ else _) = _ => replace c with true end;
        [reflexivity|].
      symmetry. apply orb_true_iff; left. apply Z.ltb_lt. lia.
  - apply Z.leb_gt in Hn.
    match goal with |- (if ?c then _ else _) = _ => replace c with true end;
      [reflexivity|].
    symmetry. apply orb_true_iff; right. apply Z.ltb_lt. lia.
Qed.

(** The operations of a cursor, and a sequence of them run from a
    state. *)
Inductive op : Type :=
| Unpack (f : fmt) (advance : bool)
| Extract (size upto : option Z) (advance : bool)
| Len.

Definition apply (o : op) (d : t) : t :=
  match o with
  | Unpack f advance => snd (unpack f advance d)
  | Extract size upto advance => snd (extract size upto advance d)
  | Len => d
  end.

Definition run (ops : list op) (d : t) : t :=
  fold_left (fun d o => apply o d) ops d.

Definition requested (size upto : option Z) (d : t) : Z :=
  match size, upto with
  | Some size, _ => size
  | None, None => len d
  | None, Some upto => upto - offset d
  end.

Lemma extract_requested size upto advance d :
  extract size upto advance d =
  extract (Some (requested size upto d)) None advance d.
Proof. destruct size, upto; reflexivity. Qed.

Lemma apply_step o d :
  wf d ->
  wf (apply o d) /\ buffer (apply o d) = buffer d /\ offset d <= offset (apply o d).
Proof.
  intros Hwf. pose proof Hwf as [H0 H1].
  destruct o as [f advance|size upto advance|]; simpl.
  - rewrite unpack_spec by assumption.
    pose proof (calcsize_pos f). unfold len, advanced, wf.
    destruct (calcsize f <=? _) eqn:E; simpl; [|repeat split; lia].
    apply Z.leb_le in E. destruct advance; simpl; repeat split; lia.
  - rewrite extract_requested, extract_spec by assumption.
    unfold len, advanced, wf.
    destruct ((0 <=? _) && _) eqn:E; simpl; [|repeat split; lia].
    apply andb_true_iff in E. destruct E as [E1 E2].
    apply Z.leb_le in E1, E2. destruct advance; simpl; repeat split; lia.
  - unfold wf; repeat split; lia.
Qed.

Lemma run_invariant ops : forall d,
  wf d ->
  wf (run ops d) /\ buffer (run ops d) = buffer d /\ offset d <= offset (run ops d).
Proof.
  induction ops as [|o ops IH]; intros d Hwf; simpl.
  - unfold wf in *; repeat split; lia.
  - destruct (apply_step o d Hwf) as (Hwf' & Hb & Ho).
    destruct (IH _ Hwf') as (Hwf'' & Hb' & Ho').
    repeat split; try apply Hwf''; [congruence|lia].
Qed.

End DeserializerFacts.

(** C8. Whatever sequence of cursor operations (fixed-width reads,
    extractions, peeks, length queries) has run on a cursor over [data],
    the buffer is still [data] and the offset lies between 0 and the
    length of the buffer; one more operation never moves the offset back
    nor past the end.  In such a state an extraction of [n] bytes returns
    [n] bytes and advances by [n] when [0 <= n <= remaining], and
    otherwise raises and leaves the cursor as it was; a fixed-width read
    behaves the same with the width of its format, and a peek never moves
    the offset. *)
Theorem cursor_offset_monotone_bounded :
  forall (data : list byte) (ops : list DeserializerFacts.op) (o : DeserializerFacts.op),
    let d := DeserializerFacts.run ops (Deserializer.init data) in
    let d' := DeserializerFacts.apply o d in
    Deserializer.buffer d = data /\ Deserializer.buffer d' = data /\
    0 <= Deserializer.offset d /\
    Deserializer.offset d <= Deserializer.offset d' /\
    Deserializer.offset d' <= Z.of_nat (List.length data) /\
    (forall n, 0 <= n <= Deserializer.len d ->
       exists bs, Deserializer.extract (Some n) None true d
                  = (Ok bs, Deserializer.mk data (Deserializer.offset d + n))
                  /\ Z.of_nat (List.length bs) = n) /\
    (forall n, ~ (0 <= n <= Deserializer.len d) ->
       exists e, Deserializer.extract (Some n) None true d = (Raise e, d)) /\
    (forall f, Deserializer.calcsize f <= Deserializer.len d ->
       exists v, Deserializer.unpack f true d
                 = (Ok v, Deserializer.mk data
                            (Deserializer.offset d + Deserializer.calcsize f))) /\
    (forall f, Deserializer.len d < Deserializer.calcsize f ->
       Deserializer.unpack f true d = (Raise StructError, d)) /\
    (forall f, snd (Deserializer.unpack f false d) = d).
Proof.
  intros data ops o d d'.
  destruct (DeserializerFacts.run_invariant ops (Deserializer.init data)
              (DeserializerFacts.wf_init data)) as (Hwf & Hb & Ho).
  fold d in Hwf, Hb, Ho. simpl in Hb, Ho.
  destruct (DeserializerFacts.apply_step o d Hwf) as (Hwf' & Hb' & Ho').
  fold d' in Hwf', Hb', Ho'.
  pose proof Hwf as [H0 H1]. pose proof Hwf' as [H0' H1'].
  rewrite Hb in H1. rewrite Hb', Hb in H1'.
  repeat split; try lia; try congruence.
  - intros n Hn. rewrite DeserializerFacts.extract_spec by assumption.
    replace ((0 <=? n) && (n <=? Deserializer.len d)) with true
      by (symmetry; apply andb_true_iff; split; apply Z.leb_le; lia).
    eexists; split.
    + unfold DeserializerFacts.advanced. rewrite Hb. reflexivity.
    + unfold DeserializerFacts.bytes_at, Deserializer.len in *.
      rewrite length_firstn, length_skipn. lia.
  - intros n Hn. rewrite DeserializerFacts.extract_spec by assumption.
    replace ((0 <=? n) && (n <=? Deserializer.len d)) with false.
    + eexists; reflexivity.
    + symmetry. apply andb_false_iff.
      destruct (Z_le_gt_dec 0 n); [right; apply Z.leb_gt|left; apply Z.leb_gt]; lia.
  - intros f Hf. rewrite DeserializerFacts.unpack_spec by assumption.
    replace (Deserializer.calcsize f <=? Deserializer.len d) with true
      by (symmetry; apply Z.leb_le; lia).
    eexists. unfold DeserializerFacts.advanced. rewrite Hb. reflexivity.
  - intros f Hf. rewrite DeserializerFacts.unpack_spec by assumption.
    replace (Deserializer.calcsize f <=? Deserializer.len d) with false
      by (symmetry; apply Z.leb_gt; lia).
    reflexivity.
  - intros f. rewrite DeserializerFacts.unpack_spec by assumption.
    destruct (_ <=? _); reflexivity.
Qed.

(** ** Dictionaries with boolean, integer and string keys *)

(** On these keys [==] is an equivalence: the equality of [canon]. *)
Definition plain_key (k : value) : bool :=
  match k with
  | VBool _ | VInt _ | VStr _ => true
  | _ => false
  end.

Definition canon (k : value) : Z + string :=
  match k with
  | VBool b => inl (Z_of_bool b)
  | VInt z => inl z
  | VStr s => inr s
  | _ => inr ""
  end.

Definition canon_eq_dec (a b : Z + string) : {a = b} + {a <> b}.
Proof. decide equality; [apply Z.eq_dec | apply string_dec]. Defined.

Definition plain_keys (d : list (value * value)) : Prop :=
  forall k v, In (k, v) d -> plain_key k = true.

(** The value of the last pair of [pairs] whose key equals [k]. *)
Definition last_value (pairs : list (value * value)) (k : value) : option value :=
  fold_left (fun acc kv => if py_eq (fst kv) k then Some (snd kv) else acc) pairs None.

(** [for k, v in pairs: d[k] = v] *)
Definition set_all (pairs : list (value * value)) (d : list (value * value))
  : list (value * value) :=
  fold_left (fun d kv => dict_set d (fst kv) (snd kv)) pairs d.

Lemma py_eq_canon a b :
  plain_key a = true -> plain_key b = true ->
  py_eq a b = true <-> canon a = canon b.
Proof.
  destruct a, b; simpl; try discriminate; intros _ _.
  - destruct b0, b; simpl; split; congruence.
  - rewrite Z.eqb_eq. split; congruence.
  - split; congruence.
  - rewrite Z.eqb_eq. split; congruence.
  - rewrite Z.eqb_eq. split; congruence.
  - split; congruence.
  - split; congruence.
  - split; congruence.
  - rewrite String.eqb_eq. split; congruence.
Qed.

Lemma py_eq_plain_dec a b :
  plain_key a = true -> plain_key b = true ->
  py_eq a b = if canon_eq_dec (canon a) (canon b) then true else false.
Proof.
  intros Ha Hb. destruct (canon_eq_dec _ _) as [E|E].
  - apply py_eq_canon; assumption.
  - destruct (py_eq a b) eqn:H; [|reflexivity].
    apply py_eq_canon in H; [contradiction|assumption|assumption].
Qed.

Lemma plain_keys_cons k v d :
  plain_keys ((k, v) :: d) <-> plain_key k = true /\ plain_keys d.
Proof.
  unfold plain_keys. split.
  - intros H. split; [apply (H k v); left; reflexivity|].
    intros k' v' Hin. apply (H k' v'). right. exact Hin.
  - intros [Hk Hd] k' v' [Heq|Hin]; [inversion Heq; subst; exact Hk|].
    apply (Hd k' v' Hin).
Qed.

Lemma dict_get_set d : forall k' v k,
  plain_keys d -> plain_key k' = true -> plain_key k = true ->
  dict_get (dict_set d k' v) k = if py_eq k' k then Some v else dict_get d k.
Proof.
  induction d as [|[k0 v0] d IH]; intros k' v k Hd Hk' Hk; simpl.
  - reflexivity.
  - apply plain_keys_cons in Hd. destruct Hd as [Hk0 Hd].
    rewrite (py_eq_plain_dec k0 k'), (py_eq_plain_dec k0 k), (py_eq_plain_dec k' k)
      by assumption.
    destruct (canon_eq_dec (canon k0) (canon k')) as [E1|E1]; simpl.
    + rewrite (py_eq_plain_dec k0 k) by assumption.
      destruct (canon_eq_dec (canon k0) (canon k)) as [E2|E2];
        destruct (canon_eq_dec (canon k') (canon k)) as [E3|E3];
        try reflexivity; congruence.
    + rewrite (py_eq_plain_dec k0 k) by assumption.
      rewrite IH by assumption.
      rewrite (py_eq_plain_dec k' k) by assumption.
      destruct (canon_eq_dec (canon k0) (canon k)) as [E2|E2];
        destruct (canon_eq_dec (canon k') (canon k)) as [E3|E3];
        try reflexivity; congruence.
Qed.

Lemma dict_set_plain d : forall k v,
  plain_keys d -> plain_key k = true -> plain_keys (dict_set d k v).
Proof.
  induction d as [|[k0 v0] d IH]; intros k v Hd Hk; simpl.
  - intros k' v' [Heq|[]]. inversion Heq; subst; exact Hk.
  - apply plain_keys_cons in Hd. destruct Hd as [Hk0 Hd].
    destruct (py_eq k0 k); apply plain_keys_cons; split; auto.
Qed.

Lemma dict_set_length d : forall k v,
  List.length (dict_set d k v)
  = (List.length d + if dict_contains d k then 0 else 1)%nat.
Proof.
  unfold dict_contains.
  induction d as [|[k0 v0] d IH]; intros k v; simpl.
  - reflexivity.
  - destruct (py_eq k0 k); simpl; [lia|]. rewrite IH. lia.
Qed.

Lemma set_all_plain pairs : forall d,
  plain_keys pairs -> plain_keys d -> plain_keys (set_all pairs d).
Proof.
  induction pairs as [|[k v] pairs IH]; intros d Hp Hd; simpl; [exact Hd|].
  apply plain_keys_cons in Hp. destruct Hp as [Hk Hp].
  apply IH; [exact Hp|]. apply dict_set_plain; assumption.
Qed.

Lemma last_value_from pairs : forall k acc,
  fold_left (fun acc kv => if py_eq (fst kv) k then Some (snd kv) else acc) pairs acc
  = match last_value pairs k with Some v => Some v | None => acc end.
Proof.
  unfold last_value.
  induction pairs as [|[k0 v0] pairs IH]; intros k acc; simpl; [reflexivity|].
  rewrite IH. rewrite (IH k (if py_eq k0 k then Some v0 else None)).
  destruct (fold_left _ pairs None); [reflexivity|].
  destruct (py_eq k0 k); reflexivity.
Qed.

Lemma dict_get_set_all pairs : forall d k,
  plain_keys pairs -> plain_keys d -> plain_key k = true ->
  dict_get (set_all pairs d) k
  = match last_value pairs k with Some v => Some v | None => dict_get d k end.
Proof.
  induction pairs as [|[k0 v0] pairs IH]; intros d k Hp Hd Hk; simpl.
  - reflexivity.
  - apply plain_keys_cons in Hp. destruct Hp as [Hk0 Hp].
    rewrite IH by (try apply dict_set_plain; assumption).
    unfold last_value at 2. simpl. rewrite last_value_from.
    destruct (last_value pairs k); [reflexivity|].
    rewrite dict_get_set by assumption.
    destruct (py_eq k0 k); reflexivity.
Qed.

Lemma set_all_length_le pairs : forall d,
  (List.length (set_all pairs d) <= List.length d + List.length pairs)%nat.
Proof.
  induction pairs as [|[k v] pairs IH]; intros d; simpl; [lia|].
  specialize (IH (dict_set d k v)). rewrite dict_set_length in IH.
  destruct (dict_contains d k); lia.
Qed.

Lemma set_all_app p q d : set_all (p ++ q) d = set_all q (set_all p d).
Proof. apply fold_left_app. Qed.

(** ** decode_object *)

Section DecodeObjectFacts.

Variable clock : spec_float -> exn + string.

(** [{name: obj}] *)
Definition named (name : string) (obj : value) : value :=
  VDict [(VStr name, obj)].

(** How [decode_object] ends once the rule of [name] has returned [obj]
    and left [rest] in [val]. *)
Definition finish (name : string) (obj : value) (rest : list value) : outcome value :=
  match rest with
  | [] => Ok (named name obj)
  | _ :: _ => Raise (Exception (ExcessValues name rest))
  end.

Lemma decode_object_known name r val self :
  select_rule name = Some r ->
  decode_object clock name val self =
    (match run_rule clock r name val with
     | (Ok obj, rest) => finish name obj rest
     | (Raise e, _) => Raise e
     | (OutOfFuel, _) => OutOfFuel
     end, self).
Proof.
  intros H. unfold decode_object. rewrite H.
  destruct (run_rule clock r name val) as [[obj|e|] rest]; try reflexivity.
  destruct rest; reflexivity.
Qed.

(** Runs the monadic code of a rule on the children in sight. *)
Ltac run_R :=
  cbv beta iota zeta delta
    [run_rule bind pop0 lift field raise ret decode_position
     counted_list pop0_item pop0_time optional_field remaining].

(** C2. For a name without a rule, [decode_object] does not raise,
    whatever the children are and however many: it appends the
    diagnostic about the unknown data structure to the log and returns
    [{name: val}], the list of the decoded children as it is.  The test
    for excess values runs on the emptied list, so it never fires. *)
Theorem unknown_structure_passes_children_through :
  forall (name : string) (val : list value) (self : KindleReaderDataStore),
    select_rule name = None ->
    decode_object clock name val self =
      (Ok (VDict [(VStr name, VList val)]),
       mkStore (krds self)
               (log self ++ [Error_unknown_data_structure name])
               (data self)).
Proof.
  intros name val self H. unfold decode_object. rewrite H. reflexivity.
Qed.

(** The time of a record whose field is the integer [t]: [None] for the
    sentinel, else the string of the library for [t / 1000.0]. *)
Definition time_of_millis (t : Z) : outcome value :=
  if t =? -1 then Ok VNone
  else
    bind_outcome (float_of_int t) (fun f =>
    match clock (SFdiv prec64 emax64 f (float_of_Z 1000)) with
    | inr s => Ok (VStr s)
    | inl e => Raise e
    end).

Lemma time_unless_sentinel_int t :
  time_unless_sentinel clock (VInt t) = time_of_millis t.
Proof.
  unfold time_unless_sentinel, time_of_millis, py_eq_int, py_eq.
  destruct (t =? -1); simpl; [reflexivity|].
  unfold isoformat_of_millis, truediv_1000.
  destruct (float_of_int t); reflexivity.
Qed.

(** C6. [lpr].  When the first child is a string, the string is the
    position and the only field.  When it is an integer [version] above
    2, the decode raises the exception about the unknown lpr version,
    whatever follows.  When it is an integer of at most 2, the next
    child is the position and the child after it the time: the time -1
    gives [None] and the library is not asked; any other integer [t]
    gives the string the library makes of [t / 1000.0], and where the
    library (or the division) raises, the decode raises the same.  With
    fewer than two children after the version the decode raises
    [IndexError]; children after the time are excess values. *)
Theorem lpr_rule :
  forall (self : KindleReaderDataStore),
    (forall (s : string) (rest : list value),
       decode_object clock "lpr" (VStr s :: rest) self =
         (finish "lpr" (VDict [(VStr "position", VStr s)]) rest, self)) /\
    (forall (version : Z) (rest : list value),
       2 < version ->
       decode_object clock "lpr" (VInt version :: rest) self =
         (Raise (Exception (UnknownLprVersion version)), self)) /\
    (forall (version : Z) (position : value) (rest : list value),
       version <= 2 ->
       decode_object clock "lpr" (VInt version :: position :: VInt (-1) :: rest) self =
         (finish "lpr"
            (VDict [(VStr "position", position); (VStr "time", VNone)]) rest,
          self)) /\
    (forall (version t : Z) (position : value) (rest : list value),
       version <= 2 -> t <> -1 ->
       decode_object clock "lpr" (VInt version :: position :: VInt t :: rest) self =
         (match float_of_int t with
          | Ok milliseconds =>
              match clock (SFdiv prec64 emax64 milliseconds (float_of_Z 1000)) with
              | inr iso =>
                  finish "lpr"
                    (VDict [(VStr "position", position); (VStr "time", VStr iso)])
                    rest
              | inl e => Raise e
              end
          | Raise e => Raise e
          | OutOfFuel => OutOfFuel
          end,
          self)) /\
    (forall (version : Z) (rest : list value),
       version <= 2 -> (List.length rest < 2)%nat ->
       decode_object clock "lpr" (VInt version :: rest) self = (Raise IndexError, self)).
Proof.
  intros self. split; [|split; [|split; [|split]]].
  - intros s rest.
    rewrite (decode_object_known "lpr" Lpr) by reflexivity. reflexivity.
  - intros version rest Hv.
    rewrite (decode_object_known "lpr" Lpr) by reflexivity.
    run_R. unfold py_le_int, format_d.
    replace (version <=? 2) with false by (symmetry; apply Z.leb_gt; exact Hv).
    reflexivity.
  - intros version position rest Hv.
    rewrite (decode_object_known "lpr" Lpr) by reflexivity.
    run_R. unfold py_le_int, format_d.
    replace (version <=? 2) with true by (symmetry; apply Z.leb_le; exact Hv).
    destruct rest; reflexivity.
  - intros version t position rest Hv Ht.
    rewrite (decode_object_known "lpr" Lpr) by reflexivity.
    run_R. unfold py_le_int, format_d.
    replace (version <=? 2) with true by (symmetry; apply Z.leb_le; exact Hv).
    rewrite time_unless_sentinel_int. unfold time_of_millis.
    replace (t =? -1) with false by (symmetry; apply Z.eqb_neq; exact Ht).
    destruct (float_of_int t); simpl; try reflexivity.
    destruct (clock _); simpl; try reflexivity.
  - intros version rest Hv Hlen.
    rewrite (decode_object_known "lpr" Lpr) by reflexivity.
    run_R. unfold py_le_int, format_d.
    replace (version <=? 2) with true by (symmetry; apply Z.leb_le; exact Hv).
    destruct rest as [|position [|time rest']]; try reflexivity.
    simpl in Hlen. lia.
Qed.

(** C7. The sentinel.  In [lpr] (with a version of at most 2), [fpr]
    and [updated_lpr] an integer time of -1 gives [None] and the library
    is not asked; any other integer never gives [None]: it gives the
    string the library makes of [time / 1000.0] where the library
    accepts the instant, and where the library refuses it, or the
    integer is too large for the division, the decode raises what they
    raise and produces no value.  An integer [timeZoneOffset] of -1
    gives [None], any other integer is kept as it is. *)
Theorem sentinel_minus_one_is_none :
  forall (self : KindleReaderDataStore) (position country device : value)
         (version time timezone : Z),
    let t := time_of_millis time in
    let tz := if timezone =? -1 then VNone else VInt timezone in
    (time = -1 -> t = Ok VNone) /\
    (time <> -1 ->
       t <> Ok VNone /\
       (forall f s,
          float_of_int time = Ok f ->
          clock (SFdiv prec64 emax64 f (float_of_Z 1000)) = inr s ->
          t = Ok (VStr s)) /\
       (forall f e,
          float_of_int time = Ok f ->
          clock (SFdiv prec64 emax64 f (float_of_Z 1000)) = inl e ->
          t = Raise e) /\
       (forall e, float_of_int time = Raise e -> t = Raise e)) /\
    (version <= 2 ->
     decode_object clock "lpr" [VInt version; position; VInt time] self =
       (bind_outcome t (fun t =>
          Ok (named "lpr" (VDict [(VStr "position", position); (VStr "time", t)]))),
        self)) /\
    (forall name, name = "fpr" \/ name = "updated_lpr" ->
     decode_object clock name [position; VInt time; VInt timezone; country; device] self =
       (bind_outcome t (fun t =>
          Ok (named name
                (VDict [(VStr "position", position); (VStr "time", t);
                        (VStr "timeZoneOffset", tz);
                        (VStr "country", country); (VStr "device", device)]))),
        self)).
Proof.
  intros self position country device version time timezone t tz.
  subst t tz. unfold time_of_millis.
  split; [|split; [|split]].
  - intros ->. reflexivity.
  - intros Hne.
    destruct (time =? -1) eqn:E; [apply Z.eqb_eq in E; contradiction|].
    split.
    + destruct (float_of_int time); simpl; try discriminate.
      destruct (clock _); simpl; discriminate.
    + split; [|split].
      * intros f x Hf Hx. rewrite Hf. unfold bind_outcome. rewrite Hx. reflexivity.
      * intros f x Hf Hx. rewrite Hf. unfold bind_outcome. rewrite Hx. reflexivity.
      * intros e He. rewrite He. reflexivity.
  - intros Hv.
    rewrite (decode_object_known "lpr" Lpr) by reflexivity.
    run_R. unfold py_le_int.
    replace (version <=? 2) with true by (symmetry; apply Z.leb_le; exact Hv).
    rewrite time_unless_sentinel_int. unfold time_of_millis.
    destruct (time =? -1); [reflexivity|].
    destruct (float_of_int time); simpl; try reflexivity.
    destruct (clock _); reflexivity.
  - intros name Hname.
    rewrite (decode_object_known name Fpr)
      by (destruct Hname as [-> | ->]; reflexivity).
    run_R.
    rewrite time_unless_sentinel_int. unfold time_of_millis.
    unfold unless_sentinel, py_eq_int, py_eq.
    destruct (time =? -1); [destruct (timezone =? -1); reflexivity|].
    destruct (float_of_int time); simpl; try reflexivity.
    destruct (clock _); simpl; try reflexivity.
    destruct (timezone =? -1); reflexivity.
Qed.

(** The names whose rule is one counted collection. *)
Definition counted_map_names : list string :=
  ["dict.prefs.v2"; "EndActions"; "ReaderMetrics"; "StartActions"; "Translator";
   "Wikipedia"; "annotation.cache.object"].

Definition counted_list_names : list string :=
  ["saved.avl.interval.tree"; "timer.average.calculator.outliers";
   "page.history.store"].

Lemma to_nat_nonpositive (z : Z) : z <= 0 -> Z.to_nat z = 0%nat.
Proof. lia. Qed.

Lemma counted_list_nonpositive (elt : R value) (c : Z) (rest : list value) :
  c <= 0 ->
  counted_list elt (VInt c :: rest) = (Ok (VList []), rest).
Proof.
  intros Hc. unfold counted_list, bind, pop0, lift, range, ret.
  rewrite to_nat_nonpositive by exact Hc. reflexivity.
Qed.

Ltac each_name H :=
  simpl in H;
  repeat (destruct H as [<- | H]; [|try contradiction]);
  try contradiction.

(** C10. A negative count is a count of zero.  A counted list given a
    negative count pops the count and nothing else and is empty, and it
    does not raise.  So the key/value maps and [annotation.cache.object]
    give the empty map, [saved.avl.interval.tree],
    [timer.average.calculator.outliers] and [page.history.store] the empty
    list, and children after the count are excess values; [apnx.key] and
    [timer.average.calculator] go on with their next fields as after a
    count of zero. *)
Theorem negative_count_is_zero :
  forall (self : KindleReaderDataStore) (c : Z),
    c < 0 ->
    (forall (elt : R value) (rest : list value),
       counted_list elt (VInt c :: rest) = (Ok (VList []), rest)) /\
    (forall name rest, In name counted_map_names ->
       decode_object clock name (VInt c :: rest) self
       = (finish name (VDict []) rest, self)) /\
    (forall name rest, In name counted_list_names ->
       decode_object clock name (VInt c :: rest) self
       = (finish name (VList []) rest, self)) /\
    (forall name rest,
       In name (counted_map_names ++ counted_list_names
                ++ ["timer.average.calculator"]) ->
       decode_object clock name (VInt c :: rest) self
       = decode_object clock name (VInt 0 :: rest) self) /\
    (forall asin cdeType sidecarAvailable rest,
       decode_object clock "apnx.key"
         (asin :: cdeType :: sidecarAvailable :: VInt c :: rest) self
       = decode_object clock "apnx.key"
           (asin :: cdeType :: sidecarAvailable :: VInt 0 :: rest) self) /\
    (forall asin cdeType sidecarAvailable first unknown1 unknown2 pageMap,
       decode_object clock "apnx.key"
         [asin; cdeType; sidecarAvailable; VInt c; first; unknown1; unknown2; pageMap]
         self
       = (Ok (named "apnx.key"
                (VDict [(VStr "asin", asin); (VStr "cdeType", cdeType);
                        (VStr "sidecarAvailable", sidecarAvailable);
                        (VStr "oPNToPosition", VList []);
                        (VStr "first", first); (VStr "unknown1", unknown1);
                        (VStr "unknown2", unknown2); (VStr "pageMap", pageMap)])),
          self)) /\
    (forall c2 c3 c4, c2 < 0 -> c3 < 0 -> c4 < 0 ->
       decode_object clock "timer.average.calculator"
         [VInt c; VInt c2; VInt c3; VInt c4] self
       = (Ok (named "timer.average.calculator"
                (VDict [(VStr "samples1", VList []); (VStr "samples2", VList []);
                        (VStr "normalDistributions", VList []);
                        (VStr "outliers", VList [])])),
          self)).
Proof.
  intros self c Hc.
  assert (Hnat : Z.to_nat c = 0%nat) by (apply to_nat_nonpositive; lia).
  assert (Hmap : forall name rest, In name counted_map_names ->
            decode_object clock name (VInt c :: rest) self
            = (finish name (VDict []) rest, self)).
  { intros name rest Hin. each_name Hin;
      (erewrite decode_object_known by reflexivity);
      run_R; unfold range; rewrite Hnat; reflexivity. }
  assert (Hlist : forall name rest, In name counted_list_names ->
            decode_object clock name (VInt c :: rest) self
            = (finish name (VList []) rest, self)).
  { intros name rest Hin. each_name Hin;
      (erewrite decode_object_known by reflexivity);
      run_R; unfold range; rewrite Hnat; reflexivity. }
  repeat split.
  - intros elt rest. apply counted_list_nonpositive. lia.
  - exact Hmap.
  - exact Hlist.
  - intros name rest Hin. apply in_app_or in Hin. destruct Hin as [Hin|Hin].
    + rewrite Hmap by exact Hin. each_name Hin;
        (erewrite decode_object_known by reflexivity); reflexivity.
    + apply in_app_or in Hin. destruct Hin as [Hin|Hin].
      * rewrite Hlist by exact Hin. each_name Hin;
          (erewrite decode_object_known by reflexivity); reflexivity.
      * each_name Hin.
        rewrite !(decode_object_known "timer.average.calculator"
                    TimerAverageCalculator) by reflexivity.
        run_R. unfold range. rewrite Hnat. reflexivity.
  - intros asin cdeType sidecarAvailable rest.
    rewrite !(decode_object_known "apnx.key" ApnxKey) by reflexivity.
    run_R. unfold range. rewrite Hnat. reflexivity.
  - intros. rewrite (decode_object_known "apnx.key" ApnxKey) by reflexivity.
    run_R. unfold range. rewrite Hnat. reflexivity.
  - intros c2 c3 c4 H2 H3 H4.
    rewrite (decode_object_known "timer.average.calculator"
               TimerAverageCalculator) by reflexivity.
    run_R. unfold range. rewrite Hnat.
    repeat (cbn [list_comp]; run_R; unfold range;
            rewrite to_nat_nonpositive by lia).
    reflexivity.
Qed.

(** The names of the key/value rule. *)
Definition key_value_names : list string :=
  ["dict.prefs.v2"; "EndActions"; "ReaderMetrics"; "StartActions"; "Translator";
   "Wikipedia"].

(** The children that encode the pairs: key, value, key, value, ... *)
Definition flatten (pairs : list (value * value)) : list value :=
  flat_map (fun kv => [fst kv; snd kv]) pairs.

Lemma key_value_pairs_run pairs : forall obj rest,
  (forall k v, In (k, v) pairs -> hashable k = true) ->
  key_value_pairs (List.length pairs) obj (flatten pairs ++ rest)
  = (Ok (set_all pairs obj), rest).
Proof.
  induction pairs as [|[k v] pairs IH]; intros obj rest Hh; simpl.
  - reflexivity.
  - unfold bind at 1. unfold pop0 at 1. unfold bind at 1. unfold pop0 at 1.
    unfold bind at 1. unfold lift at 1. unfold setitem.
    rewrite (Hh k v) by (left; reflexivity).
    apply IH. intros k' v' Hin. apply (Hh k' v'). right. exact Hin.
Qed.

Lemma last_value_app p q k :
  last_value (p ++ q) k
  = match last_value q k with Some v => Some v | None => last_value p k end.
Proof.
  unfold last_value at 1. rewrite fold_left_app. apply last_value_from.
Qed.

Lemma last_value_cons k1 v1 q k :
  last_value ((k1, v1) :: q) k
  = match last_value q k with
    | Some v => Some v
    | None => if py_eq k1 k then Some v1 else None
    end.
Proof. unfold last_value at 1. simpl. apply last_value_from. Qed.

(** C9. The key/value rule does not raise on a repeated key.  Given the
    count [N] and [N] pairs with hashable keys it returns the dictionary
    of the assignments [obj[k] = v] made in order, which has at most [N]
    entries.  For boolean, integer and string keys: a key maps to the
    value of the last pair with an equal key, and when two of the pairs
    have equal keys the dictionary has fewer than [N] entries. *)
Theorem repeated_key_overwrites :
  forall (self : KindleReaderDataStore) (name : string)
         (pairs : list (value * value)),
    In name key_value_names ->
    (forall k v, In (k, v) pairs -> hashable k = true) ->
    let obj := set_all pairs [] in
    decode_object clock name
      (VInt (Z.of_nat (List.length pairs)) :: flatten pairs) self
    = (Ok (named name (VDict obj)), self) /\
    (List.length obj <= List.length pairs)%nat /\
    (plain_keys pairs ->
       (forall k, plain_key k = true -> dict_get obj k = last_value pairs k) /\
       (forall p1 k1 v1 p2 k2 v2 p3,
          pairs = p1 ++ (k1, v1) :: p2 ++ (k2, v2) :: p3 ->
          py_eq k1 k2 = true ->
          (List.length obj < List.length pairs)%nat)).
Proof.
  intros self name pairs Hname Hh obj. subst obj. split; [|split].
  - assert (Hrun : key_value_pairs (List.length pairs) [] (flatten pairs)
                   = (Ok (set_all pairs []), [])).
    { rewrite <- (app_nil_r (flatten pairs)). apply key_value_pairs_run. exact Hh. }
    each_name Hname;
      (erewrite decode_object_known by reflexivity);
      run_R; unfold range; rewrite Nat2Z.id, Hrun; reflexivity.
  - apply (set_all_length_le pairs []).
  - intros Hp. split.
    + intros k Hk. rewrite dict_get_set_all; try assumption.
      * destruct (last_value pairs k); reflexivity.
      * intros ? ? [].
    + intros p1 k1 v1 p2 k2 v2 p3 -> Heq.
      assert (Hp12 : plain_keys (p1 ++ (k1, v1) :: p2)).
      { intros k v Hin. apply (Hp k v).
        apply in_app_or in Hin. apply in_or_app.
        destruct Hin as [Hin|[Hin|Hin]]; [left; exact Hin|right; left; exact Hin|].
        right. right. apply in_or_app. left. exact Hin. }
      assert (Hk2 : plain_key k2 = true).
      { apply (Hp k2 v2). apply in_or_app. right. right.
        apply in_or_app. right. left. reflexivity. }
      replace (p1 ++ (k1, v1) :: p2 ++ (k2, v2) :: p3)
        with ((p1 ++ (k1, v1) :: p2) ++ (k2, v2) :: p3)
        by (rewrite <- app_assoc; reflexivity).
      rewrite set_all_app. simpl.
      pose proof (set_all_length_le p3
                    (dict_set (set_all (p1 ++ (k1, v1) :: p2) []) k2 v2)) as Hle.
      rewrite dict_set_length in Hle.
      pose proof (set_all_length_le (p1 ++ (k1, v1) :: p2) []) as Hle'.
      assert (Hc : dict_contains (set_all (p1 ++ (k1, v1) :: p2) []) k2 = true).
      { unfold dict_contains.
        rewrite dict_get_set_all; try assumption; [|intros ? ? []].
        rewrite last_value_app, last_value_cons.
        destruct (last_value p2 k2); [reflexivity|].
        rewrite Heq. reflexivity. }
      rewrite Hc in Hle.
      rewrite length_app in Hle'. rewrite !length_app. simpl in *. lia.
Qed.

(** *** Rules that read [val] only by popping *)

(** When [c] returns it has popped a prefix [used] of [val]; it does the
    same on [used] followed by anything else, and on [used] cut short it
    raises the [IndexError] of a pop from the empty list. *)
Definition pops_only {A : Type} (c : R A) : Prop :=
  forall val a rest,
    c val = (Ok a, rest) ->
    exists used,
      val = used ++ rest /\
      (forall rest', c (used ++ rest') = (Ok a, rest')) /\
      (forall short more,
         used = short ++ more -> more <> [] -> fst (c short) = Raise IndexError).

Lemma pops_only_ret {A : Type} (a : A) : pops_only (ret a).
Proof.
  intros val a' rest H. inversion H; subst. exists []. repeat split.
  intros short more Hnil Hmore. symmetry in Hnil.
  apply app_eq_nil in Hnil. destruct Hnil; contradiction.
Qed.

Lemma pops_only_lift {A : Type} (o : outcome A) : pops_only (lift o).
Proof.
  intros val a rest H. unfold lift in H. inversion H; subst.
  exists []. repeat split.
  intros short more Hnil Hmore. symmetry in Hnil.
  apply app_eq_nil in Hnil. destruct Hnil; contradiction.
Qed.

Lemma pops_only_raise {A : Type} (e : exn) : pops_only (@raise _ A e).
Proof. intros val a rest H. discriminate. Qed.

Lemma pops_only_pop0 : pops_only pop0.
Proof.
  intros val a rest H. destruct val as [|x val]; simpl in H; [discriminate|].
  inversion H; subst. exists [a]. repeat split.
  intros short more Heq Hmore.
  destruct short as [|y short]; [reflexivity|].
  inversion Heq as [[Hy Hs]]. symmetry in Hs.
  apply app_eq_nil in Hs. destruct Hs; contradiction.
Qed.

Lemma pops_only_bind {A B : Type} (c : R A) (k : A -> R B) :
  pops_only c -> (forall a, pops_only (k a)) -> pops_only (x <- c ;; k x).
Proof.
  intros Hc Hk val b rest H. unfold bind in H.
  destruct (c val) as [[a| |] s1] eqn:Ec; try discriminate.
  destruct (Hc _ _ _ Ec) as (u1 & Hval & Hc1 & Hc2).
  destruct (Hk a _ _ _ H) as (u2 & Hs1 & Hk1 & Hk2).
  exists (u1 ++ u2). split; [|split].
  - rewrite <- app_assoc, <- Hs1. exact Hval.
  - intros rest'. unfold bind. rewrite <- app_assoc, Hc1. apply Hk1.
  - intros short more Heq Hmore. unfold bind.
    apply app_eq_app in Heq. destruct Heq as (l & [[H1 H2] | [H1 H2]]).
    + (* u1 = short ++ l *)
      destruct l as [|y l].
      * rewrite app_nil_r in H1. subst short. simpl in H2. subst more.
        rewrite <- (app_nil_r u1), Hc1. apply (Hk2 [] u2 eq_refl Hmore).
      * specialize (Hc2 short (y :: l) H1 ltac:(discriminate)).
        destruct (c short) as [[?| |] ?]; simpl in Hc2; try discriminate.
        inversion Hc2; subst. reflexivity.
    + (* short = u1 ++ l *)
      subst short. rewrite Hc1. apply (Hk2 l more H2 Hmore).
Qed.

Lemma pops_only_list_comp {A : Type} (elt : R A) (n : nat) :
  pops_only elt -> pops_only (list_comp n elt).
Proof.
  intros He. induction n as [|n IH]; simpl.
  - apply pops_only_ret.
  - apply pops_only_bind; [exact He|]. intros x.
    apply pops_only_bind; [exact IH|]. intros xs. apply pops_only_ret.
Qed.

Lemma pops_only_key_value_pairs (n : nat) : forall obj,
  pops_only (key_value_pairs n obj).
Proof.
  induction n as [|n IH]; intros obj; simpl.
  - apply pops_only_ret.
  - apply pops_only_bind; [apply pops_only_pop0|]. intros k.
    apply pops_only_bind; [apply pops_only_pop0|]. intros v.
    apply pops_only_bind; [apply pops_only_lift|]. intros obj'. apply IH.
Qed.

Lemma pops_only_pop0_item key : pops_only (pop0_item key).
Proof.
  apply pops_only_bind; [apply pops_only_pop0|]. intros v. apply pops_only_lift.
Qed.

Lemma pops_only_annotation_cache (n : nat) : forall obj,
  pops_only (annotation_cache n obj).
Proof.
  induction n as [|n IH]; intros obj; simpl.
  - apply pops_only_ret.
  - apply pops_only_bind; [apply pops_only_pop0|]. intros annotation_type.
    apply pops_only_bind; [apply pops_only_lift|]. intros [cls|].
    + apply pops_only_bind; [apply pops_only_pop0_item|]. intros tree.
      apply pops_only_bind; [apply pops_only_lift|]. intros elements.
      apply pops_only_bind; [apply pops_only_lift|]. intros annotations.
      apply IH.
    + apply pops_only_bind; [apply pops_only_lift|]. intros d.
      apply pops_only_raise.
Qed.

Lemma pops_only_counted_list elt : pops_only elt -> pops_only (counted_list elt).
Proof.
  intros He. apply pops_only_bind; [apply pops_only_pop0|]. intros count.
  apply pops_only_bind; [apply pops_only_lift|]. intros n.
  apply pops_only_bind; [apply pops_only_list_comp; exact He|]. intros l.
  apply pops_only_ret.
Qed.

Lemma pops_only_pop0_time : pops_only (pop0_time clock).
Proof.
  apply pops_only_bind; [apply pops_only_pop0|]. intros v. apply pops_only_lift.
Qed.

Lemma pops_only_field obj k c : pops_only c -> pops_only (field obj k c).
Proof.
  intros Hc. apply pops_only_bind; [exact Hc|]. intros v. apply pops_only_ret.
Qed.

Create HintDb pops.
#[local] Hint Resolve pops_only_ret pops_only_lift pops_only_raise pops_only_pop0
  pops_only_list_comp pops_only_key_value_pairs pops_only_pop0_item
  pops_only_annotation_cache pops_only_counted_list pops_only_pop0_time
  pops_only_field : pops.

Ltac pops :=
  repeat first
    [ progress auto with pops
    | apply pops_only_bind; [|intros ?]
    | match goal with
      | |- pops_only (if ?b then _ else _) => destruct b
      | |- pops_only (match ?v with _ => _ end) => destruct v
      end ].

Lemma pops_only_run_rule r name :
  r <> FontPrefs -> pops_only (run_rule clock r name).
Proof.
  intros Hr. destruct r; try contradiction; unfold run_rule; pops.
Qed.

(** [font.prefs]: nine fields, then up to seven more while children
    remain. *)
Lemma font_prefs_short name val :
  (List.length val < 9)%nat ->
  fst (run_rule clock FontPrefs name val) = Raise IndexError.
Proof.
  intros H.
  do 9 (destruct val as [|? val]; [reflexivity|]).
  simpl in H. lia.
Qed.

Lemma font_prefs_long name val :
  (9 <= List.length val)%nat ->
  exists obj, run_rule clock FontPrefs name val = (Ok obj, skipn 16 val).
Proof.
  intros H.
  do 9 (destruct val as [|? val]; [simpl in H; lia|]).
  do 7 (destruct val as [|? val]; [eexists; reflexivity|]).
  eexists; reflexivity.
Qed.

Lemma decode_object_ok name r val self v self' :
  select_rule name = Some r ->
  decode_object clock name val self = (Ok v, self') ->
  exists obj,
    run_rule clock r name val = (Ok obj, []) /\ v = named name obj /\ self' = self.
Proof.
  intros Hr H. rewrite (decode_object_known name r) in H by exact Hr.
  destruct (run_rule clock r name val) as [[obj| |] rest]; try discriminate.
  destruct rest; simpl in H; [|discriminate].
  inversion H; subst. exists obj. repeat split.
Qed.

(** C1. For a name with a rule.  Children the rule leaves unpopped make
    the decode raise the exception about excess values, with the name and
    the children left; a pop the rule makes on the emptied list makes the
    decode raise that [IndexError]; the decode returns only when the rule
    returns with nothing left, and then it returns [{name: obj}].  When
    the decode of [val] returns: for every rule but that of [font.prefs],
    [val] followed by more children raises the excess values exception
    with exactly these, and [val] cut short raises the [IndexError];
    [font.prefs] has between 9 and 16 children, fewer than 9 raise the
    [IndexError] and the children after the sixteenth are excess. *)
Theorem children_consumed_exactly :
  forall (self : KindleReaderDataStore) (name : string) (r : rule)
         (val : list value),
    select_rule name = Some r ->
    (forall obj x rest,
       run_rule clock r name val = (Ok obj, x :: rest) ->
       decode_object clock name val self
       = (Raise (Exception (ExcessValues name (x :: rest))), self)) /\
    (forall rest,
       run_rule clock r name val = (Raise IndexError, rest) ->
       decode_object clock name val self = (Raise IndexError, self)) /\
    (forall v self',
       decode_object clock name val self = (Ok v, self') ->
       exists obj,
         run_rule clock r name val = (Ok obj, []) /\
         v = named name obj /\ self' = self) /\
    (forall v self',
       decode_object clock name val self = (Ok v, self') ->
       r <> FontPrefs ->
       (forall x extra,
          decode_object clock name (val ++ x :: extra) self
          = (Raise (Exception (ExcessValues name (x :: extra))), self)) /\
       (forall short x more,
          val = short ++ x :: more ->
          decode_object clock name short self = (Raise IndexError, self))) /\
    (r = FontPrefs ->
       ((List.length val < 9)%nat ->
          decode_object clock name val self = (Raise IndexError, self)) /\
       ((9 <= List.length val <= 16)%nat ->
          exists obj, decode_object clock name val self = (Ok (named name obj), self)) /\
       ((16 < List.length val)%nat ->
          decode_object clock name val self
          = (Raise (Exception (ExcessValues name (skipn 16 val))), self))).
Proof.
  intros self name r val Hr. split; [|split; [|split; [|split]]].
  - intros obj x rest H.
    rewrite (decode_object_known name r) by exact Hr. rewrite H. reflexivity.
  - intros rest H.
    rewrite (decode_object_known name r) by exact Hr. rewrite H. reflexivity.
  - intros v self' H. apply (decode_object_ok name r val self v self' Hr H).
  - intros v self' H Hfont.
    destruct (decode_object_ok name r val self v self' Hr H) as (obj & Hrun & _ & _).
    destruct (pops_only_run_rule r name Hfont _ _ _ Hrun) as (used & Hval & Hmore & Hshort).
    rewrite app_nil_r in Hval. subst used. split.
    + intros x extra. rewrite (decode_object_known name r) by exact Hr.
      rewrite Hmore. reflexivity.
    + intros short x more Hsplit.
      rewrite (decode_object_known name r) by exact Hr.
      specialize (Hshort short (x :: more) Hsplit ltac:(discriminate)).
      destruct (run_rule clock r name short) as [[?| |] ?]; simpl in Hshort;
        try discriminate.
      inversion Hshort; subst. reflexivity.
  - intros ->. split; [|split].
    + intros Hlen. rewrite (decode_object_known name FontPrefs) by exact Hr.
      pose proof (font_prefs_short name val Hlen) as Hs.
      destruct (run_rule clock FontPrefs name val) as [[?| |] ?]; simpl in Hs;
        try discriminate.
      inversion Hs; subst. reflexivity.
    + intros [Hlo Hhi]. rewrite (decode_object_known name FontPrefs) by exact Hr.
      destruct (font_prefs_long name val Hlo) as (obj & Hrun). rewrite Hrun.
      rewrite skipn_all2 by exact Hhi. exists obj. reflexivity.
    + intros Hlen. rewrite (decode_object_known name FontPrefs) by exact Hr.
      destruct (font_prefs_long name val) as (obj & Hrun); [lia|]. rewrite Hrun.
      destruct (skipn 16 val) as [|y l] eqn:Hskip; [|reflexivity].
      apply (f_equal (@List.length value)) in Hskip.
      rewrite length_skipn in Hskip. simpl in Hskip. lia.
Qed.

End DecodeObjectFacts.

(** ** Code that needs no depth *)

(** [c] never runs out of the depth bound of the model. *)
Definition total {S A : Type} (c : SE S A) : Prop :=
  forall s, fst (c s) <> OutOfFuel.

Definition returns_or_raises {A : Type} (o : outcome A) : Prop := o <> OutOfFuel.

Lemma total_ret {S A : Type} (a : A) : total (@ret S A a).
Proof. intros s. discriminate. Qed.

Lemma total_raise {S A : Type} (e : exn) : total (@raise S A e).
Proof. intros s. discriminate. Qed.

Lemma total_lift {S A : Type} (o : outcome A) :
  returns_or_raises o -> total (@lift S A o).
Proof. intros H s. exact H. Qed.

Lemma total_bind {S A B : Type} (c : SE S A) (k : A -> SE S B) :
  total c -> (forall a, total (k a)) -> total (x <- c ;; k x).
Proof.
  intros Hc Hk s. unfold bind. specialize (Hc s).
  destruct (c s) as [[a|e|] s1]; simpl in *.
  - apply Hk.
  - discriminate.
  - contradiction.
Qed.

Lemma bind_outcome_returns {A B : Type} (o : outcome A) (k : A -> outcome B) :
  returns_or_raises o -> (forall a, returns_or_raises (k a)) ->
  returns_or_raises (bind_outcome o k).
Proof. intros Ho Hk. destruct o; simpl; [apply Hk|discriminate|contradiction]. Qed.

Lemma range_returns v : returns_or_raises (range v).
Proof. destruct v; discriminate. Qed.

Lemma setitem_returns d k v : returns_or_raises (setitem d k v).
Proof. unfold setitem. destruct (hashable k); discriminate. Qed.

Lemma format_d_returns v : returns_or_raises (format_d v).
Proof. destruct v; try discriminate. destruct f; discriminate. Qed.

Lemma py_le_int_returns v i : returns_or_raises (py_le_int v i).
Proof. destruct v; discriminate. Qed.

Lemma getitem_str_returns v key : returns_or_raises (getitem_str v key).
Proof. destruct v; try discriminate. simpl. destruct (dict_get _ _); discriminate. Qed.

Lemma py_iter_returns v : returns_or_raises (py_iter v).
Proof. destruct v; discriminate. Qed.

Lemma ANNOT_CLASS_NAMES_get_returns v : returns_or_raises (ANNOT_CLASS_NAMES_get v).
Proof. unfold ANNOT_CLASS_NAMES_get. destruct (hashable v); discriminate. Qed.

Lemma unwrap_annotation_returns cls a : returns_or_raises (unwrap_annotation cls a).
Proof.
  unfold unwrap_annotation. apply bind_outcome_returns.
  - destruct a; discriminate.
  - intros n. destruct (negb _); [discriminate|].
    apply bind_outcome_returns.
    + destruct a; discriminate.
    + intros c. destruct (negb c); [discriminate|apply getitem_str_returns].
Qed.

Lemma unwrap_annotations_returns cls tree :
  returns_or_raises (unwrap_annotations cls tree).
Proof.
  induction tree as [|a tree IH]; simpl; [discriminate|].
  apply bind_outcome_returns; [apply unwrap_annotation_returns|]. intros x.
  apply bind_outcome_returns; [exact IH|]. intros xs. discriminate.
Qed.

Lemma truediv_1000_returns v : returns_or_raises (truediv_1000 v).
Proof.
  destruct v; try discriminate. simpl. unfold float_of_int.
  destruct (float_of_Z z); discriminate.
Qed.

Section RulesTotal.

Variable clock : spec_float -> exn + string.

Lemma isoformat_of_millis_returns v : returns_or_raises (isoformat_of_millis clock v).
Proof.
  unfold isoformat_of_millis. apply bind_outcome_returns;
    [apply truediv_1000_returns|].
  intros f. destruct (clock f); discriminate.
Qed.

Lemma time_unless_sentinel_returns v :
  returns_or_raises (time_unless_sentinel clock v).
Proof.
  unfold time_unless_sentinel. destruct (negb _);
    [apply isoformat_of_millis_returns|discriminate].
Qed.

Lemma total_pop0 : total pop0.
Proof. intros [|x val]; discriminate. Qed.

Lemma total_remaining : total remaining.
Proof. intros val. discriminate. Qed.

Lemma total_list_comp {A : Type} (elt : R A) n : total elt -> total (list_comp n elt).
Proof.
  intros He. induction n as [|n IH]; simpl; [apply total_ret|].
  apply total_bind; [exact He|]. intros x.
  apply total_bind; [exact IH|]. intros xs. apply total_ret.
Qed.

Create HintDb total.
#[local] Hint Resolve total_ret total_raise total_pop0 total_remaining
  range_returns setitem_returns format_d_returns py_le_int_returns
  getitem_str_returns py_iter_returns ANNOT_CLASS_NAMES_get_returns
  unwrap_annotations_returns isoformat_of_millis_returns
  time_unless_sentinel_returns : total.

Ltac total :=
  repeat first
    [ progress auto with total
    | match goal with
      | |- returns_or_raises _ => unfold returns_or_raises; discriminate
      end
    | apply total_lift
    | apply total_list_comp
    | apply total_bind; [|intros ?]
    | match goal with
      | |- total (if ?b then _ else _) => destruct b
      | |- total (match ?v with _ => _ end) => destruct v
      end ].

Lemma total_key_value_pairs n : forall obj, total (key_value_pairs n obj).
Proof. induction n as [|n IH]; intros obj; simpl; total. Qed.

Lemma total_annotation_cache n : forall obj, total (annotation_cache n obj).
Proof.
  induction n as [|n IH]; intros obj; simpl; [total|].
  unfold pop0_item. total.
Qed.

Lemma total_run_rule r name : total (run_rule clock r name).
Proof.
  pose proof total_key_value_pairs. pose proof total_annotation_cache.
  destruct r; unfold run_rule, field, optional_field, counted_list, pop0_item,
    pop0_time; total.
Qed.

End RulesTotal.

(** ** decode_next and deserialize *)

Section DeserializeFacts.

Variable clock : spec_float -> exn + string.

Definition wf_store (self : KindleReaderDataStore) : Prop :=
  DeserializerFacts.wf (krds self).

(** The store over the same bytes followed by [extra]. *)
Definition extend (extra : list byte) (self : KindleReaderDataStore)
  : KindleReaderDataStore :=
  mkStore
    (Deserializer.mk (Deserializer.buffer (krds self) ++ extra)
                     (Deserializer.offset (krds self)))
    (log self)
    (data self ++ extra).

(** [c] keeps the offset within the buffer and never moves it back, it
    leaves the buffer and [data] alone, and when it returns it does the
    same with more bytes after the buffer. *)
Definition good {A : Type} (c : M A) : Prop :=
  forall self r self',
    wf_store self ->
    c self = (r, self') ->
    wf_store self' /\
    Deserializer.buffer (krds self') = Deserializer.buffer (krds self) /\
    data self' = data self /\
    Deserializer.offset (krds self) <= Deserializer.offset (krds self') /\
    (forall a, r = Ok a ->
       forall extra, c (extend extra self) = (Ok a, extend extra self')).

Lemma wf_extend extra self : wf_store self -> wf_store (extend extra self).
Proof.
  unfold wf_store, DeserializerFacts.wf, extend. simpl.
  rewrite length_app. lia.
Qed.

Ltac unchanged Hwf :=
  repeat split; try exact Hwf; try apply Hwf; try lia; try discriminate;
  try (let Ha := fresh in intros ? Ha ?; inversion Ha; subst; reflexivity).

Lemma good_ret {A : Type} (a : A) : good (ret a).
Proof. intros self r self' Hwf H. inversion H; subst. unchanged Hwf. Qed.

Lemma good_raise {A : Type} (e : exn) : good (@raise _ A e).
Proof. intros self r self' Hwf H. inversion H; subst. unchanged Hwf. Qed.

Lemma good_lift {A : Type} (o : outcome A) : good (lift o).
Proof.
  intros self r self' Hwf H. unfold lift in H. inversion H; subst. unchanged Hwf.
Qed.

Lemma good_bind {A B : Type} (c : M A) (k : A -> M B) :
  good c -> (forall a, good (k a)) -> good (x <- c ;; k x).
Proof.
  intros Hc Hk self r self' Hwf H. unfold bind in H.
  destruct (c self) as [[a|e|] s1] eqn:Ec.
  - destruct (Hc _ _ _ Hwf Ec) as (Hwf1 & Hb1 & Hd1 & Ho1 & Hl1).
    destruct (Hk a _ _ _ Hwf1 H) as (Hwf2 & Hb2 & Hd2 & Ho2 & Hl2).
    repeat split; try apply Hwf2; try congruence; try lia.
    intros b -> extra. unfold bind.
    rewrite (Hl1 a eq_refl extra). apply (Hl2 b eq_refl extra).
  - inversion H; subst.
    destruct (Hc _ _ _ Hwf Ec) as (Hwf1 & Hb1 & Hd1 & Ho1 & Hl1).
    repeat split; try apply Hwf1; try congruence; try lia.
  - inversion H; subst.
    destruct (Hc _ _ _ Hwf Ec) as (Hwf1 & Hb1 & Hd1 & Ho1 & Hl1).
    repeat split; try apply Hwf1; try congruence; try lia.
Qed.

Lemma bytes_at_extend d extra n :
  DeserializerFacts.wf d -> 0 <= n -> n <= Deserializer.len d ->
  DeserializerFacts.bytes_at
    (Deserializer.mk (Deserializer.buffer d ++ extra) (Deserializer.offset d)) n
  = DeserializerFacts.bytes_at d n.
Proof.
  intros [H0 H1] Hn Hlen. unfold DeserializerFacts.bytes_at, Deserializer.len in *.
  simpl. rewrite skipn_app, firstn_app.
  replace (Z.to_nat (Deserializer.offset d) - List.length (Deserializer.buffer d))%nat
    with 0%nat by lia.
  rewrite length_skipn.
  replace (Z.to_nat n
           - (List.length (Deserializer.buffer d) - Z.to_nat (Deserializer.offset d)))%nat
    with 0%nat by lia.
  simpl. apply app_nil_r.
Qed.

Lemma len_extend d extra :
  Deserializer.len
    (Deserializer.mk (Deserializer.buffer d ++ extra) (Deserializer.offset d))
  = Deserializer.len d + Z.of_nat (List.length extra).
Proof. unfold Deserializer.len. simpl. rewrite length_app. lia. Qed.

Lemma good_unpack f advance : good (unpack f advance).
Proof.
  intros [d l dt] r self' Hwf H. unfold wf_store in *.
  unfold unpack in H. cbn [krds log data] in *.
  pose proof Hwf as [H0 H1]. pose proof (DeserializerFacts.calcsize_pos f) as Hsz.
  rewrite DeserializerFacts.unpack_spec in H by exact Hwf.
  destruct (Deserializer.calcsize f <=? Deserializer.len d) eqn:E.
  - apply Z.leb_le in E. inversion H; subst; clear H.
    assert (Hext : forall extra,
      unpack f advance (extend extra (mkStore d l dt))
      = (Ok (Deserializer.interpret f
               (DeserializerFacts.bytes_at d (Deserializer.calcsize f))),
         extend extra
           (mkStore (DeserializerFacts.advanced advance d (Deserializer.calcsize f))
                    l dt))).
    { intros extra. unfold unpack, extend. cbn [krds log data].
      rewrite DeserializerFacts.unpack_spec
        by (unfold DeserializerFacts.wf; simpl; rewrite length_app; lia).
      rewrite len_extend.
      replace (Deserializer.calcsize f <=? _) with true by (symmetry; apply Z.leb_le; lia).
      rewrite bytes_at_extend by (try exact Hwf; lia).
      destruct advance; reflexivity. }
    unfold Deserializer.len in E. cbn [krds log data].
    unfold DeserializerFacts.wf, DeserializerFacts.advanced.
    destruct advance; cbn [Deserializer.buffer Deserializer.offset];
      (split; [lia|split; [reflexivity|split; [reflexivity|split; [lia|]]]]);
      intros a Ha extra; inversion Ha; subst; apply Hext.
  - inversion H; subst. cbn [krds log data]. unchanged Hwf.
Qed.

Lemma good_extract size : good (extract size).
Proof.
  intros [d l dt] r self' Hwf H. unfold wf_store in *.
  unfold extract in H. cbn [krds log data] in *.
  pose proof Hwf as [H0 H1].
  rewrite DeserializerFacts.extract_spec in H by exact Hwf.
  destruct ((0 <=? size) && (size <=? Deserializer.len d)) eqn:E.
  - apply andb_true_iff in E. destruct E as [E1 E2].
    apply Z.leb_le in E1, E2. inversion H; subst; clear H.
    assert (Hext : forall extra,
      extract size (extend extra (mkStore d l dt))
      = (Ok (DeserializerFacts.bytes_at d size),
         extend extra (mkStore (DeserializerFacts.advanced true d size) l dt))).
    { intros extra. unfold extract, extend. cbn [krds log data].
      rewrite DeserializerFacts.extract_spec
        by (unfold DeserializerFacts.wf; simpl; rewrite length_app; lia).
      rewrite len_extend.
      replace ((0 <=? size) && _) with true
        by (symmetry; apply andb_true_iff; split; apply Z.leb_le; lia).
      rewrite bytes_at_extend by (try exact Hwf; lia).
      reflexivity. }
    unfold Deserializer.len in E2. cbn [krds log data].
    unfold DeserializerFacts.wf, DeserializerFacts.advanced.
    cbn [Deserializer.buffer Deserializer.offset].
    (split; [lia|split; [reflexivity|split; [reflexivity|split; [lia|]]]]).
    intros a Ha extra; inversion Ha; subst; apply Hext.
  - inversion H; subst. cbn [krds log data]. unchanged Hwf.
Qed.

Lemma good_log_record r : good (log_record_ r).
Proof.
  intros self r' self' Hwf H. unfold log_record_ in H. inversion H; subst.
  simpl. unchanged Hwf.
Qed.

Lemma good_decode_object name val : good (decode_object clock name val).
Proof.
  intros self r self' Hwf H. unfold decode_object in *.
  destruct (select_rule name) as [rl|].
  - destruct (run_rule clock rl name val) as [[obj|e|] rest].
    + destruct (negb _); inversion H; subst; unchanged Hwf.
    + inversion H; subst; unchanged Hwf.
    + inversion H; subst; unchanged Hwf.
  - simpl in H. inversion H; subst. simpl. unchanged Hwf.
Qed.

Ltac good :=
  repeat first
    [ apply good_ret | apply good_raise | apply good_lift
    | match goal with |- good (unpack ?f ?a) => exact (good_unpack f a) end
    | apply good_extract | apply good_log_record | apply good_decode_object
    | assumption
    | match goal with H : forall _, good _ |- _ => apply H end
    | apply good_bind; [|intros ?]
    | match goal with
      | |- good (if ?b then _ else _) => destruct b
      | |- good (match ?v with _ => _ end) => destruct v
      end ].

Lemma good_decode_boolean : good decode_boolean.
Proof. unfold decode_boolean. good. Qed.

Lemma good_decode_utf : good decode_utf.
Proof. unfold decode_utf. pose proof good_decode_boolean. good. Qed.

Lemma good_decode_next_fuel fuel :
  (forall datatype, good (decode_next_fuel clock fuel datatype)) /\
  (forall val, good (decode_children clock fuel val)).
Proof.
  pose proof good_decode_boolean as Hb. pose proof good_decode_utf as Hu.
  induction fuel as [|fuel [IHn IHc]].
  - split; intros; simpl; intros self r self' Hwf H; inversion H; subst;
      unchanged Hwf.
  - split.
    + intros datatype. simpl. good.
    + intros val. simpl. good.
Qed.

(** The calls of [decode_next] with a datatype of its own,
    [decode_next(DATATYPE_BOOLEAN)] and [decode_next(DATATYPE_UTF)], are
    [decode_boolean] and [decode_utf]. *)
Lemma decode_next_boolean fuel :
  decode_next_fuel clock (S fuel) (Some DATATYPE_BOOLEAN)
  = (datatype <- ret DATATYPE_BOOLEAN ;; b <- decode_boolean ;; ret (VBool b)).
Proof. reflexivity. Qed.

Lemma decode_next_utf fuel :
  decode_next_fuel clock (S fuel) (Some DATATYPE_UTF)
  = (datatype <- ret DATATYPE_UTF ;; s <- decode_utf ;; ret (VStr s)).
Proof. reflexivity. Qed.

(** *** The depth bound *)

(** [c'] does what [c] does whenever [c] has depth enough. *)
Definition refines {A : Type} (c c' : M A) : Prop :=
  forall self r self',
    c self = (r, self') -> r <> OutOfFuel -> c' self = (r, self').

Lemma refines_refl {A : Type} (c : M A) : refines c c.
Proof. intros self r self' H _. exact H. Qed.

Lemma refines_trans {A : Type} (c1 c2 c3 : M A) :
  refines c1 c2 -> refines c2 c3 -> refines c1 c3.
Proof. intros H12 H23 self r self' H Hr. apply H23; [apply H12|]; assumption. Qed.

Lemma refines_bind {A B : Type} (c c' : M A) (k k' : A -> M B) :
  refines c c' -> (forall a, refines (k a) (k' a)) ->
  refines (x <- c ;; k x) (x <- c' ;; k' x).
Proof.
  intros Hc Hk self r self' H Hr. unfold bind in *.
  destruct (c self) as [[a|e|] s1] eqn:Ec.
  - rewrite (Hc _ _ _ Ec) by discriminate. apply Hk; assumption.
  - rewrite (Hc _ _ _ Ec) by discriminate. exact H.
  - inversion H; subst. contradiction.
Qed.

Ltac refines :=
  repeat first
    [ apply refines_refl
    | match goal with H : forall _, refines _ _ |- _ => apply H end
    | apply refines_bind; [|intros ?]
    | match goal with
      | |- refines (if ?b then _ else _) _ => destruct b
      | |- refines (match ?v with _ => _ end) _ => destruct v
      end ].

Lemma fuel_step f f' :
  (forall datatype,
     refines (decode_next_fuel clock f datatype) (decode_next_fuel clock f' datatype)) ->
  (forall val,
     refines (decode_children clock f val) (decode_children clock f' val)) ->
  (forall datatype,
     refines (decode_next_fuel clock (S f) datatype)
             (decode_next_fuel clock (S f') datatype)) /\
  (forall val,
     refines (decode_children clock (S f) val) (decode_children clock (S f') val)).
Proof.
  intros Hn Hc. split.
  - intros datatype. simpl. refines.
  - intros val. simpl. refines.
Qed.

Lemma fuel_succ f :
  (forall datatype,
     refines (decode_next_fuel clock f datatype)
             (decode_next_fuel clock (S f) datatype)) /\
  (forall val,
     refines (decode_children clock f val) (decode_children clock (S f) val)).
Proof.
  induction f as [|f [IHn IHc]].
  - split; intros; intros self r self' H Hr; simpl in H; inversion H; subst;
      contradiction.
  - apply fuel_step; assumption.
Qed.

(** More depth does not change what [decode_next] does. *)
Lemma fuel_monotone f f' datatype :
  (f <= f')%nat ->
  refines (decode_next_fuel clock f datatype) (decode_next_fuel clock f' datatype).
Proof.
  induction 1 as [|f' Hle IH].
  - apply refines_refl.
  - eapply refines_trans; [exact IH|]. apply fuel_succ.
Qed.

Lemma enough_fuel_extend extra self :
  wf_store self -> (enough_fuel self <= enough_fuel (extend extra self))%nat.
Proof.
  intros [H0 H1]. unfold enough_fuel, extend. cbn [krds].
  rewrite len_extend. unfold Deserializer.len. lia.
Qed.

Lemma good_decode_next datatype : good (decode_next clock datatype).
Proof.
  intros self r self' Hwf H. unfold decode_next in *.
  destruct (proj1 (good_decode_next_fuel (enough_fuel self)) datatype
              self r self' Hwf H) as (Hwf' & Hb & Hd & Ho & Hl).
  repeat split; try apply Hwf'; try assumption.
  intros a -> extra.
  apply (fuel_monotone _ _ datatype (enough_fuel_extend extra self Hwf));
    [|discriminate].
  apply (Hl a eq_refl).
Qed.

(** A handler that writes to the log and does nothing else. *)
Definition only_logs (h : M unit) : Prop :=
  forall self, exists l,
    h self = (Ok tt, mkStore (krds self) (log self ++ l) (data self)).

Lemma good_try_except_reraise {A : Type} (c : M A) (h : M unit) :
  good c -> only_logs h -> good (try_except_reraise c h).
Proof.
  intros Hc Hh self r self' Hwf H. unfold try_except_reraise in *.
  destruct (c self) as [[a|e|] s1] eqn:Ec.
  - inversion H; subst.
    destruct (Hc _ _ _ Hwf Ec) as (Hwf1 & Hb1 & Hd1 & Ho1 & Hl1).
    repeat split; try apply Hwf1; try assumption.
    intros a' Ha extra. inversion Ha; subst.
    rewrite (Hl1 a' eq_refl extra). reflexivity.
  - destruct (Hc _ _ _ Hwf Ec) as (Hwf1 & Hb1 & Hd1 & Ho1 & Hl1).
    destruct (Hh s1) as (l & Hl). rewrite Hl in H. inversion H; subst.
    cbn [krds log data]. repeat split; try apply Hwf1; try assumption.
    discriminate.
  - inversion H; subst.
    destruct (Hc _ _ _ Hwf Ec) as (Hwf1 & Hb1 & Hd1 & Ho1 & Hl1).
    repeat split; try apply Hwf1; try assumption. discriminate.
Qed.

Lemma good_decode_entries n : forall value, good (decode_entries clock n value).
Proof.
  induction n as [|n IH]; intros value; simpl.
  - apply good_ret.
  - apply good_bind.
    + apply good_try_except_reraise; [apply good_decode_next|].
      intros self. eexists [_; _]. unfold bind, log_record_. cbn [krds log data].
      rewrite <- app_assoc. reflexivity.
    + intros val. apply good_bind; [apply good_lift|]. intros kvs.
      apply good_bind; [apply good_lift|]. intros value'. apply IH.
Qed.

(** [deserialize] up to the end of its loop. *)
Definition decode_all : M dict :=
  signature <- extract (Z.of_nat (List.length SIGNATURE)) ;;
  if negb (list_byte_eqb signature SIGNATURE)
  then raise (Exception SignatureIncorrect)
  else
    first_value <- decode_next clock None ;;
    if negb (py_eq_int first_value 1)
    then raise (Exception (FirstValue first_value))
    else
      value_cnt <- decode_next clock None ;;
      n <- lift (range value_cnt) ;;
      decode_entries clock n [].

Definition fresh (self : KindleReaderDataStore) : KindleReaderDataStore :=
  mkStore (Deserializer.init (data self)) (log self) (data self).

Lemma deserialize_decode_all self :
  deserialize clock self
  = (value <- decode_all ;; warn_extra_data ;; ret value) (fresh self).
Proof.
  unfold deserialize, decode_all, deserialize_entries, fresh, bind.
  destruct (extract _ _) as [[sig| |] s1]; try reflexivity.
  destruct (negb _); try reflexivity.
  destruct (decode_next clock None s1) as [[first| |] s2]; try reflexivity.
  destruct (negb _); try reflexivity.
  destruct (decode_next clock None s2) as [[cnt| |] s3]; try reflexivity.
  destruct (lift (range cnt) s3) as [[n| |] s4]; try reflexivity.
Qed.

Lemma good_decode_all : good decode_all.
Proof.
  unfold decode_all.
  pose proof good_decode_next as Hn. pose proof good_decode_entries as He.
  repeat first
    [ apply good_ret | apply good_raise | apply good_lift | apply good_extract
    | apply Hn | apply He
    | apply good_bind; [|intros ?]
    | match goal with |- good (if ?b then _ else _) => destruct b end ].
Qed.

(** The record [warn_extra_data] writes when [n] bytes are left. *)
Definition extra_data_record (n : Z) : list log_record :=
  if n =? 0 then [] else [Error_bytes_of_extra_data n].

(** C5. When [deserialize] returns a mapping, the bytes left after the
    last entry were not a failure: their count is the last record of the
    log when it is not zero.  And the same input followed by any more
    bytes decodes to the same mapping, stops at the same offset and logs
    the same records, the last one carrying the new count of the bytes
    left. *)
Theorem trailing_bytes_tolerated :
  forall (self : KindleReaderDataStore) (value : dict)
         (self' : KindleReaderDataStore),
    deserialize clock self = (Ok value, self') ->
    let trailing := Deserializer.len (krds self') in
    exists l,
      0 <= trailing /\
      log self' = l ++ extra_data_record trailing /\
      forall extra,
        deserialize clock (mkStore (krds self) (log self) (data self ++ extra))
        = (Ok value,
           mkStore
             (Deserializer.mk (data self ++ extra) (Deserializer.offset (krds self')))
             (l ++ extra_data_record (trailing + Z.of_nat (List.length extra)))
             (data self ++ extra)).
Proof.
  intros self value self' H trailing. subst trailing.
  rewrite deserialize_decode_all in H. unfold bind in H.
  destruct (decode_all (fresh self)) as [[v| |] s1] eqn:E; try discriminate.
  assert (Hwf0 : wf_store (fresh self)) by apply DeserializerFacts.wf_init.
  destruct (good_decode_all _ _ _ Hwf0 E) as (Hwf1 & Hb1 & Hd1 & Ho1 & Hl1).
  cbn [fresh krds data Deserializer.init Deserializer.buffer] in Hb1, Hd1.
  assert (Hwarn : forall s,
            warn_extra_data s
            = (Ok tt, mkStore (krds s)
                        (log s ++ extra_data_record (Deserializer.len (krds s)))
                        (data s))).
  { intros [d l dt]. unfold warn_extra_data, extra_data_record, log_record_, ret.
    cbn [krds log data].
    destruct (Deserializer.len d =? 0); simpl; [rewrite app_nil_r|]; reflexivity. }
  rewrite Hwarn in H. unfold ret in H. inversion H; subst; clear H.
  cbn [krds log data].
  exists (log s1). split; [|split].
  - destruct Hwf1 as [_ H1]. unfold Deserializer.len. lia.
  - reflexivity.
  - intros extra. rewrite deserialize_decode_all. unfold bind.
    change (fresh (mkStore (krds self) (log self) (data self ++ extra)))
      with (extend extra (fresh self)).
    rewrite (Hl1 value eq_refl extra). rewrite Hwarn. unfold ret, extend.
    cbn [krds log data]. rewrite len_extend, Hb1, Hd1. reflexivity.
Qed.

(** *** The depth [decode_next] gives itself is enough *)

Lemma total_unpack f advance : total (unpack f advance).
Proof.
  intros self. unfold unpack, Deserializer.unpack, Deserializer.unpack_from.
  destruct (_ && _); [discriminate|]. destruct (_ <? _); discriminate.
Qed.

Lemma total_extract size : total (extract size).
Proof.
  intros self. unfold extract, Deserializer.extract.
  destruct (_ || _); discriminate.
Qed.

Lemma total_decode_object name val : total (decode_object clock name val).
Proof.
  intros self. unfold decode_object.
  destruct (select_rule name) as [r|].
  - pose proof (total_run_rule clock r name val) as Hr.
    destruct (run_rule clock r name val) as [[obj|e|] rest]; simpl in *;
      [destruct (negb _); discriminate|discriminate|contradiction].
  - discriminate.
Qed.

Lemma total_decode_boolean : total decode_boolean.
Proof.
  unfold decode_boolean. apply total_bind; [apply total_unpack|]. intros b.
  destruct (b =? 0); [apply total_ret|].
  destruct (b =? 1); [apply total_ret|apply total_raise].
Qed.

Lemma total_decode_utf : total decode_utf.
Proof.
  unfold decode_utf. apply total_bind; [apply total_decode_boolean|]. intros e.
  destruct e; [apply total_ret|].
  apply total_bind; [apply total_unpack|]. intros n.
  apply total_bind; [apply total_extract|]. intros bs.
  destruct (utf8_valid bs); [apply total_ret|apply total_raise].
Qed.

Definition bytes_left (self : KindleReaderDataStore) : Z :=
  Deserializer.len (krds self).

Lemma unpack_consumes f self v self' :
  wf_store self ->
  unpack f true self = (Ok v, self') ->
  wf_store self' /\ bytes_left self' = bytes_left self - Deserializer.calcsize f.
Proof.
  intros Hwf H. destruct self as [d l dt]. unfold unpack in H.
  unfold wf_store, bytes_left in *. cbn [krds] in *.
  rewrite DeserializerFacts.unpack_spec in H by exact Hwf.
  destruct (_ <=? _) eqn:E; [|discriminate].
  apply Z.leb_le in E. inversion H; subst. cbn [krds].
  unfold DeserializerFacts.wf, DeserializerFacts.advanced, Deserializer.len in *.
  cbn [Deserializer.buffer Deserializer.offset].
  pose proof (DeserializerFacts.calcsize_pos f). lia.
Qed.

Lemma good_bytes_left {A : Type} (c : M A) self r self' :
  good c -> wf_store self -> c self = (r, self') ->
  wf_store self' /\ bytes_left self' <= bytes_left self.
Proof.
  intros Hc Hwf H. destruct (Hc _ _ _ Hwf H) as (Hwf' & Hb & _ & Ho & _).
  split; [exact Hwf'|]. unfold bytes_left, Deserializer.len. rewrite Hb. lia.
Qed.

Lemma decode_boolean_consumes self b self' :
  wf_store self -> decode_boolean self = (Ok b, self') ->
  wf_store self' /\ bytes_left self' <= bytes_left self - 1.
Proof.
  intros Hwf H. unfold decode_boolean, bind in H.
  destruct (unpack Deserializer.Fmt_b true self) as [[v| |] s1] eqn:E;
    try discriminate.
  destruct (unpack_consumes _ _ _ _ Hwf E) as (Hwf1 & Hl1). simpl in Hl1.
  destruct (v =? 0); [inversion H; subst; split; [assumption|lia]|].
  destruct (v =? 1); [inversion H; subst; split; [assumption|lia]|discriminate].
Qed.

Lemma decode_utf_consumes self name self' :
  wf_store self -> decode_utf self = (Ok name, self') ->
  wf_store self' /\ bytes_left self' <= bytes_left self - 1.
Proof.
  intros Hwf H.
  assert (Hrest : forall b, good (if (b : bool) then ret EmptyString else
            n <- unpack Deserializer.Fmt_H true ;;
            bs <- extract n ;;
            if utf8_valid bs then ret (string_of_list_byte bs)
            else raise UnicodeDecodeError)).
  { intros b. good. }
  unfold decode_utf in H. unfold bind at 1 in H.
  destruct (decode_boolean self) as [[b| |] s1] eqn:E; try discriminate.
  destruct (decode_boolean_consumes _ _ _ Hwf E) as (Hwf1 & Hl1).
  destruct (good_bytes_left _ _ _ _ (Hrest b) Hwf1 H) as (Hwf2 & Hl2).
  split; [assumption|lia].
Qed.

Lemma decode_next_fuel_tagged f self :
  decode_next_fuel clock (S f) None self
  = match unpack Deserializer.Fmt_b true self with
    | (Ok datatype, s1) => decode_next_fuel clock (S f) (Some datatype) s1
    | (Raise e, s1) => (Raise e, s1)
    | (OutOfFuel, s1) => (OutOfFuel, s1)
    end.
Proof.
  cbn [decode_next_fuel]. unfold bind at 1.
  destruct (unpack Deserializer.Fmt_b true self) as [[d| |] s1]; reflexivity.
Qed.

Lemma decode_next_consumes f self v self' :
  wf_store self ->
  decode_next_fuel clock f None self = (Ok v, self') ->
  wf_store self' /\ bytes_left self' <= bytes_left self - 1.
Proof.
  intros Hwf H. destruct f as [|f]; [discriminate|].
  rewrite decode_next_fuel_tagged in H.
  destruct (unpack Deserializer.Fmt_b true self) as [[d| |] s1] eqn:E;
    try discriminate.
  destruct (unpack_consumes _ _ _ _ Hwf E) as (Hwf1 & Hl1). simpl in Hl1.
  destruct (good_bytes_left _ _ _ _
              (proj1 (good_decode_next_fuel (S f)) (Some d)) Hwf1 H) as (Hwf2 & Hl2).
  split; [assumption|lia].
Qed.

Lemma bind_not_out_of_fuel {A B : Type} (c : M A) (k : A -> M B) self :
  fst (c self) <> OutOfFuel ->
  (forall a s1, c self = (Ok a, s1) -> fst (k a s1) <> OutOfFuel) ->
  fst ((x <- c ;; k x) self) <> OutOfFuel.
Proof.
  intros Hc Hk. unfold bind. destruct (c self) as [[a| |] s1]; simpl in *.
  - apply Hk. reflexivity.
  - discriminate.
  - contradiction.
Qed.

Lemma decode_next_fuel_enough f :
  (forall datatype self,
     wf_store self -> 2 * bytes_left self + 1 <= Z.of_nat f ->
     fst (decode_next_fuel clock f datatype self) <> OutOfFuel) /\
  (forall val self,
     wf_store self -> 2 * bytes_left self + 2 <= Z.of_nat f ->
     fst (decode_children clock f val self) <> OutOfFuel).
Proof.
  induction f as [|f [IHn IHc]].
  - split; intros ? self [H0 H1] Hf; unfold bytes_left, Deserializer.len in Hf; lia.
  - split.
    + intros datatype self Hwf Hf. cbn [decode_next_fuel].
      apply bind_not_out_of_fuel.
      { destruct datatype;
          [discriminate|exact (total_unpack Deserializer.Fmt_b true self)]. }
      intros d s1 Hd.
      assert (Hs1 : wf_store s1 /\ bytes_left s1 <= bytes_left self).
      { destruct datatype as [d'|].
        - inversion Hd; subst. split; [assumption|lia].
        - destruct (unpack_consumes Deserializer.Fmt_b _ _ _ Hwf Hd) as (Hwf1 & Hl1).
          simpl in Hl1. split; [assumption|lia]. }
      destruct Hs1 as (Hwf1 & Hl1).
      repeat match goal with
        | |- fst ((if ?b then _ else _) _) <> _ => destruct b
        end;
        try (apply total_bind; intros;
             first [apply total_decode_boolean | apply total_unpack
                   | apply total_decode_utf | apply total_ret
                   | apply total_lift; unfold decode_utf8;
                     destruct (utf8_valid _); discriminate ]).
      * apply bind_not_out_of_fuel; [apply total_decode_utf|].
        intros name s2 Hname.
        destruct (decode_utf_consumes _ _ _ Hwf1 Hname) as (Hwf2 & Hl2).
        apply bind_not_out_of_fuel; [apply IHc; [assumption|lia]|].
        intros val s3 Hval.
        apply total_bind; [apply total_unpack|]. intros _.
        apply total_decode_object.
      * apply total_raise.
    + intros val self Hwf Hf. cbn [decode_children].
      apply bind_not_out_of_fuel;
        [exact (total_unpack Deserializer.Fmt_b false self)|].
      intros next s1 Hnext.
      assert (s1 = self).
      { destruct self as [d l dt]. unfold unpack in Hnext. cbn [krds log data] in *.
        rewrite DeserializerFacts.unpack_spec in Hnext by exact Hwf.
        destruct (_ <=? _); inversion Hnext; reflexivity. }
      subst s1.
      destruct (negb _); [|discriminate].
      apply bind_not_out_of_fuel; [apply IHn; [assumption|lia]|].
      intros v s2 Hv.
      destruct (decode_next_consumes _ _ _ _ Hwf Hv) as (Hwf2 & Hl2).
      apply IHc; [assumption|lia].
Qed.

(** [decode_next] never runs out of depth: the model loses nothing of
    the recursion of the program. *)
Lemma decode_next_total datatype self :
  wf_store self -> fst (decode_next clock datatype self) <> OutOfFuel.
Proof.
  intros Hwf. unfold decode_next.
  apply (proj1 (decode_next_fuel_enough (enough_fuel self))); [exact Hwf|].
  destruct Hwf as [H0 H1]. unfold enough_fuel, bytes_left, Deserializer.len. lia.
Qed.

(** *** The signature and the first value *)

(** The store once the signature has been extracted. *)
Definition after_signature (self : KindleReaderDataStore) : KindleReaderDataStore :=
  mkStore (Deserializer.mk (data self) 8) (log self) (data self).

Lemma bytes_at_middle d pre bs post n :
  Deserializer.buffer d = pre ++ bs ++ post ->
  Deserializer.offset d = Z.of_nat (List.length pre) ->
  n = Z.of_nat (List.length bs) ->
  DeserializerFacts.bytes_at d n = bs.
Proof.
  intros Hb Ho ->. unfold DeserializerFacts.bytes_at. rewrite Hb, Ho, !Nat2Z.id.
  rewrite skipn_app, Nat.sub_diag, skipn_all. simpl.
  rewrite firstn_app, Nat.sub_diag, firstn_all. simpl. apply app_nil_r.
Qed.

Lemma deserialize_after_signature self tail :
  data self = SIGNATURE ++ tail ->
  deserialize clock self
  = (first_value <- decode_next clock None ;;
     if negb (py_eq_int first_value 1)
     then raise (Exception (FirstValue first_value))
     else deserialize_entries clock) (after_signature self).
Proof.
  intros Hdata. unfold deserialize. unfold bind at 1. unfold extract.
  cbn [krds log data].
  rewrite DeserializerFacts.extract_spec by apply DeserializerFacts.wf_init.
  replace ((0 <=? Z.of_nat (List.length SIGNATURE))
           && (Z.of_nat (List.length SIGNATURE)
               <=? Deserializer.len (Deserializer.init (data self))))
    with true.
  - rewrite (bytes_at_middle _ [] SIGNATURE tail) by (simpl; auto).
    reflexivity.
  - symmetry. apply andb_true_iff. split; apply Z.leb_le; [simpl; lia|].
    unfold Deserializer.len, Deserializer.init. cbn [Deserializer.buffer Deserializer.offset].
    rewrite Hdata, length_app. lia.
Qed.

Lemma enough_fuel_succ self :
  wf_store self -> exists f, enough_fuel self = S f.
Proof.
  intros [H0 H1]. unfold enough_fuel, Deserializer.len.
  exists (Z.to_nat (2 * (Z.of_nat (List.length (Deserializer.buffer (krds self)))
                         - Deserializer.offset (krds self)))).
  lia.
Qed.

(** An [int] value: the tag 1 and four bytes. *)
Lemma decode_next_int32 d l dt pre b3 b2 b1 b0 post :
  Deserializer.buffer d = pre ++ [x01; b3; b2; b1; b0] ++ post ->
  Deserializer.offset d = Z.of_nat (List.length pre) ->
  decode_next clock None (mkStore d l dt)
  = (Ok (VInt (signed_be [b3; b2; b1; b0])),
     mkStore (Deserializer.mk (Deserializer.buffer d) (Deserializer.offset d + 5)) l dt).
Proof.
  intros Hb Ho.
  assert (Hlen : Z.of_nat (List.length (Deserializer.buffer d))
                 = Z.of_nat (List.length pre) + 5 + Z.of_nat (List.length post)).
  { rewrite Hb, !length_app. simpl. lia. }
  assert (Hwf : wf_store (mkStore d l dt)).
  { unfold wf_store, DeserializerFacts.wf. cbn [krds]. lia. }
  unfold decode_next. destruct (enough_fuel_succ _ Hwf) as (f & ->).
  cbn [decode_next_fuel]. unfold bind at 1. unfold unpack at 1. cbn [krds log data].
  rewrite DeserializerFacts.unpack_spec by exact Hwf.
  replace (Deserializer.calcsize Deserializer.Fmt_b <=? Deserializer.len d) with true
    by (symmetry; apply Z.leb_le; unfold Deserializer.len; simpl; lia).
  rewrite (bytes_at_middle d pre [x01] ([b3; b2; b1; b0] ++ post)) by (simpl; auto).
  change (Deserializer.interpret Deserializer.Fmt_b [x01]) with 1.
  cbv beta iota.
  change (1 =? DATATYPE_BOOLEAN) with false.
  change (1 =? DATATYPE_INT) with true.
  cbv beta iota.
  unfold bind, unpack, DeserializerFacts.advanced. cbn [krds log data].
  rewrite DeserializerFacts.unpack_spec
    by (unfold DeserializerFacts.wf; simpl; lia).
  replace (Deserializer.calcsize Deserializer.Fmt_l <=? _) with true
    by (symmetry; apply Z.leb_le; unfold Deserializer.len; simpl; lia).
  rewrite (bytes_at_middle _ (pre ++ [x01]) [b3; b2; b1; b0] post);
    [| simpl; rewrite Hb, <- app_assoc; reflexivity
     | simpl; rewrite Ho, length_app; simpl; lia
     | reflexivity ].
  unfold ret, DeserializerFacts.advanced. simpl.
  replace (Deserializer.offset d + 1 + 4) with (Deserializer.offset d + 5) by lia.
  reflexivity.
Qed.

(** C4, as the code has it.  After the signature [deserialize] decodes
    one value, whatever its tag, and goes on to the entries exactly when
    the value equals 1 as Python compares ([True], the integer 1 of any
    width and the float 1.0 do); any other value raises the exception
    that quotes it.  When the value is tagged as an [int], the decode goes
    on exactly when the four bytes are the integer 1. *)
Theorem version_check_by_equality :
  forall (self : KindleReaderDataStore) (tail : list byte),
    data self = SIGNATURE ++ tail ->
    (forall v s2,
       decode_next clock None (after_signature self) = (Ok v, s2) ->
       deserialize clock self
       = if py_eq_int v 1 then deserialize_entries clock s2
         else (Raise (Exception (FirstValue v)), s2)) /\
    (forall b3 b2 b1 b0 tail',
       tail = x01 :: b3 :: b2 :: b1 :: b0 :: tail' ->
       let z := signed_be [b3; b2; b1; b0] in
       let s2 := mkStore (Deserializer.mk (data self) 13) (log self) (data self) in
       deserialize clock self
       = if z =? 1 then deserialize_entries clock s2
         else (Raise (Exception (FirstValue (VInt z))), s2)) /\
    (forall v,
       py_eq_int v 1 = true <->
       v = VBool true \/ v = VInt 1 \/
       exists f, v = VFloat f /\ float_compare_Z f 1 = Some Eq).
Proof.
  intros self tail Hdata.
  assert (Hgen : forall v s2,
            decode_next clock None (after_signature self) = (Ok v, s2) ->
            deserialize clock self
            = if py_eq_int v 1 then deserialize_entries clock s2
              else (Raise (Exception (FirstValue v)), s2)).
  { intros v s2 H. rewrite (deserialize_after_signature self tail Hdata).
    unfold bind. rewrite H. destruct (py_eq_int v 1); reflexivity. }
  split; [exact Hgen|split].
  - intros b3 b2 b1 b0 tail' Htail z s2.
    rewrite (Hgen (VInt z) s2).
    + reflexivity.
    + unfold after_signature.
      rewrite (decode_next_int32 _ _ _ SIGNATURE b3 b2 b1 b0 tail').
      * reflexivity.
      * simpl. rewrite Hdata, Htail. reflexivity.
      * reflexivity.
  - intros v. unfold py_eq_int, py_eq. split.
    + destruct v; try discriminate.
      * destruct b; [auto|discriminate].
      * intros H. apply Z.eqb_eq in H. subst. auto.
      * destruct (float_compare_Z f 1) as [[| |]|] eqn:E; try discriminate.
        intros _. right. right. exists f. auto.
    + intros [->|[->|(f & -> & E)]]; [reflexivity|reflexivity|].
      rewrite E. reflexivity.
Qed.

(** *** deserialize returns or raises *)

Lemma merge_items_returns kvs : forall acc, returns_or_raises (merge_items kvs acc).
Proof.
  induction kvs as [|[k v] kvs IH]; intros acc; simpl; [discriminate|].
  destruct (dict_contains acc k); [discriminate|apply IH].
Qed.

Lemma decode_entries_total n : forall acc self,
  wf_store self -> fst (decode_entries clock n acc self) <> OutOfFuel.
Proof.
  induction n as [|n IH]; intros acc self Hwf; cbn [decode_entries];
    [discriminate|].
  apply bind_not_out_of_fuel.
  - unfold try_except_reraise.
    pose proof (decode_next_total None self Hwf) as Hn.
    destruct (decode_next clock None self) as [[v|e|] s1]; simpl in *;
      [discriminate|discriminate|contradiction].
  - intros val s1 Hval.
    assert (Hwf1 : wf_store s1).
    { unfold try_except_reraise in Hval.
      destruct (decode_next clock None self) as [[v|e|] s0] eqn:E;
        [|discriminate|discriminate].
      inversion Hval; subst.
      apply (good_decode_next None _ _ _ Hwf E). }
    apply bind_not_out_of_fuel.
    + unfold lift. simpl. destruct val; discriminate.
    + intros kvs s2 Hkvs. unfold lift in Hkvs. inversion Hkvs; subst.
      apply bind_not_out_of_fuel.
      * apply merge_items_returns.
      * intros acc' s3 Hacc. unfold lift in Hacc. inversion Hacc; subst.
        apply IH. exact Hwf1.
Qed.

(** [deserialize] returns a mapping or raises: the depth bound of the
    model is never what stops it. *)
Lemma deserialize_total self : fst (deserialize clock self) <> OutOfFuel.
Proof.
  unfold deserialize.
  assert (Hwf0 : wf_store (fresh self)) by apply DeserializerFacts.wf_init.
  fold (fresh self).
  apply bind_not_out_of_fuel; [apply total_extract|].
  intros signature s1 Hsig.
  destruct (good_extract _ _ _ _ Hwf0 Hsig) as (Hwf1 & _).
  destruct (negb _); [discriminate|].
  apply bind_not_out_of_fuel; [apply decode_next_total; exact Hwf1|].
  intros first_value s2 Hfirst.
  destruct (good_decode_next None _ _ _ Hwf1 Hfirst) as (Hwf2 & _).
  destruct (negb _); [discriminate|].
  unfold deserialize_entries.
  apply bind_not_out_of_fuel; [apply decode_next_total; exact Hwf2|].
  intros value_cnt s3 Hcnt.
  destruct (good_decode_next None _ _ _ Hwf2 Hcnt) as (Hwf3 & _).
  apply bind_not_out_of_fuel; [apply range_returns|].
  intros n s4 Hn. unfold lift in Hn. inversion Hn; subst.
  apply bind_not_out_of_fuel; [apply decode_entries_total; exact Hwf3|].
  intros acc s5 Hacc.
  unfold bind, warn_extra_data, log_record_, ret.
  destruct (negb _); discriminate.
Qed.

(** *** The top-level entries *)

(** What [decode_object] returns for a top-level entry, and its item in
    the mapping of [deserialize]. *)
Definition entry (e : string * value) : value := VDict [(VStr (fst e), snd e)].

Definition item (e : string * value) : value * value := (VStr (fst e), snd e).

(** Every object [decode_object] returns has this shape. *)
Lemma decode_object_entry name val self v self' :
  decode_object clock name val self = (Ok v, self') ->
  exists obj, v = entry (name, obj).
Proof.
  unfold decode_object. intros H.
  destruct (select_rule name) as [r|].
  - destruct (run_rule clock r name val) as [[obj|e|] rest]; try discriminate.
    destruct (negb _); [discriminate|]. inversion H; subst.
    exists obj. reflexivity.
  - simpl in H. inversion H; subst. exists (VList val). reflexivity.
Qed.

(** [n] values decoded one after the other. *)
Fixpoint read_entries (n : nat) : M (list value) :=
  match n with
  | O => ret []
  | S n' =>
      v <- decode_next clock None ;;
      vs <- read_entries n' ;;
      ret (v :: vs)
  end.

(** The items of the values [vals] merged into [value], as the loop of
    [deserialize] merges them. *)
Fixpoint merge_values (vals : list value) (value : dict) : outcome dict :=
  match vals with
  | [] => Ok value
  | val :: vals' =>
      bind_outcome (items val) (fun kvs =>
      bind_outcome (merge_items kvs value) (fun value' =>
      merge_values vals' value'))
  end.

Lemma decode_entries_read j : forall n acc self vals self',
  (j <= n)%nat ->
  read_entries j self = (Ok vals, self') ->
  match merge_values vals acc with
  | Ok acc' =>
      decode_entries clock n acc self = decode_entries clock (n - j) acc' self'
  | Raise e => exists self'', decode_entries clock n acc self = (Raise e, self'')
  | OutOfFuel => True
  end.
Proof.
  induction j as [|j IH]; intros n acc self vals self' Hle H.
  - simpl in H. inversion H; subst. simpl. rewrite Nat.sub_0_r. reflexivity.
  - destruct n as [|n]; [lia|].
    simpl in H. unfold bind in H.
    destruct (decode_next clock None self) as [[v| |] s1] eqn:Ev; try discriminate.
    destruct (read_entries j s1) as [[vs| |] s2] eqn:Er; try discriminate.
    inversion H; subst; clear H.
    assert (Hstep :
      decode_entries clock (S n) acc self
      = match items v with
        | Ok kvs =>
            match merge_items kvs acc with
            | Ok acc' => decode_entries clock n acc' s1
            | Raise e => (Raise e, s1)
            | OutOfFuel => (OutOfFuel, s1)
            end
        | Raise e => (Raise e, s1)
        | OutOfFuel => (OutOfFuel, s1)
        end).
    { simpl. unfold bind, try_except_reraise, lift. rewrite Ev.
      destruct (items v); reflexivity. }
    rewrite Hstep. cbn [merge_values Nat.sub].
    destruct (items v) as [kvs|e|]; cbn [bind_outcome]; [|eexists; reflexivity|exact I].
    destruct (merge_items kvs acc) as [acc'|e|]; cbn [bind_outcome];
      [|eexists; reflexivity|exact I].
    apply (IH n acc' s1 vs self'); [lia|exact Er].
Qed.

Lemma dict_contains_items pre k :
  dict_contains (map item pre) (VStr k) = true <-> In k (map fst pre).
Proof.
  unfold dict_contains.
  induction pre as [|[k0 v0] pre IH]; simpl.
  - split; [discriminate|contradiction].
  - destruct (String.eqb k0 k) eqn:E.
    + apply String.eqb_eq in E. split; auto.
    + apply String.eqb_neq in E. rewrite IH. split; [auto|].
      intros [H|H]; [contradiction|exact H].
Qed.

Lemma dict_set_items pre k v :
  ~ In k (map fst pre) ->
  dict_set (map item pre) (VStr k) v = map item (pre ++ [(k, v)]).
Proof.
  induction pre as [|[k0 v0] pre IH]; simpl; intros Hin.
  - reflexivity.
  - destruct (String.eqb k0 k) eqn:E.
    + apply String.eqb_eq in E. exfalso. auto.
    + unfold item at 2. simpl. f_equal. apply IH. auto.
Qed.

Lemma merge_values_distinct entries : forall pre,
  NoDup (map fst (pre ++ entries)) ->
  merge_values (map entry entries) (map item pre) = Ok (map item (pre ++ entries)).
Proof.
  induction entries as [|[k v] entries IH]; intros pre Hnd; simpl.
  - rewrite app_nil_r. reflexivity.
  - rewrite map_app in Hnd. simpl in Hnd.
    pose proof (NoDup_remove_2 _ _ _ Hnd) as Hk.
    destruct (dict_contains (map item pre) (VStr k)) eqn:E.
    + apply dict_contains_items in E. exfalso. apply Hk.
      apply in_or_app. left. exact E.
    + simpl. rewrite dict_set_items
        by (intros Hin; apply Hk; apply in_or_app; left; exact Hin).
      rewrite (IH (pre ++ [(k, v)])).
      * rewrite <- app_assoc. reflexivity.
      * rewrite <- app_assoc. simpl. rewrite map_app. exact Hnd.
Qed.

Lemma merge_values_repeated entries : forall pre e1 k v e2,
  entries = e1 ++ (k, v) :: e2 ->
  In k (map fst pre) \/ In k (map fst e1) ->
  exists k',
    In k' (map fst entries) /\
    merge_values (map entry entries) (map item pre)
    = Raise (Exception (DuplicateItem (VStr k'))).
Proof.
  induction entries as [|[k0 v0] entries IH]; intros pre e1 k v e2 Heq Hin.
  - destruct e1; discriminate.
  - simpl.
    destruct (dict_contains (map item pre) (VStr k0)) eqn:E.
    + exists k0. split; [left; reflexivity|reflexivity].
    + assert (Hk0 : ~ In k0 (map fst pre)).
      { intros H. apply dict_contains_items in H. congruence. }
      simpl. rewrite dict_set_items by exact Hk0.
      destruct e1 as [|[k1 v1] e1]; simpl in Heq;
        injection Heq as E1 E2 E3; subst.
      * destruct Hin as [Hin|[]]. contradiction.
      * destruct (IH (pre ++ [(k1, v1)]) e1 k v e2 eq_refl) as (k' & Hk' & Hm).
        { rewrite map_app. simpl in *.
          destruct Hin as [Hin|[Hin|Hin]].
          - left. apply in_or_app. left. exact Hin.
          - left. apply in_or_app. right. left. exact Hin.
          - right. exact Hin. }
        exists k'. split; [right; exact Hk'|exact Hm].
Qed.

Lemma fst_warn_ret (acc : dict) self :
  fst ((warn_extra_data ;; ret acc) self) = Ok acc.
Proof.
  unfold bind, warn_extra_data, log_record_, ret.
  destruct (negb _); reflexivity.
Qed.

(** C3. An input with the signature, a first value equal to 1 and a
    count [n], whose first [j] entries decode to the objects named by
    [entries].  When a name occurs twice among them, whatever the two
    objects are, [deserialize] raises the exception about a duplicate
    item, for a name of the entries.  When the names are distinct and the
    entries are all the [n] of the input, [deserialize] returns the
    mapping with one item per entry, in the order of the entries. *)
Theorem top_level_names_unique :
  forall (self : KindleReaderDataStore) (tail : list byte)
         (first_value value_cnt : value) (s2 s3 s4 : KindleReaderDataStore)
         (n j : nat) (entries : list (string * value)),
    data self = SIGNATURE ++ tail ->
    decode_next clock None (after_signature self) = (Ok first_value, s2) ->
    py_eq_int first_value 1 = true ->
    decode_next clock None s2 = (Ok value_cnt, s3) ->
    range value_cnt = Ok n ->
    (j <= n)%nat ->
    read_entries j s3 = (Ok (map entry entries), s4) ->
    (forall e1 k v1 e2 v2 e3,
       entries = e1 ++ (k, v1) :: e2 ++ (k, v2) :: e3 ->
       exists k',
         In k' (map fst entries) /\
         fst (deserialize clock self) = Raise (Exception (DuplicateItem (VStr k')))) /\
    (NoDup (map fst entries) -> j = n ->
       fst (deserialize clock self) = Ok (map item entries)).
Proof.
  intros self tail first_value value_cnt s2 s3 s4 n j entries
         Hdata Hfirst Hone Hcnt Hrange Hle Hread.
  assert (Hdes : deserialize clock self
                 = (acc <- decode_entries clock n [] ;;
                    warn_extra_data ;; ret acc) s3).
  { rewrite (deserialize_after_signature self tail Hdata).
    unfold bind at 1. rewrite Hfirst, Hone. cbn [negb].
    unfold deserialize_entries. unfold bind at 1. rewrite Hcnt.
    unfold bind at 1. unfold lift. rewrite Hrange. reflexivity. }
  pose proof (decode_entries_read j n [] s3 _ s4 Hle Hread) as Hmerge.
  split.
  - intros e1 k v1 e2 v2 e3 Hsplit.
    destruct (merge_values_repeated entries [] (e1 ++ (k, v1) :: e2) k v2 e3)
      as (k' & Hk' & Hm).
    + rewrite Hsplit, <- app_assoc. reflexivity.
    + right. rewrite map_app. apply in_or_app. right. left. reflexivity.
    + exists k'. split; [exact Hk'|].
      simpl in Hm. rewrite Hm in Hmerge. destruct Hmerge as (s'' & Hdec).
      rewrite Hdes. unfold bind at 1. rewrite Hdec. reflexivity.
  - intros Hnd ->.
    pose proof (merge_values_distinct entries [] Hnd) as Hm.
    cbn [map app] in Hm. rewrite Hm in Hmerge.
    rewrite Nat.sub_diag in Hmerge. cbn [decode_entries] in Hmerge.
    rewrite Hdes. unfold bind at 1. rewrite Hmerge. unfold ret at 1.
    apply fst_warn_ret.
Qed.

End DeserializeFacts.

(** * Examples *)

(** A library in which every instant prints as the epoch: the examples do
    not depend on the time zone of the machine. *)
Definition sample_clock : spec_float -> exn + string :=
  fun _ => inr "1970-01-01T00:00:00".

(** A store that is to decode [bs]. *)
Definition store_of (bs : list byte) : KindleReaderDataStore :=
  mkStore (Deserializer.init []) [] bs.

(** The bytes of a named object: the tag, the name, the children, the end
    tag; the name is shorter than 256 bytes. *)
Definition object_bytes (name : string) (children : list byte) : list byte :=
  [xfe; x00; x00]
  ++ match Byte.of_N (N.of_nat (String.length name)) with
     | Some b => [b]
     | None => [x00]
     end
  ++ list_byte_of_string name ++ children ++ [xff].

(** The signature, the version 1 and the count [n]. *)
Definition header_bytes (n : byte) : list byte :=
  SIGNATURE ++ [x01; x00; x00; x00; x01] ++ [x01; x00; x00; x00; n].

Definition clock_data_store_42 : list byte :=
  header_bytes x01 ++ object_bytes "clock.data.store" [x01; x00; x00; x00; x2a].

Example decode_clock_data_store :
  fst (deserialize sample_clock (store_of clock_data_store_42))
  = Ok [(VStr "clock.data.store", VInt 42)].
Proof. vm_compute. reflexivity. Qed.

Example decode_lpr_sentinel :
  fst (deserialize sample_clock
         (store_of (header_bytes x01
                    ++ object_bytes "lpr"
                         [x07; x02; x03; x00; x00; x01; x41;
                          x02; xff; xff; xff; xff; xff; xff; xff; xff])))
  = Ok [(VStr "lpr", VDict [(VStr "position", VStr "A"); (VStr "time", VNone)])].
Proof. vm_compute. reflexivity. Qed.

Example decode_truncated :
  fst (deserialize sample_clock (store_of [x00; x00; x00]))
  = Raise (Exception (InsufficientData 8 3)).
Proof. vm_compute. reflexivity. Qed.

Example decode_unknown_tag :
  fst (deserialize sample_clock (store_of (SIGNATURE ++ [x08])))
  = Raise (Exception (UnknownDatatype 8)).
Proof. vm_compute. reflexivity. Qed.

(** ** The theorems at concrete inputs *)

Definition store0 : KindleReaderDataStore := store_of [].

Lemma children_consumed_exactly_witness :
  select_rule "fixed.layout.data" = Some FixedLayoutData /\
  decode_object sample_clock "fixed.layout.data"
    ([VBool true; VBool false; VBool true] ++ [VInt 7]) store0
  = (Raise (Exception (ExcessValues "fixed.layout.data" [VInt 7])), store0) /\
  decode_object sample_clock "fixed.layout.data" [VBool true; VBool false] store0
  = (Raise IndexError, store0).
Proof.
  split; [reflexivity|].
  pose proof (children_consumed_exactly sample_clock store0 "fixed.layout.data"
                FixedLayoutData [VBool true; VBool false; VBool true] eq_refl)
    as (_ & _ & _ & H & _).
  destruct (H _ _ eq_refl ltac:(discriminate)) as (Hextra & Hshort).
  split.
  - apply Hextra.
  - apply (Hshort [VBool true; VBool false] (VBool true) [] eq_refl).
Defined.

Lemma unknown_structure_witness :
  select_rule "whispersync.state" = None /\
  decode_object sample_clock "whispersync.state" [VInt 3; VStr "x"] store0
  = (Ok (VDict [(VStr "whispersync.state", VList [VInt 3; VStr "x"])]),
     mkStore (krds store0)
             (log store0 ++ [Error_unknown_data_structure "whispersync.state"])
             (data store0)).
Proof.
  split; [reflexivity|].
  apply (unknown_structure_passes_children_through sample_clock). reflexivity.
Defined.

Lemma sentinel_witness :
  decode_object sample_clock "fpr"
    [VStr "AdgGAAAAAAAA:2586"; VInt (-1); VInt (-1); VStr "US"; VStr "B00"] store0
  = (Ok (named "fpr"
           (VDict [(VStr "position", VStr "AdgGAAAAAAAA:2586"); (VStr "time", VNone);
                   (VStr "timeZoneOffset", VNone);
                   (VStr "country", VStr "US"); (VStr "device", VStr "B00")])),
     store0) /\
  decode_object sample_clock "lpr" [VInt 2; VStr "p"; VInt 1609459200000] store0
  = (Ok (named "lpr"
           (VDict [(VStr "position", VStr "p");
                   (VStr "time", VStr "1970-01-01T00:00:00")])),
     store0).
Proof.
  split.
  - apply (proj2 (proj2 (proj2
      (sentinel_minus_one_is_none sample_clock store0 (VStr "AdgGAAAAAAAA:2586")
         (VStr "US") (VStr "B00") 0 (-1) (-1))))).
    left. reflexivity.
  - apply (proj1 (proj2 (proj2
      (sentinel_minus_one_is_none sample_clock store0 (VStr "p")
         VNone VNone 2 1609459200000 0)))).
    discriminate.
Defined.

Lemma repeated_key_witness :
  decode_object sample_clock "Translator"
    [VInt 2; VStr "lang"; VStr "de"; VStr "lang"; VStr "fr"] store0
  = (Ok (named "Translator" (VDict [(VStr "lang", VStr "fr")])), store0).
Proof.
  apply (proj1 (repeated_key_overwrites sample_clock store0 "Translator"
                  [(VStr "lang", VStr "de"); (VStr "lang", VStr "fr")]
                  (or_intror (or_intror (or_intror (or_intror (or_introl eq_refl)))))
                  (fun k v H =>
                     match H with
                     | or_introl E => f_equal (fun kv => hashable (fst kv)) (eq_sym E)
                     | or_intror (or_introl E) =>
                         f_equal (fun kv => hashable (fst kv)) (eq_sym E)
                     | or_intror (or_intror F) => match F with end
                     end))).
Defined.

Lemma negative_count_witness :
  decode_object sample_clock "saved.avl.interval.tree" [VInt (-3)] store0
  = (Ok (named "saved.avl.interval.tree" (VList [])), store0) /\
  decode_object sample_clock "EndActions" [VInt (-1); VStr "k"; VStr "v"] store0
  = (Raise (Exception (ExcessValues "EndActions" [VStr "k"; VStr "v"])), store0).
Proof.
  split.
  - apply (proj1 (proj2 (proj2
      (negative_count_is_zero sample_clock store0 (-3) eq_refl)))
      "saved.avl.interval.tree" []).
    left. reflexivity.
  - apply (proj1 (proj2
      (negative_count_is_zero sample_clock store0 (-1) eq_refl))
      "EndActions" [VStr "k"; VStr "v"]).
    right. left. reflexivity.
Defined.

(** Two top-level entries with the same name and different contents, and
    two with different names. *)
Definition sharing_limits (accumulated : byte) : list byte :=
  object_bytes "sharing.limits" [x01; x00; x00; x00; accumulated].

Definition erl_A : list byte :=
  object_bytes "erl" [x03; x00; x00; x01; x41].

Definition twice_sharing_limits : KindleReaderDataStore :=
  store_of (header_bytes x02 ++ sharing_limits x05 ++ sharing_limits x09).

Definition sharing_limits_and_erl : KindleReaderDataStore :=
  store_of (header_bytes x02 ++ sharing_limits x05 ++ erl_A).

(** The store after the version and after the count. *)
Definition after_version (self : KindleReaderDataStore) : KindleReaderDataStore :=
  snd (decode_next sample_clock None (after_signature self)).

Definition after_count (self : KindleReaderDataStore) : KindleReaderDataStore :=
  snd (decode_next sample_clock None (after_version self)).

Lemma top_level_names_witness :
  (exists k',
     In k' ["sharing.limits"; "sharing.limits"] /\
     fst (deserialize sample_clock twice_sharing_limits)
     = Raise (Exception (DuplicateItem (VStr k')))) /\
  fst (deserialize sample_clock sharing_limits_and_erl)
  = Ok [(VStr "sharing.limits", VDict [(VStr "accumulated", VInt 5)]);
        (VStr "erl", VStr "A")].
Proof.
  split.
  - apply (proj1
      (top_level_names_unique sample_clock twice_sharing_limits
         ([x01; x00; x00; x00; x01] ++ [x01; x00; x00; x00; x02]
          ++ sharing_limits x05 ++ sharing_limits x09)
         (VInt 1) (VInt 2)
         (after_version twice_sharing_limits) (after_count twice_sharing_limits)
         (snd (read_entries sample_clock 2 (after_count twice_sharing_limits)))
         2 2
         [("sharing.limits", VDict [(VStr "accumulated", VInt 5)]);
          ("sharing.limits", VDict [(VStr "accumulated", VInt 9)])]
         eq_refl
         ltac:(vm_compute; reflexivity) eq_refl
         ltac:(vm_compute; reflexivity) eq_refl
         (le_n 2)
         ltac:(vm_compute; reflexivity))
      [] "sharing.limits" (VDict [(VStr "accumulated", VInt 5)])
      [] (VDict [(VStr "accumulated", VInt 9)]) [] eq_refl).
  - apply (proj2
      (top_level_names_unique sample_clock sharing_limits_and_erl
         ([x01; x00; x00; x00; x01] ++ [x01; x00; x00; x00; x02]
          ++ sharing_limits x05 ++ erl_A)
         (VInt 1) (VInt 2)
         (after_version sharing_limits_and_erl) (after_count sharing_limits_and_erl)
         (snd (read_entries sample_clock 2 (after_count sharing_limits_and_erl)))
         2 2
         [("sharing.limits", VDict [(VStr "accumulated", VInt 5)]);
          ("erl", VStr "A")]
         eq_refl
         ltac:(vm_compute; reflexivity) eq_refl
         ltac:(vm_compute; reflexivity) eq_refl
         (le_n 2)
         ltac:(vm_compute; reflexivity))).
    + repeat constructor; simpl; intuition discriminate.
    + reflexivity.
Defined.

(** C4, the claim as the specification states it, fails on a version that
    is not tagged as an [int]: the boolean [True] (tag 0, byte 1) and the
    double 1.0 (tag 4) are accepted, and the decode goes on to the count
    (here 0) and returns the empty mapping. *)
Lemma version_check_accepts_other_tags :
  fst (deserialize sample_clock
         (store_of (SIGNATURE ++ [x00; x01] ++ [x01; x00; x00; x00; x00])))
  = Ok [] /\
  fst (deserialize sample_clock
         (store_of (SIGNATURE
                    ++ [x04; x3f; xf0; x00; x00; x00; x00; x00; x00]
                    ++ [x01; x00; x00; x00; x00])))
  = Ok [].
Proof. split; vm_compute; reflexivity. Qed.

Lemma version_check_witness :
  deserialize sample_clock (store_of (header_bytes x00))
  = deserialize_entries sample_clock
      (mkStore (Deserializer.mk (header_bytes x00) 13) [] (header_bytes x00)) /\
  deserialize sample_clock
    (store_of (SIGNATURE ++ [x01; x00; x00; x00; x02] ++ [x01; x00; x00; x00; x00]))
  = (Raise (Exception (FirstValue (VInt 2))),
     mkStore
       (Deserializer.mk
          (SIGNATURE ++ [x01; x00; x00; x00; x02] ++ [x01; x00; x00; x00; x00]) 13)
       []
       (SIGNATURE ++ [x01; x00; x00; x00; x02] ++ [x01; x00; x00; x00; x00])).
Proof.
  split.
  - apply (proj1 (proj2
      (version_check_by_equality sample_clock (store_of (header_bytes x00))
         ([x01; x00; x00; x00; x01] ++ [x01; x00; x00; x00; x00]) eq_refl))
      x00 x00 x00 x01 [x01; x00; x00; x00; x00] eq_refl).
  - apply (proj1 (proj2
      (version_check_by_equality sample_clock
         (store_of (SIGNATURE ++ [x01; x00; x00; x00; x02] ++ [x01; x00; x00; x00; x00]))
         ([x01; x00; x00; x00; x02] ++ [x01; x00; x00; x00; x00]) eq_refl))
      x00 x00 x00 x02 [x01; x00; x00; x00; x00] eq_refl).
Defined.

(** [clock.data.store] followed by two bytes. *)
Definition clock_data_store_42_and_more : KindleReaderDataStore :=
  store_of (clock_data_store_42 ++ [xde; xad]).

Lemma trailing_bytes_witness :
  deserialize sample_clock clock_data_store_42_and_more
  = (Ok [(VStr "clock.data.store", VInt 42)],
     mkStore (Deserializer.mk (clock_data_store_42 ++ [xde; xad]) 44)
             [Error_bytes_of_extra_data 2]
             (clock_data_store_42 ++ [xde; xad])) /\
  exists l,
    0 <= 2 /\
    [Error_bytes_of_extra_data 2] = l ++ extra_data_record 2 /\
    forall extra,
      deserialize sample_clock
        (mkStore (Deserializer.init []) []
                 ((clock_data_store_42 ++ [xde; xad]) ++ extra))
      = (Ok [(VStr "clock.data.store", VInt 42)],
         mkStore
           (Deserializer.mk ((clock_data_store_42 ++ [xde; xad]) ++ extra) 44)
           (l ++ extra_data_record (2 + Z.of_nat (List.length extra)))
           ((clock_data_store_42 ++ [xde; xad]) ++ extra)).
Proof.
  assert (H : deserialize sample_clock clock_data_store_42_and_more
              = (Ok [(VStr "clock.data.store", VInt 42)],
                 mkStore (Deserializer.mk (clock_data_store_42 ++ [xde; xad]) 44)
                         [Error_bytes_of_extra_data 2]
                         (clock_data_store_42 ++ [xde; xad])))
    by (vm_compute; reflexivity).
  split; [exact H|].
  exact (trailing_bytes_tolerated sample_clock _ _ _ H).
Defined.

(** * Further properties of the rules of decode_object *)

Section MoreRules.

Variable clock : spec_float -> exn + string.

Ltac run_rule_here :=
  cbv beta iota zeta delta
    [run_rule bind pop0 lift field raise ret decode_position
     counted_list pop0_item pop0_time optional_field remaining].

Ltac names_of H :=
  simpl in H;
  repeat (destruct H as [H | H]; [|try contradiction]);
  try contradiction.

(** ** Records of a fixed number of fields *)

(** The names whose rule pops one child per field and nothing else, with
    the keys in the order of the assignments. *)
Definition fixed_layouts : list (string * list string) :=
  [ ("fixed.layout.data", ["unknown1"; "unknown2"; "unknown3"]);
    ("sharing.limits", ["accumulated"]);
    ("language.store", ["language"; "unknown1"]);
    ("periodicals.view.state", ["unknown1"; "unknown2"]);
    ("timer.data.store", ["on"; "readingTimerModel"; "version"]);
    ("timer.data.store.v2", ["on"; "readingTimerModel"; "version"; "lastOption"]);
    ("timer.average.calculator.distribution.normal",
     ["count"; "sum"; "sumOfSquares"]);
    ("book.info.store", ["numberOfWords"; "percentOfBook"]);
    ("reader.state.preferences",
     ["fontPreferences"; "leftMargin"; "rightMargin"; "topMargin";
      "bottomMargin"; "unknown1"]) ].

(** The dictionary with the keys [fields] for the first children. *)
Definition record_of (fields : list string) (val : list value) : value :=
  VDict (combine (map VStr fields) val).

(** X1. A record of a fixed number of fields decodes exactly when it has
    one child per field: the result maps the fields, in order, to the
    children; fewer children raise [IndexError], and the children after
    the last field are excess values. *)
Theorem fixed_layout_rule :
  forall (self : KindleReaderDataStore) (name : string) (fields : list string)
         (val : list value),
    In (name, fields) fixed_layouts ->
    decode_object clock name val self
    = (if (List.length val <? List.length fields)%nat then Raise IndexError
       else finish name (record_of fields val) (skipn (List.length fields) val),
       self).
Proof.
  intros self name fields val Hin.
  names_of Hin; injection Hin as <- <-;
    (erewrite decode_object_known by reflexivity);
    do 7 (destruct val as [|? val]; [reflexivity|]); reflexivity.
Qed.

(** ** The rules of one unwrapped child *)

Definition single_value_names : list string :=
  ["clock.data.store"; "dictionary"; "lpu"; "pdf.contrast"; "sync_lpr";
   "tpz.line.spacing"; "XRAY_OTA_UPDATE_STATE"; "XRAY_SHOWING_SPOILERS";
   "XRAY_SORTING_STATE"; "XRAY_TAB_STATE";
   "buy.asin.response.data"; "next.in.series.info.data"; "price.info.data";
   "erl"].

(** X2. The pass-through names (and [erl], whose position hook is the
    identity) return their single child unchanged; no child raises
    [IndexError] and every child after the first is an excess value. *)
Theorem single_value_rule :
  forall (self : KindleReaderDataStore) (name : string) (val : list value),
    In name single_value_names ->
    decode_object clock name val self
    = (match val with
       | [] => Raise IndexError
       | v :: rest => finish name v rest
       end, self).
Proof.
  intros self name val Hin.
  names_of Hin; subst name;
    (erewrite decode_object_known by reflexivity);
    destruct val as [|v rest]; reflexivity.
Qed.

(** ** font.prefs *)

(** The keys of [font.prefs]: nine fields, then the seven that are set
    while children remain. *)
Definition font_prefs_fields : list string :=
  ["typeface"; "lineSp"; "size"; "align"; "insetTop"; "insetLeft";
   "insetBottom"; "insetRight"; "unknown1";
   "bold"; "userSideloadableFont"; "customFontIndex"; "mobi7SystemFont";
   "mobi7RestoreFont"; "readingPresetSelected"; "unknown2"].

(** X3. [font.prefs] with 9 to 16 children returns the dictionary of the
    first fields, as many as there are children, in the order of the
    children: an optional field is present exactly when its child is. *)
Theorem font_prefs_rule :
  forall (self : KindleReaderDataStore) (val : list value),
    (9 <= List.length val <= 16)%nat ->
    decode_object clock "font.prefs" val self
    = (Ok (named "font.prefs" (record_of font_prefs_fields val)), self).
Proof.
  intros self val [Hlo Hhi].
  rewrite (decode_object_known clock "font.prefs" FontPrefs) by reflexivity.
  do 9 (destruct val as [|? val]; [simpl in Hlo; lia|]).
  do 8 (destruct val as [|? val]; [reflexivity|]).
  simpl in Hhi. lia.
Qed.

(** ** Counted lists *)

Lemma list_comp_pop0 (n : nat) : forall xs,
  list_comp n pop0 xs
  = if (List.length xs <? n)%nat then (Raise IndexError, [])
    else (Ok (firstn n xs), skipn n xs).
Proof.
  induction n as [|n IH]; intros xs.
  - reflexivity.
  - destruct xs as [|x xs]; [reflexivity|].
    cbn [list_comp]. unfold bind at 1. cbn [pop0]. unfold bind at 1.
    rewrite IH. cbn [List.length firstn skipn].
    change (S (List.length xs) <? S n)%nat with (List.length xs <? n)%nat.
    destruct (List.length xs <? n)%nat; reflexivity.
Qed.

Definition plain_list_names : list string :=
  ["saved.avl.interval.tree"; "timer.average.calculator.outliers"].

(** X4. A counted list of plain children with an integer count [n]
    returns the next [n] children in order (none when [n] is negative);
    it raises [IndexError] when fewer than [n] follow, and the children
    after the [n] are excess values. *)
Theorem counted_list_rule :
  forall (self : KindleReaderDataStore) (name : string) (n : Z)
         (xs : list value),
    In name plain_list_names ->
    decode_object clock name (VInt n :: xs) self
    = (if Z.of_nat (List.length xs) <? n then Raise IndexError
       else finish name (VList (firstn (Z.to_nat n) xs)) (skipn (Z.to_nat n) xs),
       self).
Proof.
  intros self name n xs Hin.
  assert (Hlt : (List.length xs <? Z.to_nat n)%nat = (Z.of_nat (List.length xs) <? n)).
  { destruct (Z.of_nat (List.length xs) <? n) eqn:E.
    - apply Z.ltb_lt in E. apply Nat.ltb_lt. lia.
    - apply Z.ltb_ge in E. apply Nat.ltb_ge. lia. }
  names_of Hin; subst name;
    (erewrite decode_object_known by reflexivity);
    run_rule_here; unfold range; rewrite list_comp_pop0, Hlt;
    destruct (Z.of_nat (List.length xs) <? n); reflexivity.
Qed.

(** ** Lists of wrapped records *)

(** The elements of [page.history.store] are read through
    [val.pop(0)["page.history.record"]]. *)
Lemma list_comp_pop0_item (key : string) (records : list value) : forall rest,
  list_comp (List.length records) (pop0_item key)
    (map (fun r => entry (key, r)) records ++ rest)
  = (Ok records, rest).
Proof.
  induction records as [|r records IH]; intros rest.
  - reflexivity.
  - cbn [List.length list_comp map app]. unfold bind at 1.
    unfold pop0_item at 1. unfold bind at 1. cbn [pop0].
    unfold lift, getitem_str, entry. cbn [fst snd dict_get py_eq].
    rewrite String.eqb_refl. unfold bind at 1. rewrite IH. reflexivity.
Qed.

(** X5. [page.history.store] given its count and that many
    [page.history.record] objects returns the list of the records
    without their wrappers, in order.  An element that is an object of
    another name raises [KeyError], and one that is not an object raises
    [TypeError]. *)
Theorem page_history_store_rule :
  forall (self : KindleReaderDataStore) (records : list value),
    decode_object clock "page.history.store"
      (VInt (Z.of_nat (List.length records))
       :: map (fun r => entry ("page.history.record", r)) records) self
    = (Ok (named "page.history.store" (VList records)), self) /\
    (forall (other : string) (obj : value) (n : Z) (rest : list value),
       other <> "page.history.record" -> 0 < n ->
       decode_object clock "page.history.store"
         (VInt n :: entry (other, obj) :: rest) self
       = (Raise (KeyError "page.history.record"), self)) /\
    (forall (v : value) (n : Z) (rest : list value),
       0 < n -> (forall d, v <> VDict d) ->
       decode_object clock "page.history.store" (VInt n :: v :: rest) self
       = (Raise TypeError, self)).
Proof.
  intros self records. split; [|split].
  - rewrite (decode_object_known clock "page.history.store" PageHistoryStore)
      by reflexivity.
    cbv beta iota delta [run_rule counted_list].
    unfold bind at 1. cbn [pop0]. unfold bind at 1. unfold lift at 1, range.
    cbv beta iota. rewrite Nat2Z.id. unfold bind at 1.
    rewrite <- (app_nil_r (map _ records)).
    rewrite list_comp_pop0_item. reflexivity.
  - intros other obj n rest Hother Hn.
    rewrite (decode_object_known clock "page.history.store" PageHistoryStore)
      by reflexivity.
    run_rule_here. unfold range.
    destruct (Z.to_nat n) as [|m] eqn:E; [lia|].
    cbn [list_comp]. run_rule_here.
    unfold getitem_str, entry. cbn [fst snd dict_get py_eq].
    replace (String.eqb other "page.history.record") with false
      by (symmetry; apply String.eqb_neq; exact Hother).
    reflexivity.
  - intros v n rest Hn Hv.
    rewrite (decode_object_known clock "page.history.store" PageHistoryStore)
      by reflexivity.
    run_rule_here. unfold range.
    destruct (Z.to_nat n) as [|m] eqn:E; [lia|].
    cbn [list_comp]. run_rule_here.
    destruct v; try reflexivity. exfalso. apply (Hv d). reflexivity.
Qed.

(** ** Annotations *)

(** The key of the sixth field of an annotation, for the classes that
    have one. *)
Definition annotation_extra_field (name : string) : option string :=
  if String.eqb name "annotation.personal.note" then Some "note"
  else if String.eqb name "annotation.personal.handwritten_note"
  then Some "handwritten_note_nbk_ref"
  else if String.eqb name "annotation.personal.sticky_note"
  then Some "sticky_note_nbk_ref"
  else None.

(** X6. An annotation of any of the six classes with its five children:
    the two positions are kept, the two times are converted by the
    library whatever they are (there is no sentinel here: -1 is converted
    too, and a conversion that fails fails the decode), then the
    template; the note, handwritten note and sticky note classes take one
    more child under their own key, the other classes none. *)
Theorem annotation_payload_rule :
  forall (self : KindleReaderDataStore) (name : string)
         (startPosition endPosition creationTime lastModificationTime
          template : value) (rest : list value),
    In name (map snd ANNOT_CLASS_NAMES) ->
    decode_object clock name
      (startPosition :: endPosition :: creationTime :: lastModificationTime
       :: template :: rest) self
    = (bind_outcome (isoformat_of_millis clock creationTime) (fun created =>
       bind_outcome (isoformat_of_millis clock lastModificationTime) (fun modified =>
       let obj :=
         [(VStr "startPosition", startPosition); (VStr "endPosition", endPosition);
          (VStr "creationTime", created); (VStr "lastModificationTime", modified);
          (VStr "template", template)] in
       match annotation_extra_field name with
       | None => finish name (VDict obj) rest
       | Some key =>
           match rest with
           | [] => Raise IndexError
           | x :: rest' => finish name (VDict (obj ++ [(VStr key, x)])) rest'
           end
       end)), self) /\
    isoformat_of_millis clock (VInt (-1))
    = match clock (SFdiv prec64 emax64 (float_of_Z (-1)) (float_of_Z 1000)) with
      | inr s => Ok (VStr s)
      | inl e => Raise e
      end.
Proof.
  intros self name startPosition endPosition creationTime lastModificationTime
         template rest Hin.
  split; [|reflexivity].
  names_of Hin; subst name;
    (erewrite decode_object_known by reflexivity);
    run_rule_here;
    destruct (isoformat_of_millis clock creationTime); try reflexivity;
    destruct (isoformat_of_millis clock lastModificationTime); try reflexivity;
    destruct rest; reflexivity.
Qed.

(** One group of [annotation.cache.object]: the type code and the
    interval tree of the annotations of that class, each wrapped under
    the name of the class. *)
Definition group_children (g : Z * string * list value) : list value :=
  let '(code, cls, payloads) := g in
  [VInt code;
   entry ("saved.avl.interval.tree", VList (map (fun p => entry (cls, p)) payloads))].

Definition group_item (g : Z * string * list value) : value * value :=
  let '(code, cls, payloads) := g in (VStr cls, VList payloads).

Lemma unwrap_annotations_wrapped cls payloads :
  unwrap_annotations cls (map (fun p => entry (cls, p)) payloads) = Ok payloads.
Proof.
  induction payloads as [|p payloads IH]; [reflexivity|].
  cbn [map unwrap_annotations]. rewrite IH.
  unfold unwrap_annotation, entry, py_len, contains_str, dict_contains, getitem_str.
  cbn [fst snd List.length dict_get py_eq]. rewrite String.eqb_refl. reflexivity.
Qed.

Lemma ANNOT_CLASS_NAMES_get_known code cls :
  In (code, cls) ANNOT_CLASS_NAMES ->
  ANNOT_CLASS_NAMES_get (VInt code) = Ok (Some cls).
Proof.
  intros Hin. names_of Hin; injection Hin as <- <-; reflexivity.
Qed.

Lemma annotation_cache_groups groups : forall obj rest,
  (forall code cls payloads,
     In (code, cls, payloads) groups -> In (code, cls) ANNOT_CLASS_NAMES) ->
  annotation_cache (List.length groups) obj (flat_map group_children groups ++ rest)
  = (Ok (set_all (map group_item groups) obj), rest).
Proof.
  induction groups as [|[[code cls] payloads] groups IH]; intros obj rest Hknown.
  - reflexivity.
  - cbn [List.length annotation_cache flat_map group_children app map set_all
         fold_left group_item fst snd].
    unfold bind at 1. cbn [pop0]. unfold bind at 1. unfold lift at 1.
    rewrite (ANNOT_CLASS_NAMES_get_known code cls)
      by (apply (Hknown code cls payloads); left; reflexivity).
    unfold bind at 1. unfold pop0_item at 1. unfold bind at 1. cbn [pop0].
    unfold lift at 1. unfold getitem_str, entry at 1.
    cbn [fst snd dict_get py_eq String.eqb Ascii.eqb Bool.eqb]. cbv iota.
    unfold bind at 1. unfold lift at 1. cbn [py_iter].
    unfold bind at 1. unfold lift at 1. rewrite unwrap_annotations_wrapped.
    unfold set_str. apply IH.
    intros c k ps Hin. apply (Hknown c k ps). right. exact Hin.
Qed.

(** X7. [annotation.cache.object] given its count and that many groups,
    each a known type code and an interval tree whose elements are
    wrapped under the class of that code, returns the mapping from class
    name to the list of the unwrapped annotations, built by assignment in
    the order of the groups (a class given twice keeps the list of its
    last group). *)
Theorem annotation_cache_rule :
  forall (self : KindleReaderDataStore) (groups : list (Z * string * list value)),
    (forall code cls payloads,
       In (code, cls, payloads) groups -> In (code, cls) ANNOT_CLASS_NAMES) ->
    decode_object clock "annotation.cache.object"
      (VInt (Z.of_nat (List.length groups)) :: flat_map group_children groups) self
    = (Ok (named "annotation.cache.object"
             (VDict (set_all (map group_item groups) []))), self).
Proof.
  intros self groups Hknown.
  rewrite (decode_object_known clock "annotation.cache.object" AnnotationCacheObject)
    by reflexivity.
  cbv beta iota delta [run_rule].
  unfold bind at 1. cbn [pop0]. unfold bind at 1. unfold lift at 1, range.
  cbv beta iota. rewrite Nat2Z.id. unfold bind at 1.
  rewrite <- (app_nil_r (flat_map _ groups)).
  rewrite (annotation_cache_groups groups [] [] Hknown). reflexivity.
Qed.

Lemma unwrap_annotation_other cls other payload :
  other <> cls ->
  unwrap_annotation cls (entry (other, payload))
  = Raise (Exception (UnknownAnnotationFormat (entry (other, payload)))).
Proof.
  intros Hother. unfold unwrap_annotation, entry, py_len, contains_str, dict_contains.
  cbn [fst snd List.length Nat.eqb negb bind_outcome dict_get py_eq].
  replace (String.eqb other cls) with false
    by (symmetry; apply String.eqb_neq; exact Hother).
  reflexivity.
Qed.

(** X8. The failures of [annotation.cache.object] on its first group: a
    type code that is none of 0, 1, 2, 3, 10, 11 raises the exception
    about the unknown annotation type with that code; a child that is an
    object of another name than [saved.avl.interval.tree] raises
    [KeyError]; an element of the tree wrapped under another name than
    the class of the code raises the exception about the annotation
    format, quoting the element. *)
Theorem annotation_cache_failures :
  forall (self : KindleReaderDataStore) (n : Z) (rest : list value),
    0 < n ->
    (forall code,
       ~ In code (map fst ANNOT_CLASS_NAMES) ->
       decode_object clock "annotation.cache.object" (VInt n :: VInt code :: rest) self
       = (Raise (Exception (UnknownAnnotationType code)), self)) /\
    (forall code cls other obj,
       In (code, cls) ANNOT_CLASS_NAMES ->
       other <> "saved.avl.interval.tree" ->
       decode_object clock "annotation.cache.object"
         (VInt n :: VInt code :: entry (other, obj) :: rest) self
       = (Raise (KeyError "saved.avl.interval.tree"), self)) /\
    (forall code cls other payload more,
       In (code, cls) ANNOT_CLASS_NAMES ->
       other <> cls ->
       decode_object clock "annotation.cache.object"
         (VInt n :: VInt code
          :: entry ("saved.avl.interval.tree", VList (entry (other, payload) :: more))
          :: rest) self
       = (Raise (Exception (UnknownAnnotationFormat (entry (other, payload)))), self)).
Proof.
  intros self n rest Hn.
  destruct (Z.to_nat n) as [|m] eqn:En; [lia|].
  split; [|split].
  - intros code Hcode.
    rewrite (decode_object_known clock "annotation.cache.object" AnnotationCacheObject)
      by reflexivity.
    run_rule_here. unfold range. rewrite En. cbn [annotation_cache]. run_rule_here.
    assert (Hget : ANNOT_CLASS_NAMES_get (VInt code) = Ok None).
    { unfold ANNOT_CLASS_NAMES_get. cbn [hashable ANNOT_CLASS_NAMES find fst py_eq].
      simpl in Hcode.
      repeat match goal with
        | |- context [?k =? code] =>
            let E := fresh "E" in
            destruct (k =? code) eqn:E;
              [apply Z.eqb_eq in E; exfalso; apply Hcode; tauto|]
        end.
      reflexivity. }
    rewrite Hget. reflexivity.
  - intros code cls other obj Hin Hother.
    rewrite (decode_object_known clock "annotation.cache.object" AnnotationCacheObject)
      by reflexivity.
    run_rule_here. unfold range. rewrite En. cbn [annotation_cache]. run_rule_here.
    rewrite (ANNOT_CLASS_NAMES_get_known code cls Hin).
    unfold getitem_str, entry. cbn [fst snd dict_get py_eq].
    replace (String.eqb other "saved.avl.interval.tree") with false
      by (symmetry; apply String.eqb_neq; exact Hother).
    reflexivity.
  - intros code cls other payload more Hin Hother.
    rewrite (decode_object_known clock "annotation.cache.object" AnnotationCacheObject)
      by reflexivity.
    run_rule_here. unfold range. rewrite En. cbn [annotation_cache]. run_rule_here.
    rewrite (ANNOT_CLASS_NAMES_get_known code cls Hin).
    unfold getitem_str at 1. unfold entry at 1.
    cbn [fst snd dict_get py_eq String.eqb Ascii.eqb Bool.eqb]. cbv iota.
    cbn [py_iter unwrap_annotations].
    rewrite (unwrap_annotation_other cls other payload Hother). reflexivity.
Qed.

(** ** Records with counted lists and wrapped children *)

Lemma counted_list_exact (xs rest : list value) :
  counted_list pop0 (VInt (Z.of_nat (List.length xs)) :: xs ++ rest)
  = (Ok (VList xs), rest).
Proof.
  unfold counted_list. unfold bind at 1. cbn [pop0]. unfold bind at 1.
  unfold lift at 1, range. cbv beta iota. rewrite Nat2Z.id. unfold bind at 1.
  rewrite list_comp_pop0.
  replace (List.length (xs ++ rest) <? List.length xs)%nat with false
    by (symmetry; apply Nat.ltb_ge; rewrite length_app; lia).
  rewrite firstn_app, Nat.sub_diag, firstn_all. cbn [firstn]. rewrite app_nil_r.
  rewrite skipn_app, Nat.sub_diag, skipn_all. reflexivity.
Qed.

Lemma counted_list_wrapped key (records rest : list value) :
  counted_list (pop0_item key)
    (VInt (Z.of_nat (List.length records))
     :: map (fun r => entry (key, r)) records ++ rest)
  = (Ok (VList records), rest).
Proof.
  unfold counted_list. unfold bind at 1. cbn [pop0]. unfold bind at 1.
  unfold lift at 1, range. cbv beta iota. rewrite Nat2Z.id. unfold bind at 1.
  rewrite list_comp_pop0_item. reflexivity.
Qed.

Lemma bind_eq {S A B : Type} (c : SE S A) (k : A -> SE S B) s a s' :
  c s = (Ok a, s') -> (x <- c ;; k x) s = k a s'.
Proof. intros H. unfold bind. rewrite H. reflexivity. Qed.

Lemma field_eq obj key (c : R value) val v val' :
  c val = (Ok v, val') -> field obj key c val = (Ok (set_str obj key v), val').
Proof. intros H. unfold field. rewrite (bind_eq _ _ _ _ _ H). reflexivity. Qed.

(** X9. [apnx.key]: three fields, then a counted list read as a whole
    into [oPNToPosition], then four fields: with the count [n] followed
    by exactly [n] children and the four last fields the decode returns
    the eight keys in this order. *)
Theorem apnx_key_rule :
  forall (self : KindleReaderDataStore)
         (asin cdeType sidecarAvailable first unknown1 unknown2 pageMap : value)
         (positions : list value),
    decode_object clock "apnx.key"
      ([asin; cdeType; sidecarAvailable; VInt (Z.of_nat (List.length positions))]
       ++ positions ++ [first; unknown1; unknown2; pageMap]) self
    = (Ok (named "apnx.key"
             (VDict [(VStr "asin", asin); (VStr "cdeType", cdeType);
                     (VStr "sidecarAvailable", sidecarAvailable);
                     (VStr "oPNToPosition", VList positions);
                     (VStr "first", first); (VStr "unknown1", unknown1);
                     (VStr "unknown2", unknown2); (VStr "pageMap", pageMap)])),
       self).
Proof.
  intros. rewrite (decode_object_known clock "apnx.key" ApnxKey) by reflexivity.
  cbv beta iota delta [run_rule]. cbn [app].
  do 3 (erewrite bind_eq by (apply field_eq; reflexivity)).
  erewrite bind_eq by (apply field_eq; apply counted_list_exact).
  reflexivity.
Qed.

(** X10. [timer.average.calculator]: four counted lists one after the
    other, the last two of objects that are unwrapped.  Given each count
    followed by as many children it returns the four lists in order. *)
Theorem timer_average_calculator_rule :
  forall (self : KindleReaderDataStore)
         (samples1 samples2 distributions outliers : list value),
    decode_object clock "timer.average.calculator"
      (VInt (Z.of_nat (List.length samples1)) :: samples1
       ++ VInt (Z.of_nat (List.length samples2)) :: samples2
       ++ VInt (Z.of_nat (List.length distributions))
          :: map (fun d => entry ("timer.average.calculator.distribution.normal", d))
               distributions
       ++ VInt (Z.of_nat (List.length outliers))
          :: map (fun o => entry ("timer.average.calculator.outliers", o)) outliers)
      self
    = (Ok (named "timer.average.calculator"
             (VDict [(VStr "samples1", VList samples1);
                     (VStr "samples2", VList samples2);
                     (VStr "normalDistributions", VList distributions);
                     (VStr "outliers", VList outliers)])),
       self).
Proof.
  intros.
  rewrite (decode_object_known clock "timer.average.calculator"
             TimerAverageCalculator) by reflexivity.
  cbv beta iota delta [run_rule].
  do 2 (erewrite bind_eq by (apply field_eq; apply counted_list_exact)).
  erewrite bind_eq by (apply field_eq; apply counted_list_wrapped).
  rewrite <- (app_nil_r (map _ outliers)).
  erewrite bind_eq by (apply field_eq; apply counted_list_wrapped).
  reflexivity.
Qed.

(** X11. [timer.model]: four fields and the object
    [timer.average.calculator], stored without its wrapper under
    [averageCalculator]; a fifth child that is an object of another name
    raises [KeyError]. *)
Theorem timer_model_rule :
  forall (self : KindleReaderDataStore)
         (version totalTime totalWords totalPercent calculator : value)
         (other : string),
    decode_object clock "timer.model"
      [version; totalTime; totalWords; totalPercent;
       entry ("timer.average.calculator", calculator)] self
    = (Ok (named "timer.model"
             (VDict [(VStr "version", version); (VStr "totalTime", totalTime);
                     (VStr "totalWords", totalWords);
                     (VStr "totalPercent", totalPercent);
                     (VStr "averageCalculator", calculator)])),
       self) /\
    (other <> "timer.average.calculator" ->
     decode_object clock "timer.model"
       [version; totalTime; totalWords; totalPercent; entry (other, calculator)] self
     = (Raise (KeyError "timer.average.calculator"), self)).
Proof.
  intros. split.
  - rewrite (decode_object_known clock "timer.model" TimerModel) by reflexivity.
    reflexivity.
  - intros Hother.
    rewrite (decode_object_known clock "timer.model" TimerModel) by reflexivity.
    run_rule_here. unfold getitem_str, entry. cbn [fst snd dict_get py_eq].
    replace (String.eqb other "timer.average.calculator") with false
      by (symmetry; apply String.eqb_neq; exact Hother).
    reflexivity.
Qed.

(** X12. [purchase.state.data] and [page.history.record]: a first field
    and a time the library always converts (no sentinel); the decode
    raises what the conversion raises. *)
Theorem timestamped_record_rule :
  forall (self : KindleReaderDataStore) (first time : value) (rest : list value),
    decode_object clock "purchase.state.data" (first :: time :: rest) self
    = (bind_outcome (isoformat_of_millis clock time) (fun t =>
         finish "purchase.state.data"
           (VDict [(VStr "state", first); (VStr "time", t)]) rest), self) /\
    decode_object clock "page.history.record" (first :: time :: rest) self
    = (bind_outcome (isoformat_of_millis clock time) (fun t =>
         finish "page.history.record"
           (VDict [(VStr "position", first); (VStr "time", t)]) rest), self).
Proof.
  intros. split.
  - rewrite (decode_object_known clock "purchase.state.data" PurchaseStateData)
      by reflexivity.
    run_rule_here. destruct (isoformat_of_millis clock time); reflexivity.
  - rewrite (decode_object_known clock "page.history.record" PageHistoryRecord)
      by reflexivity.
    run_rule_here. destruct (isoformat_of_millis clock time); reflexivity.
Qed.

(** X13. The failures of the key/value rule: a count that is a string
    raises [TypeError]; a key that is an object (a dictionary cannot be a
    key) raises [TypeError] once its value has been popped; a key without
    a value raises [IndexError]. *)
Theorem key_value_failures :
  forall (self : KindleReaderDataStore) (name : string),
    In name key_value_names ->
    (forall s rest,
       decode_object clock name (VStr s :: rest) self = (Raise TypeError, self)) /\
    (forall n e v rest,
       0 < n ->
       decode_object clock name (VInt n :: entry e :: v :: rest) self
       = (Raise TypeError, self)) /\
    (forall n k,
       0 < n ->
       decode_object clock name [VInt n; k] self = (Raise IndexError, self)).
Proof.
  intros self name Hin.
  assert (Hr : select_rule name = Some KeyValuePairs)
    by (names_of Hin; subst name; reflexivity).
  split; [|split].
  - intros s rest. rewrite (decode_object_known clock name KeyValuePairs _ _ Hr).
    reflexivity.
  - intros n e v rest Hn. rewrite (decode_object_known clock name KeyValuePairs _ _ Hr).
    run_rule_here. unfold range.
    destruct (Z.to_nat n) as [|m] eqn:E; [lia|]. reflexivity.
  - intros n k Hn. rewrite (decode_object_known clock name KeyValuePairs _ _ Hr).
    run_rule_here. unfold range.
    destruct (Z.to_nat n) as [|m] eqn:E; [lia|]. reflexivity.
Qed.

End MoreRules.

(** * Further properties of the byte cursor *)

(** X14. [extract] without a size.  In any state a run of cursor
    operations reaches: with neither size nor [upto] it returns all the
    bytes left and leaves none; with [upto] it returns the bytes up to
    that position of the buffer and stops there when the position is
    between the offset and the end, and raises leaving the cursor as it
    was otherwise; a size given with [upto] wins; and without [advance]
    the cursor never moves. *)
Theorem extract_without_size :
  forall (data : list byte) (ops : list DeserializerFacts.op),
    let d := DeserializerFacts.run ops (Deserializer.init data) in
    Deserializer.extract None None true d
    = (Ok (skipn (Z.to_nat (Deserializer.offset d)) data),
       Deserializer.mk data (Z.of_nat (List.length data))) /\
    (forall upto,
       Deserializer.extract None (Some upto) true d
       = if (Deserializer.offset d <=? upto) && (upto <=? Z.of_nat (List.length data))
         then (Ok (firstn (Z.to_nat (upto - Deserializer.offset d))
                     (skipn (Z.to_nat (Deserializer.offset d)) data)),
               Deserializer.mk data upto)
         else (fst (Deserializer.extract None (Some upto) true d), d)) /\
    (forall upto,
       (Deserializer.offset d <=? upto) && (upto <=? Z.of_nat (List.length data))
       = false ->
       exists need have,
         Deserializer.extract None (Some upto) true d
         = (Raise (Exception (InsufficientData need have)), d)) /\
    (forall size upto advance,
       Deserializer.extract (Some size) (Some upto) advance d
       = Deserializer.extract (Some size) None advance d) /\
    (forall size upto, snd (Deserializer.extract size upto false d) = d).
Proof.
  intros data ops d.
  destruct (DeserializerFacts.run_invariant ops (Deserializer.init data)
              (DeserializerFacts.wf_init data)) as (Hwf & Hb & Ho).
  fold d in Hwf, Hb, Ho. simpl in Hb, Ho.
  pose proof Hwf as [H0 H1]. rewrite Hb in H1.
  assert (Hupto : forall upto,
            Deserializer.extract None (Some upto) true d
            = if (Deserializer.offset d <=? upto) && (upto <=? Z.of_nat (List.length data))
              then (Ok (firstn (Z.to_nat (upto - Deserializer.offset d))
                          (skipn (Z.to_nat (Deserializer.offset d)) data)),
                    Deserializer.mk data upto)
              else (Raise (Exception (InsufficientData (upto - Deserializer.offset d)
                      (Z.of_nat (List.length
                         (slice (Deserializer.buffer d) (Deserializer.offset d)
                            (Deserializer.offset d + (upto - Deserializer.offset d))))))),
                    d)).
  { intros upto. rewrite DeserializerFacts.extract_requested.
    rewrite DeserializerFacts.extract_spec by exact Hwf.
    unfold DeserializerFacts.requested, DeserializerFacts.bytes_at,
      DeserializerFacts.advanced, Deserializer.len. rewrite Hb.
    replace ((0 <=? upto - Deserializer.offset d)
             && (upto - Deserializer.offset d
                 <=? Z.of_nat (List.length data) - Deserializer.offset d))
      with ((Deserializer.offset d <=? upto) && (upto <=? Z.of_nat (List.length data))).
    - destruct (_ && _); [|reflexivity].
      replace (Deserializer.offset d + (upto - Deserializer.offset d)) with upto by lia.
      reflexivity.
    - destruct (Deserializer.offset d <=? upto) eqn:E1;
        destruct (upto <=? Z.of_nat (List.length data)) eqn:E2;
        destruct (0 <=? upto - Deserializer.offset d) eqn:E3;
        destruct (upto - Deserializer.offset d
                  <=? Z.of_nat (List.length data) - Deserializer.offset d) eqn:E4;
        try reflexivity;
        rewrite ?Z.leb_le, ?Z.leb_gt in *; lia. }
  split; [|split; [|split; [|split]]].
  - rewrite DeserializerFacts.extract_requested.
    rewrite DeserializerFacts.extract_spec by exact Hwf.
    unfold DeserializerFacts.requested, DeserializerFacts.bytes_at,
      DeserializerFacts.advanced, Deserializer.len. rewrite Hb.
    replace ((0 <=? Z.of_nat (List.length data) - Deserializer.offset d)
             && (Z.of_nat (List.length data) - Deserializer.offset d
                 <=? Z.of_nat (List.length data) - Deserializer.offset d))
      with true
      by (symmetry; apply andb_true_iff; split; apply Z.leb_le; lia).
    rewrite firstn_all2 by (rewrite length_skipn; lia).
    replace (Deserializer.offset d
             + (Z.of_nat (List.length data) - Deserializer.offset d))
      with (Z.of_nat (List.length data)) by lia.
    reflexivity.
  - intros upto. rewrite Hupto. destruct (_ && _); reflexivity.
  - intros upto Hout. rewrite Hupto, Hout. eexists. eexists. reflexivity.
  - intros. reflexivity.
  - intros size upto. rewrite DeserializerFacts.extract_requested.
    rewrite DeserializerFacts.extract_spec by exact Hwf.
    destruct (_ && _); reflexivity.
Qed.

(** * Further properties of decode_next *)

(** The store whose cursor has read [pre] and has [rest] before it. *)
Definition cursor_at (pre rest : list byte) (l : list log_record) (dt : list byte)
  : KindleReaderDataStore :=
  mkStore (Deserializer.mk (pre ++ rest) (Z.of_nat (List.length pre))) l dt.

Lemma wf_cursor_at pre rest l dt : wf_store (cursor_at pre rest l dt).
Proof.
  unfold wf_store, DeserializerFacts.wf, cursor_at. simpl. rewrite length_app. lia.
Qed.

Lemma cursor_at_app pre bs post l dt :
  mkStore (Deserializer.mk (pre ++ bs ++ post)
             (Z.of_nat (List.length pre) + Z.of_nat (List.length bs))) l dt
  = cursor_at (pre ++ bs) post l dt.
Proof.
  unfold cursor_at. rewrite <- app_assoc, length_app, Nat2Z.inj_add. reflexivity.
Qed.

Lemma unpack_at f advance pre bs post l dt :
  Z.of_nat (List.length bs) = Deserializer.calcsize f ->
  unpack f advance (cursor_at pre (bs ++ post) l dt)
  = (Ok (Deserializer.interpret f bs),
     if advance then cursor_at (pre ++ bs) post l dt
     else cursor_at pre (bs ++ post) l dt).
Proof.
  intros Hlen. unfold unpack, cursor_at. cbn [krds log data].
  rewrite DeserializerFacts.unpack_spec by apply (wf_cursor_at pre (bs ++ post) l dt).
  replace (Deserializer.calcsize f <=? _) with true
    by (symmetry; apply Z.leb_le; unfold Deserializer.len; simpl;
        rewrite !length_app; lia).
  rewrite (bytes_at_middle _ pre bs post) by (simpl; auto).
  unfold DeserializerFacts.advanced. destruct advance; [|reflexivity].
  cbn [Deserializer.buffer Deserializer.offset].
  rewrite <- Hlen, cursor_at_app. reflexivity.
Qed.

Lemma unpack_short f advance pre rest l dt :
  Z.of_nat (List.length rest) < Deserializer.calcsize f ->
  unpack f advance (cursor_at pre rest l dt)
  = (Raise StructError, cursor_at pre rest l dt).
Proof.
  intros Hlen. unfold unpack, cursor_at. cbn [krds log data].
  rewrite DeserializerFacts.unpack_spec by apply (wf_cursor_at pre rest l dt).
  replace (Deserializer.calcsize f <=? _) with false
    by (symmetry; apply Z.leb_gt; unfold Deserializer.len; simpl;
        rewrite !length_app; lia).
  reflexivity.
Qed.

Lemma extract_at pre bs post l dt :
  extract (Z.of_nat (List.length bs)) (cursor_at pre (bs ++ post) l dt)
  = (Ok bs, cursor_at (pre ++ bs) post l dt).
Proof.
  unfold extract, cursor_at. cbn [krds log data].
  rewrite DeserializerFacts.extract_spec by apply (wf_cursor_at pre (bs ++ post) l dt).
  replace ((0 <=? _) && _) with true
    by (symmetry; apply andb_true_iff; split; apply Z.leb_le;
        unfold Deserializer.len; simpl; rewrite ?length_app; lia).
  rewrite (bytes_at_middle _ pre bs post) by (simpl; auto).
  unfold DeserializerFacts.advanced.
  cbn [Deserializer.buffer Deserializer.offset].
  rewrite cursor_at_app. reflexivity.
Qed.

Lemma extract_short n pre rest l dt :
  Z.of_nat (List.length rest) < n ->
  extract n (cursor_at pre rest l dt)
  = (Raise (Exception (InsufficientData n (Z.of_nat (List.length rest)))),
     cursor_at pre rest l dt).
Proof.
  intros Hlen. unfold extract, cursor_at. cbn [krds log data].
  rewrite DeserializerFacts.extract_spec by apply (wf_cursor_at pre rest l dt).
  replace ((0 <=? n) && _) with false
    by (symmetry; apply andb_false_iff; right; apply Z.leb_gt;
        unfold Deserializer.len; simpl; rewrite ?length_app; lia).
  cbn [Deserializer.buffer Deserializer.offset].
  rewrite DeserializerFacts.slice_length by (rewrite ?length_app; lia).
  rewrite length_firstn, length_skipn, length_app.
  do 4 f_equal. lia.
Qed.

Section MoreDecodeNext.

Variable clock : spec_float -> exn + string.

(** The tags of the values of a fixed width, with their formats. *)
Definition fixed_width_tags : list (byte * Deserializer.fmt) :=
  [ (x01, Deserializer.Fmt_l); (x02, Deserializer.Fmt_q);
    (x04, Deserializer.Fmt_d); (x05, Deserializer.Fmt_h);
    (x06, Deserializer.Fmt_f); (x07, Deserializer.Fmt_b) ].

(** The value [decode_next] makes of the bytes [bs] read in format [f]. *)
Definition fixed_width_value (f : Deserializer.fmt) (bs : list byte) : value :=
  match f with
  | Deserializer.Fmt_f => VFloat (float_of_bits32 (unsigned_be bs))
  | Deserializer.Fmt_d => VFloat (float_of_bits64 (unsigned_be bs))
  | Deserializer.Fmt_H => VInt (unsigned_be bs)
  | _ => VInt (signed_be bs)
  end.

Lemma decode_next_at pre rest l dt datatype :
  exists fuel,
    decode_next clock datatype (cursor_at pre rest l dt)
    = decode_next_fuel clock (S fuel) datatype (cursor_at pre rest l dt).
Proof.
  unfold decode_next.
  destruct (enough_fuel_succ _ (wf_cursor_at pre rest l dt)) as (f & ->).
  exists f. reflexivity.
Qed.

Ltac pick_datatype :=
  cbv beta iota delta
    [Z.eqb Pos.eqb DATATYPE_BOOLEAN DATATYPE_INT DATATYPE_LONG DATATYPE_UTF
     DATATYPE_DOUBLE DATATYPE_SHORT DATATYPE_FLOAT DATATYPE_BYTE DATATYPE_CHAR
     DATATYPE_OBJECT_BEGIN DATATYPE_OBJECT_END].

Ltac tags_of H :=
  simpl in H;
  repeat (destruct H as [H | H]; [|try contradiction]);
  try contradiction.

Lemma fixed_width_decodes tag f pre l dt bs post :
  In (tag, f) fixed_width_tags ->
  Z.of_nat (List.length bs) = Deserializer.calcsize f ->
  decode_next clock None (cursor_at pre (tag :: bs ++ post) l dt)
  = (Ok (fixed_width_value f bs), cursor_at (pre ++ tag :: bs) post l dt).
Proof.
  intros Hin Hlen.
  destruct (decode_next_at pre (tag :: bs ++ post) l dt None) as (fuel & ->).
  rewrite decode_next_fuel_tagged.
  change (tag :: bs ++ post) with ([tag] ++ bs ++ post).
  rewrite (unpack_at Deserializer.Fmt_b true pre [tag] (bs ++ post) l dt eq_refl).
  tags_of Hin; injection Hin as <- <-;
    cbn [decode_next_fuel]; unfold bind at 1; unfold ret at 1;
    match goal with
    | |- context [Deserializer.interpret Deserializer.Fmt_b [?b]] =>
        let v := eval vm_compute in (Deserializer.interpret Deserializer.Fmt_b [b]) in
        change (Deserializer.interpret Deserializer.Fmt_b [b]) with v
    end;
    pick_datatype;
    match goal with
    | |- context [unpack ?g true] =>
        erewrite (bind_eq (unpack g true)) by (apply (unpack_at g true); exact Hlen)
    end;
    unfold ret; rewrite <- app_assoc; reflexivity.
Qed.

(** X15. The values of a fixed width: tags 1 (4 bytes), 2 (8), 4 (8),
    5 (2), 6 (4) and 7 (1).  With the tag and that many bytes at the
    cursor, [decode_next] returns the big-endian value of these bytes
    (signed for the integers) and leaves the cursor after them; with
    fewer bytes after the tag it raises the error of [struct], the tag
    consumed; nothing is logged. *)
Theorem decode_next_fixed_width :
  forall (tag : byte) (f : Deserializer.fmt) (pre : list byte)
         (l : list log_record) (dt : list byte),
    In (tag, f) fixed_width_tags ->
    (forall bs post,
       Z.of_nat (List.length bs) = Deserializer.calcsize f ->
       decode_next clock None (cursor_at pre (tag :: bs ++ post) l dt)
       = (Ok (fixed_width_value f bs), cursor_at (pre ++ tag :: bs) post l dt)) /\
    (forall rest,
       Z.of_nat (List.length rest) < Deserializer.calcsize f ->
       decode_next clock None (cursor_at pre (tag :: rest) l dt)
       = (Raise StructError, cursor_at (pre ++ [tag]) rest l dt)).
Proof.
  intros tag f pre l dt Hin. split.
  - intros bs post Hlen. apply fixed_width_decodes; assumption.
  - intros rest Hlen.
    destruct (decode_next_at pre (tag :: rest) l dt None) as (fuel & ->).
    rewrite decode_next_fuel_tagged.
    change (tag :: rest) with ([tag] ++ rest).
    rewrite (unpack_at Deserializer.Fmt_b true pre [tag] rest l dt eq_refl).
    tags_of Hin; injection Hin as <- <-;
      cbn [decode_next_fuel]; unfold bind at 1; unfold ret at 1;
      match goal with
      | |- context [Deserializer.interpret Deserializer.Fmt_b [?b]] =>
          let v := eval vm_compute in (Deserializer.interpret Deserializer.Fmt_b [b]) in
          change (Deserializer.interpret Deserializer.Fmt_b [b]) with v
      end;
      pick_datatype;
      unfold bind; rewrite unpack_short by exact Hlen; reflexivity.
Qed.

Ltac read_tag pre tag rest l dt :=
  let fuel := fresh "fuel" in
  destruct (decode_next_at pre (tag :: rest) l dt None) as (fuel & ->);
  rewrite decode_next_fuel_tagged;
  change (tag :: rest) with ([tag] ++ rest);
  rewrite (unpack_at Deserializer.Fmt_b true pre [tag] rest l dt eq_refl);
  cbn [decode_next_fuel]; unfold bind at 1; unfold ret at 1.

Lemma decode_boolean_at pre b post l dt :
  decode_boolean (cursor_at pre (b :: post) l dt)
  = (if signed_be [b] =? 0 then Ok false
     else if signed_be [b] =? 1 then Ok true
     else Raise (Exception (UnknownBoolean (signed_be [b]))),
     cursor_at (pre ++ [b]) post l dt).
Proof.
  unfold decode_boolean.
  change (b :: post) with ([b] ++ post).
  rewrite (bind_eq _ _ _ _ _
             (unpack_at Deserializer.Fmt_b true pre [b] post l dt eq_refl)).
  change (Deserializer.interpret Deserializer.Fmt_b [b]) with (signed_be [b]).
  destruct (signed_be [b] =? 0); [reflexivity|].
  destruct (signed_be [b] =? 1); reflexivity.
Qed.

(** X16. A boolean is the tag 0 and one byte: 0 is [False], 1 is
    [True], and any other byte raises the exception about the unknown
    boolean value with that byte as a signed number; the two bytes are
    consumed in every case.  A character is the tag 9 and one byte
    decoded as UTF-8, which a byte above 127 is not. *)
Theorem decode_next_boolean_char :
  forall (pre post : list byte) (b : byte) (l : list log_record) (dt : list byte),
    decode_next clock None (cursor_at pre (x00 :: b :: post) l dt)
    = (if signed_be [b] =? 0 then Ok (VBool false)
       else if signed_be [b] =? 1 then Ok (VBool true)
       else Raise (Exception (UnknownBoolean (signed_be [b]))),
       cursor_at (pre ++ [x00; b]) post l dt) /\
    decode_next clock None (cursor_at pre (x09 :: b :: post) l dt)
    = (if Z_of_byte b <=? 127 then Ok (VStr (string_of_list_byte [b]))
       else Raise UnicodeDecodeError,
       cursor_at (pre ++ [x09; b]) post l dt).
Proof.
  intros pre post b l dt. split.
  - destruct (signed_be [b] =? 0) eqn:E0; destruct (signed_be [b] =? 1) eqn:E1;
      read_tag pre x00 (b :: post) l dt;
      change (Deserializer.interpret Deserializer.Fmt_b [x00]) with 0;
      pick_datatype; unfold bind; rewrite decode_boolean_at, E0, ?E1;
      rewrite <- app_assoc; reflexivity.
  - read_tag pre x09 (b :: post) l dt.
    change (Deserializer.interpret Deserializer.Fmt_b [x09]) with 9.
    pick_datatype.
    change (b :: post) with ([b] ++ post).
    rewrite (bind_eq _ _ _ _ _
               (unpack_at Deserializer.Fmt_c true (pre ++ [x09]) [b] post l dt eq_refl)).
    rewrite <- app_assoc. cbn [app].
    change (Deserializer.interpret Deserializer.Fmt_c [b]) with [b].
    unfold lift, decode_utf8, utf8_valid.
    cbn [List.length map utf8_valid_from].
    destruct (Z_of_byte b <=? 127); [reflexivity|].
    destruct (in_range 194 223 (Z_of_byte b)); [reflexivity|].
    destruct (in_range 224 239 (Z_of_byte b)); [reflexivity|].
    destruct (in_range 240 244 (Z_of_byte b)); reflexivity.
Qed.

Lemma decode_utf_empty pre post l dt :
  decode_utf (cursor_at pre (x01 :: post) l dt)
  = (Ok EmptyString, cursor_at (pre ++ [x01]) post l dt).
Proof.
  unfold decode_utf.
  rewrite (bind_eq _ _ _ _ _ (decode_boolean_at pre x01 post l dt)).
  reflexivity.
Qed.

Lemma decode_utf_bytes pre hi lo bs post l dt :
  Z.of_nat (List.length bs) = unsigned_be [hi; lo] ->
  decode_utf (cursor_at pre (x00 :: hi :: lo :: bs ++ post) l dt)
  = (if utf8_valid bs then Ok (string_of_list_byte bs) else Raise UnicodeDecodeError,
     cursor_at (pre ++ x00 :: hi :: lo :: bs) post l dt).
Proof.
  intros Hlen. unfold decode_utf.
  rewrite (bind_eq _ _ _ _ _ (decode_boolean_at pre x00 _ l dt)).
  change (hi :: lo :: bs ++ post) with ([hi; lo] ++ bs ++ post).
  rewrite (bind_eq _ _ _ _ _
             (unpack_at Deserializer.Fmt_H true (pre ++ [x00]) [hi; lo] (bs ++ post)
                l dt eq_refl)).
  change (Deserializer.interpret Deserializer.Fmt_H [hi; lo]) with (unsigned_be [hi; lo]).
  rewrite <- Hlen.
  rewrite (bind_eq _ _ _ _ _ (extract_at ((pre ++ [x00]) ++ [hi; lo]) bs post l dt)).
  rewrite <- !app_assoc. cbn [app].
  destruct (utf8_valid bs); reflexivity.
Qed.

(** X17. A string is the tag 3 and a flag.  The flag 1 is the empty
    string, and nothing after the flag is read.  The flag 0 is followed
    by a 2-byte big-endian length and that many bytes, which are the
    string when they are UTF-8 and raise [UnicodeDecodeError] when they
    are not; when fewer bytes follow the length the decode raises the
    exception about insufficient data with the two counts.  Any other
    flag raises the exception about the unknown boolean value. *)
Theorem decode_next_string :
  forall (pre post : list byte) (l : list log_record) (dt : list byte),
    decode_next clock None (cursor_at pre (x03 :: x01 :: post) l dt)
    = (Ok (VStr ""), cursor_at (pre ++ [x03; x01]) post l dt) /\
    (forall hi lo bs,
       Z.of_nat (List.length bs) = unsigned_be [hi; lo] ->
       decode_next clock None (cursor_at pre (x03 :: x00 :: hi :: lo :: bs ++ post) l dt)
       = (if utf8_valid bs then Ok (VStr (string_of_list_byte bs))
          else Raise UnicodeDecodeError,
          cursor_at (pre ++ x03 :: x00 :: hi :: lo :: bs) post l dt)) /\
    (forall hi lo,
       Z.of_nat (List.length post) < unsigned_be [hi; lo] ->
       decode_next clock None (cursor_at pre (x03 :: x00 :: hi :: lo :: post) l dt)
       = (Raise (Exception (InsufficientData (unsigned_be [hi; lo])
                              (Z.of_nat (List.length post)))),
          cursor_at (pre ++ [x03; x00; hi; lo]) post l dt)) /\
    (forall flag,
       (signed_be [flag] =? 0) || (signed_be [flag] =? 1) = false ->
       decode_next clock None (cursor_at pre (x03 :: flag :: post) l dt)
       = (Raise (Exception (UnknownBoolean (signed_be [flag]))),
          cursor_at (pre ++ [x03; flag]) post l dt)).
Proof.
  intros pre post l dt. split; [|split; [|split]].
  - read_tag pre x03 (x01 :: post) l dt.
    change (Deserializer.interpret Deserializer.Fmt_b [x03]) with 3.
    pick_datatype. rewrite (bind_eq _ _ _ _ _ (decode_utf_empty _ _ _ _)).
    rewrite <- app_assoc. reflexivity.
  - intros hi lo bs Hlen.
    read_tag pre x03 (x00 :: hi :: lo :: bs ++ post) l dt.
    change (Deserializer.interpret Deserializer.Fmt_b [x03]) with 3.
    pick_datatype. unfold bind.
    rewrite (decode_utf_bytes (pre ++ [x03]) hi lo bs post l dt Hlen).
    rewrite <- app_assoc. cbn [app].
    destruct (utf8_valid bs); reflexivity.
  - intros hi lo Hlen.
    read_tag pre x03 (x00 :: hi :: lo :: post) l dt.
    change (Deserializer.interpret Deserializer.Fmt_b [x03]) with 3.
    pick_datatype. unfold bind at 1. unfold decode_utf.
    rewrite (bind_eq _ _ _ _ _ (decode_boolean_at (pre ++ [x03]) x00 _ l dt)).
    change (hi :: lo :: post) with ([hi; lo] ++ post).
    rewrite (bind_eq _ _ _ _ _
               (unpack_at Deserializer.Fmt_H true ((pre ++ [x03]) ++ [x00]) [hi; lo] post
                  l dt eq_refl)).
    change (Deserializer.interpret Deserializer.Fmt_H [hi; lo]) with (unsigned_be [hi; lo]).
    unfold bind. rewrite extract_short by exact Hlen.
    rewrite <- !app_assoc. reflexivity.
  - intros flag Hflag. apply orb_false_iff in Hflag. destruct Hflag as [F0 F1].
    read_tag pre x03 (flag :: post) l dt.
    change (Deserializer.interpret Deserializer.Fmt_b [x03]) with 3.
    pick_datatype. unfold bind at 1. unfold decode_utf. unfold bind at 1.
    rewrite decode_boolean_at, F0, F1.
    rewrite <- app_assoc. reflexivity.
Qed.

(** The datatypes [decode_next] knows. *)
Definition known_datatypes : list Z :=
  [DATATYPE_BOOLEAN; DATATYPE_INT; DATATYPE_LONG; DATATYPE_UTF; DATATYPE_DOUBLE;
   DATATYPE_SHORT; DATATYPE_FLOAT; DATATYPE_BYTE; DATATYPE_CHAR;
   DATATYPE_OBJECT_BEGIN].

(** X18. A tag that is none of the ten datatypes (8 and the end tag -1
    among them) raises the exception about the unknown datatype with the
    tag as a signed number, the tag consumed; and with no byte left at the
    cursor [decode_next] raises the error of [struct] and consumes
    nothing. *)
Theorem decode_next_unknown_tag :
  forall (pre rest : list byte) (tag : byte) (l : list log_record) (dt : list byte),
    (existsb (Z.eqb (signed_be [tag])) known_datatypes = false ->
     decode_next clock None (cursor_at pre (tag :: rest) l dt)
     = (Raise (Exception (UnknownDatatype (signed_be [tag]))),
        cursor_at (pre ++ [tag]) rest l dt)) /\
    decode_next clock None (cursor_at pre [] l dt)
    = (Raise StructError, cursor_at pre [] l dt).
Proof.
  intros pre rest tag l dt. split.
  - intros Hunknown.
    read_tag pre tag rest l dt.
    change (Deserializer.interpret Deserializer.Fmt_b [tag]) with (signed_be [tag]).
    cbn [existsb known_datatypes] in Hunknown.
    repeat (apply orb_false_iff in Hunknown;
            let H := fresh "H" in destruct Hunknown as [H Hunknown];
            rewrite Z.eqb_sym in H; rewrite ?H).
    cbv beta iota.
    repeat match goal with
      | H : (?k =? signed_be [tag]) = false |- _ =>
          rewrite Z.eqb_sym in H; rewrite H; clear H
      end.
    reflexivity.
  - destruct (decode_next_at pre [] l dt None) as (fuel & ->).
    rewrite decode_next_fuel_tagged.
    rewrite unpack_short by (simpl; lia). reflexivity.
Qed.

(** ** The layout of an object *)

(** The bytes [bs] decode to [v] wherever they stand, and the decode
    writes [lg] to the log. *)
Definition decodes_to (bs : list byte) (v : value) (lg : list log_record) : Prop :=
  forall pre post l dt,
    decode_next clock None (cursor_at pre (bs ++ post) l dt)
    = (Ok v, cursor_at (pre ++ bs) post (l ++ lg) dt).

(** The children of an object: the bytes of each, its value and what its
    decode logs. *)
Definition child : Type := list byte * value * list log_record.

Definition bytes_of (children : list child) : list byte :=
  List.concat (map (fun c : child => fst (fst c)) children).

Definition values_of (children : list child) : list value :=
  map (fun c : child => snd (fst c)) children.

Definition logs_of (children : list child) : list log_record :=
  List.concat (map (fun c : child => snd c) children).

Lemma enough_fuel_cursor_at pre rest l dt :
  enough_fuel (cursor_at pre rest l dt)
  = Z.to_nat (2 * Z.of_nat (List.length rest) + 1).
Proof.
  unfold enough_fuel, cursor_at, Deserializer.len. cbn [krds].
  cbn [Deserializer.buffer Deserializer.offset]. rewrite length_app. f_equal. lia.
Qed.

Lemma decode_next_any_fuel g datatype self :
  wf_store self -> (enough_fuel self <= g)%nat ->
  decode_next_fuel clock g datatype self = decode_next clock datatype self.
Proof.
  intros Hwf Hle. pose proof (decode_next_total clock datatype self Hwf) as Ht.
  unfold decode_next in *.
  destruct (decode_next_fuel clock (enough_fuel self) datatype self) as [r s] eqn:E.
  apply (fuel_monotone clock _ _ datatype Hle _ _ _ E). exact Ht.
Qed.

Lemma decodes_to_head bs v lg :
  decodes_to bs v lg ->
  exists b bs', bs = b :: bs' /\ (signed_be [b] =? DATATYPE_OBJECT_END) = false.
Proof.
  intros H. specialize (H [] [] [] []). destruct bs as [|b bs'].
  - exfalso. revert H. cbn [app].
    destruct (decode_next_at [] [] [] [] None) as (fuel & ->).
    rewrite decode_next_fuel_tagged, unpack_short by (simpl; lia). discriminate.
  - exists b, bs'. split; [reflexivity|].
    destruct (signed_be [b] =? DATATYPE_OBJECT_END) eqn:E; [|reflexivity].
    exfalso. revert H. apply Z.eqb_eq in E. cbn [app].
    read_tag (@nil byte) b (bs' ++ []) (@nil log_record) (@nil byte).
    change (Deserializer.interpret Deserializer.Fmt_b [b]) with (signed_be [b]).
    rewrite E. discriminate.
Qed.

Lemma decode_children_all children :
  Forall (fun c : child => decodes_to (fst (fst c)) (snd (fst c)) (snd c)) children ->
  forall g acc pre post l dt,
    (List.length children + 1
     + enough_fuel (cursor_at pre (bytes_of children ++ xff :: post) l dt) <= g)%nat ->
    decode_children clock g acc (cursor_at pre (bytes_of children ++ xff :: post) l dt)
    = (Ok (acc ++ values_of children),
       cursor_at (pre ++ bytes_of children) (xff :: post) (l ++ logs_of children) dt).
Proof.
  induction 1 as [|[[bs v] lg] children Hc _ IH]; intros g acc pre post l dt Hg.
  - destruct g as [|g]; [simpl in Hg; lia|].
    cbn [bytes_of values_of logs_of map List.concat app decode_children].
    change (xff :: post) with ([xff] ++ post) at 1.
    rewrite (bind_eq _ _ _ _ _
               (unpack_at Deserializer.Fmt_b false pre [xff] post l dt eq_refl)).
    rewrite !app_nil_r. reflexivity.
  - cbn [fst snd] in Hc.
    destruct (decodes_to_head _ _ _ Hc) as (b & bs' & -> & Hb).
    rewrite enough_fuel_cursor_at in Hg.
    unfold bytes_of, values_of, logs_of in *. cbn [map List.concat fst snd] in *.
    fold (bytes_of children) in *. fold (values_of children) in *.
    fold (logs_of children) in *.
    destruct g as [|g]; [simpl in Hg; lia|].
    cbn [decode_children].
    rewrite <- app_assoc.
    change ((b :: bs') ++ bytes_of children ++ xff :: post)
      with ([b] ++ bs' ++ bytes_of children ++ xff :: post) at 1.
    rewrite (bind_eq _ _ _ _ _
               (unpack_at Deserializer.Fmt_b false pre [b] _ l dt eq_refl)).
    change (Deserializer.interpret Deserializer.Fmt_b [b]) with (signed_be [b]).
    rewrite Hb. cbn [negb].
    change ([b] ++ bs' ++ bytes_of children ++ xff :: post)
      with ((b :: bs') ++ bytes_of children ++ xff :: post).
    rewrite !length_app in Hg. cbn [List.length] in Hg.
    rewrite (bind_eq (decode_next_fuel clock g None) _ _ v
               (cursor_at (pre ++ b :: bs') (bytes_of children ++ xff :: post)
                  (l ++ lg) dt)).
    + rewrite IH.
      * rewrite <- !app_assoc. reflexivity.
      * rewrite enough_fuel_cursor_at, !length_app. cbn [List.length]. lia.
    + rewrite decode_next_any_fuel.
      * apply Hc.
      * apply wf_cursor_at.
      * rewrite enough_fuel_cursor_at. cbn [List.length app].
        rewrite ?length_app. cbn [List.length]. lia.
Qed.

(** X19. The layout of an object: the tag -2, the name as a string,
    the children one after the other, and the tag -1.  When each child
    decodes to its value, [decode_next] on these bytes hands the name and
    the values of the children, in their order, to [decode_object], with
    the cursor after the end tag and the records of the children in the
    log: its result is the result of [decode_object]. *)
Theorem object_layout :
  forall (hi lo : byte) (nm : list byte) (children : list child)
         (pre post : list byte) (l : list log_record) (dt : list byte),
    Z.of_nat (List.length nm) = unsigned_be [hi; lo] ->
    utf8_valid nm = true ->
    Forall (fun c : child => decodes_to (fst (fst c)) (snd (fst c)) (snd c))
           children ->
    decode_next clock None
      (cursor_at pre
         (xfe :: x00 :: hi :: lo :: nm ++ bytes_of children ++ xff :: post) l dt)
    = decode_object clock (string_of_list_byte nm) (values_of children)
        (cursor_at
           (pre ++ xfe :: x00 :: hi :: lo :: nm ++ bytes_of children ++ [xff])
           post (l ++ logs_of children) dt).
Proof.
  intros hi lo nm children pre post l dt Hlen Hutf Hchildren.
  set (rest := x00 :: hi :: lo :: nm ++ bytes_of children ++ xff :: post).
  rewrite <- (decode_next_any_fuel
                (S (List.length children + 1
                    + enough_fuel (cursor_at pre (xfe :: rest) l dt))))
    by (try apply wf_cursor_at; lia).
  rewrite decode_next_fuel_tagged.
  change (xfe :: rest) with ([xfe] ++ rest) at 1.
  rewrite (unpack_at Deserializer.Fmt_b true pre [xfe] rest l dt eq_refl).
  change (Deserializer.interpret Deserializer.Fmt_b [xfe]) with (-2).
  remember (List.length children + 1
            + enough_fuel (cursor_at pre (xfe :: rest) l dt))%nat as g eqn:Hg.
  cbn [decode_next_fuel]. unfold bind at 1. unfold ret at 1.
  pick_datatype. unfold rest.
  pose proof (decode_utf_bytes (pre ++ [xfe]) hi lo nm
                (bytes_of children ++ xff :: post) l dt Hlen) as Hname.
  rewrite Hutf in Hname. rewrite (bind_eq _ _ _ _ _ Hname).
  rewrite (bind_eq _ _ _ _ _
             (decode_children_all children Hchildren g [] _ post l dt
                ltac:(subst g; rewrite !enough_fuel_cursor_at; unfold rest;
                      cbn [List.length]; rewrite !length_app;
                      cbn [List.length]; lia))).
  change (xff :: post) with ([xff] ++ post).
  rewrite (bind_eq _ _ _ _ _
             (unpack_at Deserializer.Fmt_b true _ [xff] post _ dt eq_refl)).
  cbn [app]. rewrite <- !app_assoc. reflexivity.
Qed.

End MoreDecodeNext.

(** * What a decode leaves behind *)

Section MoreInvariants.

Variable clock : spec_float -> exn + string.

(** [c] adds records to the log and drops none. *)
Definition appends_to_log {A : Type} (c : M A) : Prop :=
  forall self r self', c self = (r, self') -> exists l, log self' = log self ++ l.

Ltac same_log H := inversion H; subst; exists []; rewrite app_nil_r; reflexivity.

Lemma appends_ret {A : Type} (a : A) : appends_to_log (ret a).
Proof. intros self r self' H. same_log H. Qed.

Lemma appends_raise {A : Type} (e : exn) : appends_to_log (@raise _ A e).
Proof. intros self r self' H. same_log H. Qed.

Lemma appends_lift {A : Type} (o : outcome A) : appends_to_log (lift o).
Proof. intros self r self' H. unfold lift in H. same_log H. Qed.

Lemma appends_out_of_fuel {A : Type} : appends_to_log (@out_of_fuel _ A).
Proof. intros self r self' H. same_log H. Qed.

Lemma appends_bind {A B : Type} (c : M A) (k : A -> M B) :
  appends_to_log c -> (forall a, appends_to_log (k a)) ->
  appends_to_log (x <- c ;; k x).
Proof.
  intros Hc Hk self r self' H. unfold bind in H.
  destruct (c self) as [[a|e|] s1] eqn:Ec; destruct (Hc _ _ _ Ec) as (l1 & Hl1).
  - destruct (Hk a _ _ _ H) as (l2 & Hl2). exists (l1 ++ l2).
    rewrite Hl2, Hl1, app_assoc. reflexivity.
  - inversion H; subst. exists l1. exact Hl1.
  - inversion H; subst. exists l1. exact Hl1.
Qed.

Lemma appends_unpack f advance : appends_to_log (unpack f advance).
Proof.
  intros self r self' H. unfold unpack in H.
  destruct (Deserializer.unpack f advance (krds self)) as [res d].
  inversion H; subst. exists []. simpl. rewrite app_nil_r. reflexivity.
Qed.

Lemma appends_extract size : appends_to_log (extract size).
Proof.
  intros self r self' H. unfold extract in H.
  destruct (Deserializer.extract (Some size) None true (krds self)) as [res d].
  inversion H; subst. exists []. simpl. rewrite app_nil_r. reflexivity.
Qed.

Lemma appends_log_record r : appends_to_log (log_record_ r).
Proof.
  intros self r' self' H. unfold log_record_ in H. inversion H; subst.
  exists [r]. reflexivity.
Qed.

Lemma appends_decode_object name val : appends_to_log (decode_object clock name val).
Proof.
  intros self r self' H. unfold decode_object in H.
  destruct (select_rule name) as [rl|].
  - destruct (run_rule clock rl name val) as [[obj|e|] rest];
      [destruct (negb _)| |]; same_log H.
  - simpl in H. inversion H; subst. eexists [_]. reflexivity.
Qed.

Ltac appends :=
  repeat first
    [ apply appends_ret | apply appends_raise | apply appends_lift
    | apply appends_out_of_fuel
    | match goal with
      | |- appends_to_log (unpack ?f ?a) => exact (appends_unpack f a)
      end
    | apply appends_extract | apply appends_log_record
    | apply appends_decode_object
    | assumption
    | match goal with H : forall _, appends_to_log _ |- _ => apply H end
    | apply appends_bind; [|intros ?]
    | match goal with
      | |- appends_to_log (if ?b then _ else _) => destruct b
      | |- appends_to_log (match ?v with _ => _ end) => destruct v
      end ].

Lemma appends_decode_boolean : appends_to_log decode_boolean.
Proof. unfold decode_boolean. appends. Qed.

Lemma appends_decode_utf : appends_to_log decode_utf.
Proof. unfold decode_utf. pose proof appends_decode_boolean. appends. Qed.

Lemma appends_decode_next_fuel fuel :
  (forall datatype, appends_to_log (decode_next_fuel clock fuel datatype)) /\
  (forall val, appends_to_log (decode_children clock fuel val)).
Proof.
  pose proof appends_decode_boolean as Hb. pose proof appends_decode_utf as Hu.
  induction fuel as [|fuel [IHn IHc]].
  - split; intros; simpl; appends.
  - split.
    + intros datatype. simpl. appends.
    + intros val. simpl. appends.
Qed.

Lemma appends_decode_next datatype : appends_to_log (decode_next clock datatype).
Proof.
  intros self r self' H. unfold decode_next in H.
  exact (proj1 (appends_decode_next_fuel (enough_fuel self)) datatype _ _ _ H).
Qed.

Lemma appends_try_except_reraise {A : Type} (c : M A) (h : M unit) :
  appends_to_log c -> only_logs h -> appends_to_log (try_except_reraise c h).
Proof.
  intros Hc Hh self r self' H. unfold try_except_reraise in H.
  destruct (c self) as [[a|e|] s1] eqn:Ec; destruct (Hc _ _ _ Ec) as (l1 & Hl1).
  - inversion H; subst. exists l1. exact Hl1.
  - destruct (Hh s1) as (l & Hl). rewrite Hl in H. inversion H; subst.
    exists (l1 ++ l). cbn [log]. rewrite Hl1, app_assoc. reflexivity.
  - inversion H; subst. exists l1. exact Hl1.
Qed.

Lemma appends_decode_entries n :
  forall value, appends_to_log (decode_entries clock n value).
Proof.
  induction n as [|n IH]; intros value; simpl.
  - apply appends_ret.
  - apply appends_bind.
    + apply appends_try_except_reraise; [apply appends_decode_next|].
      intros self. eexists [_; _]. unfold bind, log_record_. cbn [krds log data].
      rewrite <- app_assoc. reflexivity.
    + intros val. apply appends_bind; [apply appends_lift|]. intros kvs.
      apply appends_bind; [apply appends_lift|]. intros value'. apply IH.
Qed.

Lemma appends_warn_extra_data : appends_to_log warn_extra_data.
Proof.
  intros self r self' H. unfold warn_extra_data in H.
  destruct (negb _); [apply (appends_log_record _ _ _ _ H)|apply (appends_ret _ _ _ _ H)].
Qed.

(** [c] keeps the offset within the buffer and never moves it back, and
    leaves the buffer and [data] alone. *)
Definition keeps_bytes {A : Type} (c : M A) : Prop :=
  forall self r self',
    wf_store self ->
    c self = (r, self') ->
    wf_store self' /\
    Deserializer.buffer (krds self') = Deserializer.buffer (krds self) /\
    data self' = data self /\
    Deserializer.offset (krds self) <= Deserializer.offset (krds self').

Lemma good_keeps_bytes {A : Type} (c : M A) : good c -> keeps_bytes c.
Proof.
  intros Hc self r self' Hwf H.
  destruct (Hc _ _ _ Hwf H) as (Hwf' & Hb & Hd & Ho & _). auto.
Qed.

Lemma keeps_bytes_bind {A B : Type} (c : M A) (k : A -> M B) :
  keeps_bytes c -> (forall a, keeps_bytes (k a)) -> keeps_bytes (x <- c ;; k x).
Proof.
  intros Hc Hk self r self' Hwf H. unfold bind in H.
  destruct (c self) as [[a|e|] s1] eqn:Ec;
    destruct (Hc _ _ _ Hwf Ec) as (Hwf1 & Hb1 & Hd1 & Ho1).
  - destruct (Hk a _ _ _ Hwf1 H) as (Hwf2 & Hb2 & Hd2 & Ho2).
    repeat split; try apply Hwf2; try congruence; lia.
  - inversion H; subst. auto.
  - inversion H; subst. auto.
Qed.

Lemma keeps_bytes_warn_extra_data : keeps_bytes warn_extra_data.
Proof.
  intros self r self' Hwf H. unfold warn_extra_data in H.
  destruct (negb _);
    [apply (good_keeps_bytes _ (good_log_record _) _ _ _ Hwf H)
    |apply (good_keeps_bytes _ (good_ret _) _ _ _ Hwf H)].
Qed.

Lemma appends_decode_all : appends_to_log (decode_all clock).
Proof.
  unfold decode_all.
  pose proof appends_decode_next as Hn. pose proof appends_decode_entries as He.
  repeat first
    [ apply appends_ret | apply appends_raise | apply appends_lift
    | apply appends_extract | apply Hn | apply He
    | apply appends_bind; [|intros ?]
    | match goal with |- appends_to_log (if ?b then _ else _) => destruct b end ].
Qed.

(** A store that [good] and [appends_to_log] relate to the cursor before
    is the cursor further on in the same bytes. *)
Lemma cursor_further pre rest l dt self' :
  wf_store self' ->
  Deserializer.buffer (krds self') = pre ++ rest ->
  data self' = dt ->
  Z.of_nat (List.length pre) <= Deserializer.offset (krds self') ->
  (exists l', log self' = l ++ l') ->
  exists consumed rest' l',
    rest = consumed ++ rest' /\
    self' = cursor_at (pre ++ consumed) rest' (l ++ l') dt /\
    Deserializer.offset (krds self')
    = Z.of_nat (List.length pre) + Z.of_nat (List.length consumed).
Proof.
  intros [Hlo Hhi] Hb Hd Ho (l' & Hl).
  destruct self' as [[buf off] lg d]. cbn [krds log data] in *.
  cbn [Deserializer.buffer Deserializer.offset] in *. subst.
  rewrite length_app in Hhi.
  set (n := Z.to_nat (off - Z.of_nat (List.length pre))).
  exists (firstn n rest), (skipn n rest), l'.
  assert (Hn : List.length (firstn n rest) = n)
    by (rewrite length_firstn; unfold n; lia).
  split; [symmetry; apply firstn_skipn|]. split.
  - unfold cursor_at. rewrite <- app_assoc, firstn_skipn, length_app, Hn.
    do 2 f_equal. unfold n. lia.
  - rewrite Hn. unfold n. lia.
Qed.

(** X20. Whatever the bytes, [decode_next] returns or raises; the store
    it leaves is the same bytes with the cursor at the same place or
    further on, never before it, the log with the records it had and
    perhaps more after them, and [data] as it was.  Called without a
    datatype on one byte or more it has consumed the tag at least, also
    when it raises. *)
Theorem decode_next_progress :
  forall (datatype : option Z) (pre rest : list byte)
         (l : list log_record) (dt : list byte),
    exists consumed rest' l',
      rest = consumed ++ rest' /\
      snd (decode_next clock datatype (cursor_at pre rest l dt))
      = cursor_at (pre ++ consumed) rest' (l ++ l') dt /\
      fst (decode_next clock datatype (cursor_at pre rest l dt)) <> OutOfFuel /\
      (datatype = None -> rest <> [] -> consumed <> []).
Proof.
  intros datatype pre rest l dt.
  pose proof (wf_cursor_at pre rest l dt) as Hwf.
  pose proof (decode_next_total clock datatype _ Hwf) as Htotal.
  destruct (decode_next clock datatype (cursor_at pre rest l dt)) as [r self'] eqn:E.
  destruct (good_decode_next clock datatype _ _ _ Hwf E) as (Hwf' & Hb & Hd & Ho & _).
  destruct (cursor_further pre rest l dt self' Hwf' Hb Hd Ho
              (appends_decode_next datatype _ _ _ E))
    as (consumed & rest' & l' & Hrest & Hself & Hoff).
  exists consumed, rest', l'. repeat split; try assumption.
  intros -> Hne ->.
  destruct rest as [|tag rest]; [contradiction|].
  destruct (decode_next_at clock pre (tag :: rest) l dt None) as (fuel & Hfuel).
  rewrite Hfuel, decode_next_fuel_tagged in E.
  change (tag :: rest) with ([tag] ++ rest) in E.
  rewrite (unpack_at Deserializer.Fmt_b true pre [tag] rest l dt eq_refl) in E.
  destruct (proj1 (good_decode_next_fuel clock (S fuel)) _ _ _ _
              (wf_cursor_at (pre ++ [tag]) rest l dt) E) as (_ & _ & _ & Ho' & _).
  cbn [cursor_at krds Deserializer.offset] in Ho', Hoff.
  rewrite length_app in Ho'. simpl in Ho', Hoff. lia.
Qed.

(** X21. Whatever [data] is, and whatever cursor and log the store had,
    [deserialize] returns or raises; it leaves a cursor over [data]
    itself, between its first byte and its end, the log with the
    records it had and perhaps more after them, and [data] as it was. *)
Theorem deserialize_leaves_cursor_over_data :
  forall self : KindleReaderDataStore,
    exists consumed rest l',
      data self = consumed ++ rest /\
      snd (deserialize clock self)
      = cursor_at consumed rest (log self ++ l') (data self) /\
      fst (deserialize clock self) <> OutOfFuel.
Proof.
  intros self.
  pose proof (deserialize_total clock self) as Htotal.
  destruct (deserialize clock self) as [r self'] eqn:E.
  rewrite deserialize_decode_all in E.
  assert (Hwf : wf_store (fresh self))
    by (apply (wf_cursor_at [] (data self) (log self) (data self))).
  assert (Hgood : keeps_bytes
                    (value <- decode_all clock ;; warn_extra_data ;; ret value)).
  { apply keeps_bytes_bind; [apply good_keeps_bytes, good_decode_all|]. intros value.
    apply keeps_bytes_bind; [apply keeps_bytes_warn_extra_data|]. intros _.
    apply good_keeps_bytes, good_ret. }
  assert (Happ : appends_to_log
                   (value <- decode_all clock ;; warn_extra_data ;; ret value)).
  { apply appends_bind; [apply appends_decode_all|]. intros value.
    apply appends_bind; [apply appends_warn_extra_data|]. intros _.
    apply appends_ret. }
  destruct (Hgood _ _ _ Hwf E) as (Hwf' & Hb & Hd & Ho).
  destruct (cursor_further [] (data self) (log self) (data self) self' Hwf' Hb Hd Ho
              (Happ _ _ _ E))
    as (consumed & rest' & l' & Hrest & Hself & _).
  exists consumed, rest', l'. repeat split; assumption.
Qed.

(** ** The signature, the count and the loop of deserialize *)

Lemma list_byte_eqb_eq a : forall b, list_byte_eqb a b = true <-> a = b.
Proof.
  induction a as [|x a IH]; intros [|y b]; simpl; split; intros H;
    try reflexivity; try discriminate.
  - apply andb_true_iff in H. destruct H as [Hx Ha].
    apply Byte.byte_dec_bl in Hx. apply IH in Ha. congruence.
  - injection H as -> ->. apply andb_true_iff. split.
    + apply Byte.byte_dec_lb. reflexivity.
    + apply IH. reflexivity.
Qed.

(** X22. [deserialize] reads the signature first.  On fewer than 8 bytes
    it raises the exception about insufficient data, with 8 and the
    number of bytes there are, and the cursor stays at 0; on 8 bytes that
    are not the signature it raises the exception about the signature,
    the 8 bytes consumed.  Neither writes to the log. *)
Theorem deserialize_signature_failures :
  forall self : KindleReaderDataStore,
    ((List.length (data self) < 8)%nat ->
     deserialize clock self
     = (Raise (Exception (InsufficientData 8 (Z.of_nat (List.length (data self))))),
        cursor_at [] (data self) (log self) (data self))) /\
    (forall sig tail,
       data self = sig ++ tail ->
       List.length sig = 8%nat ->
       list_byte_eqb sig SIGNATURE = false ->
       deserialize clock self
       = (Raise (Exception SignatureIncorrect),
          cursor_at sig tail (log self) (data self))).
Proof.
  intros self. split.
  - intros Hshort. unfold deserialize.
    change (mkStore (Deserializer.init (data self)) (log self) (data self))
      with (cursor_at [] (data self) (log self) (data self)).
    unfold bind. rewrite extract_short by (simpl; lia). reflexivity.
  - intros sig tail Hdata Hlen Hsig. unfold deserialize.
    change (mkStore (Deserializer.init (data self)) (log self) (data self))
      with (cursor_at [] (data self) (log self) (data self)).
    rewrite Hdata at 1.
    change (List.length SIGNATURE) with 8%nat. rewrite <- Hlen.
    rewrite (bind_eq _ _ _ _ _ (extract_at [] sig tail (log self) (data self))).
    rewrite Hsig. reflexivity.
Qed.

Lemma decode_next_cursor datatype pre rest l dt r self' :
  decode_next clock datatype (cursor_at pre rest l dt) = (r, self') ->
  exists consumed rest' l',
    rest = consumed ++ rest' /\
    self' = cursor_at (pre ++ consumed) rest' (l ++ l') dt.
Proof.
  intros E. pose proof (wf_cursor_at pre rest l dt) as Hwf.
  destruct (good_decode_next clock datatype _ _ _ Hwf E) as (Hwf' & Hb & Hd & Ho & _).
  destruct (cursor_further pre rest l dt self' Hwf' Hb Hd Ho
              (appends_decode_next datatype _ _ _ E))
    as (consumed & rest' & l' & Hrest & Hself & _).
  exists consumed, rest', l'. auto.
Qed.

(** X23. When the decode of an entry raises, the loop of [deserialize]
    raises the same exception after two more records: the offset, which
    is the place the cursor has reached in [data] when the decode gave
    up and not the place the entry began, and the mapping of the entries
    before. *)
Theorem decode_failure_is_logged :
  forall (n : nat) (acc : dict) (pre rest : list byte) (l : list log_record)
         (e : exn) (self' : KindleReaderDataStore),
    decode_next clock None (cursor_at pre rest l (pre ++ rest)) = (Raise e, self') ->
    exists consumed rest' l',
      rest = consumed ++ rest' /\
      self' = cursor_at (pre ++ consumed) rest' (l ++ l') (pre ++ rest) /\
      decode_entries clock (S n) acc (cursor_at pre rest l (pre ++ rest))
      = (Raise e,
         cursor_at (pre ++ consumed) rest'
           (l ++ l' ++ [Info_decode_failed_at_offset
                          (Z.of_nat (List.length (pre ++ consumed)));
                        Info_partial_value acc])
           (pre ++ rest)).
Proof.
  intros n acc pre rest l e self' E.
  destruct (decode_next_cursor _ _ _ _ _ _ _ E) as (consumed & rest' & l' & Hrest & ->).
  exists consumed, rest', l'. repeat split; try assumption.
  cbn [decode_entries]. unfold bind at 1. unfold try_except_reraise.
  rewrite E. unfold bind, log_record_, cursor_at. cbn [krds log data].
  unfold Deserializer.len. cbn [Deserializer.buffer Deserializer.offset].
  rewrite <- !app_assoc. cbn [app]. do 6 f_equal.
  rewrite Hrest, !length_app. lia.
Qed.

(** X24. An entry of the file has to be an object.  A value of a fixed
    width for an entry is decoded and consumed, and then the loop raises
    [AttributeError]; this failure comes after the decode and is not
    logged. *)
Theorem scalar_entry_raises_attribute_error :
  forall (n : nat) (acc : dict) (tag : byte) (f : Deserializer.fmt)
         (pre bs post : list byte) (l : list log_record) (dt : list byte),
    In (tag, f) fixed_width_tags ->
    Z.of_nat (List.length bs) = Deserializer.calcsize f ->
    decode_entries clock (S n) acc (cursor_at pre (tag :: bs ++ post) l dt)
    = (Raise AttributeError, cursor_at (pre ++ tag :: bs) post l dt).
Proof.
  intros n acc tag f pre bs post l dt Hin Hlen.
  cbn [decode_entries]. unfold bind at 1. unfold try_except_reraise.
  rewrite (fixed_width_decodes clock tag f pre l dt bs post Hin Hlen).
  destruct f; reflexivity.
Qed.

(** X25. A file whose count of entries is zero or negative is the empty
    mapping: after the signature and the first value 1, a 4-byte count
    that is not positive ends the decode, and every byte after it is
    reported as extra data. *)
Theorem nonpositive_entry_count :
  forall (self : KindleReaderDataStore) (c3 c2 c1 c0 : byte) (rest : list byte),
    data self = SIGNATURE ++ [x01; x00; x00; x00; x01]
                ++ [x01; c3; c2; c1; c0] ++ rest ->
    signed_be [c3; c2; c1; c0] <= 0 ->
    deserialize clock self
    = (Ok [],
       cursor_at (SIGNATURE ++ [x01; x00; x00; x00; x01] ++ [x01; c3; c2; c1; c0]) rest
         (log self ++ extra_data_record (Z.of_nat (List.length rest)))
         (data self)).
Proof.
  intros self c3 c2 c1 c0 rest Hdata Hcount.
  unfold deserialize.
  change (mkStore (Deserializer.init (data self)) (log self) (data self))
    with (cursor_at [] (data self) (log self) (data self)).
  rewrite Hdata at 1.
  rewrite (bind_eq _ _ _ _ _
             (extract_at [] SIGNATURE _ (log self) (data self))).
  change (negb (list_byte_eqb SIGNATURE SIGNATURE)) with false. cbv iota.
  cbn [app].
  rewrite (bind_eq _ _ _ _ _
             (fixed_width_decodes clock x01 Deserializer.Fmt_l SIGNATURE
                (log self) (data self) [x00; x00; x00; x01]
                ([x01; c3; c2; c1; c0] ++ rest) (or_introl eq_refl) eq_refl)).
  change (negb (py_eq_int (fixed_width_value Deserializer.Fmt_l [x00; x00; x00; x01]) 1))
    with false. cbv iota.
  unfold deserialize_entries.
  rewrite (bind_eq _ _ _ _ _
             (fixed_width_decodes clock x01 Deserializer.Fmt_l
                (SIGNATURE ++ [x01; x00; x00; x00; x01])
                (log self) (data self) [c3; c2; c1; c0] rest
                (or_introl eq_refl) eq_refl)).
  unfold bind at 1. unfold lift at 1.
  cbn [fixed_width_value range].
  replace (Z.to_nat (signed_be [c3; c2; c1; c0])) with 0%nat by lia.
  cbn [decode_entries]. unfold bind, ret, warn_extra_data, extra_data_record.
  unfold cursor_at at 1 2. cbn [krds].
  unfold Deserializer.len. cbn [Deserializer.buffer Deserializer.offset].
  rewrite !length_app.
  replace (Z.of_nat _ - Z.of_nat _) with (Z.of_nat (List.length rest)) by lia.
  destruct (Z.of_nat (List.length rest) =? 0); cbn [negb].
  - unfold ret. rewrite app_nil_r, <- !app_assoc. reflexivity.
  - unfold log_record_, cursor_at. cbn [krds log data].
    rewrite <- !app_assoc. reflexivity.
Qed.

End MoreInvariants.

(** ** The sentinel and a library that refuses an instant *)

(** A clock that, as the library does, refuses the instants from the
    year 10000 on. *)
Definition bounded_clock : spec_float -> exn + string :=
  fun seconds =>
    match float_compare_Z seconds 253402300800 with
    | Some Lt => inr "1970-01-01T00:00:00"
    | _ => inl ValueError
    end.

(** A time other than -1 that produces no value: the largest 8-byte
    integer is not the sentinel, the library refuses it, and the decode
    of [lpr] and of [fpr] raises. *)
Lemma sentinel_other_value_may_raise :
  decode_object bounded_clock "lpr"
    [VInt 2; VStr "AdgGAAAAAAAA:2586"; VInt 9223372036854775807] store0
  = (Raise ValueError, store0) /\
  decode_object bounded_clock "fpr"
    [VStr "AdgGAAAAAAAA:2586"; VInt 9223372036854775807; VInt 0; VStr "US";
     VStr "B00"] store0
  = (Raise ValueError, store0) /\
  decode_object bounded_clock "lpr"
    [VInt 2; VStr "AdgGAAAAAAAA:2586"; VInt 1609459200000] store0
  = (Ok (named "lpr"
           (VDict [(VStr "position", VStr "AdgGAAAAAAAA:2586");
                   (VStr "time", VStr "1970-01-01T00:00:00")])), store0).
Proof. repeat split; vm_compute; reflexivity. Qed.

Lemma lpr_rule_witness :
  decode_object sample_clock "lpr" [VInt 3; VStr "AdgGAAAAAAAA:2586"] store0
  = (Raise (Exception (UnknownLprVersion 3)), store0) /\
  decode_object sample_clock "lpr" [VInt 2; VStr "AdgGAAAAAAAA:2586"; VInt (-1)] store0
  = (Ok (named "lpr"
           (VDict [(VStr "position", VStr "AdgGAAAAAAAA:2586");
                   (VStr "time", VNone)])), store0) /\
  decode_object sample_clock "lpr"
    [VInt 2; VStr "AdgGAAAAAAAA:2586"; VInt 1609459200000] store0
  = (Ok (named "lpr"
           (VDict [(VStr "position", VStr "AdgGAAAAAAAA:2586");
                   (VStr "time", VStr "1970-01-01T00:00:00")])), store0) /\
  decode_object sample_clock "lpr" [VInt 2; VStr "AdgGAAAAAAAA:2586"] store0
  = (Raise IndexError, store0).
Proof.
  destruct (lpr_rule sample_clock store0) as (_ & Hhigh & Hnone & Htime & Hshort).
  split; [|split; [|split]].
  - apply (Hhigh 3 [VStr "AdgGAAAAAAAA:2586"]). reflexivity.
  - apply (Hnone 2 (VStr "AdgGAAAAAAAA:2586") []). discriminate.
  - exact (Htime 2 1609459200000 (VStr "AdgGAAAAAAAA:2586") []
             ltac:(discriminate) ltac:(discriminate)).
  - apply (Hshort 2 [VStr "AdgGAAAAAAAA:2586"]); [discriminate|simpl; lia].
Defined.

(** ** The further properties at concrete inputs *)

Lemma fixed_layout_rule_witness :
  decode_object sample_clock "language.store" [VStr "en-US"; VInt 4] store0
  = (Ok (named "language.store"
           (VDict [(VStr "language", VStr "en-US"); (VStr "unknown1", VInt 4)])),
     store0).
Proof.
  apply (fixed_layout_rule sample_clock store0 "language.store"
           ["language"; "unknown1"] [VStr "en-US"; VInt 4]).
  right. right. left. reflexivity.
Defined.

Lemma single_value_rule_witness :
  decode_object sample_clock "erl" [VStr "AdgGAAAAAAAA:2586"] store0
  = (Ok (named "erl" (VStr "AdgGAAAAAAAA:2586")), store0).
Proof.
  apply (single_value_rule sample_clock store0 "erl" [VStr "AdgGAAAAAAAA:2586"]).
  do 13 right. left. reflexivity.
Defined.

Lemma font_prefs_rule_witness :
  decode_object sample_clock "font.prefs"
    [VStr "Bookerly"; VInt 0; VInt 4; VInt 1; VInt 2; VInt (-1); VInt (-1);
     VInt (-1); VInt (-1)] store0
  = (Ok (named "font.prefs"
           (record_of font_prefs_fields
              [VStr "Bookerly"; VInt 0; VInt 4; VInt 1; VInt 2; VInt (-1);
               VInt (-1); VInt (-1); VInt (-1)])), store0).
Proof.
  apply (font_prefs_rule sample_clock store0). simpl. lia.
Defined.

Lemma counted_list_rule_witness :
  decode_object sample_clock "timer.average.calculator.outliers"
    [VInt 2; VInt 5; VInt 6] store0
  = (Ok (named "timer.average.calculator.outliers" (VList [VInt 5; VInt 6])), store0).
Proof.
  exact (counted_list_rule sample_clock store0 "timer.average.calculator.outliers"
           2 [VInt 5; VInt 6] (or_intror (or_introl eq_refl))).
Defined.

Lemma annotation_payload_rule_witness :
  fst (decode_object sample_clock "annotation.personal.note"
         [VStr "AdgGAAAAAAAA:2586"; VStr "AdgGAAAAAAAA:2590"; VInt 0; VInt 0;
          VStr "0"; VStr "a note"] store0)
  = Ok (named "annotation.personal.note"
          (VDict [(VStr "startPosition", VStr "AdgGAAAAAAAA:2586");
                  (VStr "endPosition", VStr "AdgGAAAAAAAA:2590");
                  (VStr "creationTime", VStr "1970-01-01T00:00:00");
                  (VStr "lastModificationTime", VStr "1970-01-01T00:00:00");
                  (VStr "template", VStr "0");
                  (VStr "note", VStr "a note")])).
Proof.
  rewrite (proj1 (annotation_payload_rule sample_clock store0
                    "annotation.personal.note"
                    (VStr "AdgGAAAAAAAA:2586") (VStr "AdgGAAAAAAAA:2590")
                    (VInt 0) (VInt 0) (VStr "0") [VStr "a note"]
                    (or_intror (or_intror (or_introl eq_refl))))).
  vm_compute. reflexivity.
Defined.

Definition sample_groups : list (Z * string * list value) :=
  [ (0, "annotation.personal.bookmark", [VInt 1; VInt 2]);
    (1, "annotation.personal.highlight", [VInt 3]) ].

Lemma annotation_cache_rule_witness :
  decode_object sample_clock "annotation.cache.object"
    (VInt (Z.of_nat (List.length sample_groups))
     :: flat_map group_children sample_groups) store0
  = (Ok (named "annotation.cache.object"
           (VDict (set_all (map group_item sample_groups) []))), store0).
Proof.
  apply (annotation_cache_rule sample_clock store0 sample_groups).
  intros code cls payloads [H|[H|[]]]; injection H as <- <- <-; simpl; auto.
Defined.

Lemma annotation_cache_failures_witness :
  decode_object sample_clock "annotation.cache.object" [VInt 1; VInt 99] store0
  = (Raise (Exception (UnknownAnnotationType 99)), store0).
Proof.
  apply (proj1 (annotation_cache_failures sample_clock store0 1 [] eq_refl) 99).
  simpl. intros H. repeat (destruct H as [H|H]; [discriminate H|]). exact H.
Defined.

Lemma key_value_failures_witness :
  decode_object sample_clock "ReaderMetrics" [VStr "booksOpened"] store0
  = (Raise TypeError, store0).
Proof.
  apply (proj1 (key_value_failures sample_clock store0 "ReaderMetrics"
                  (or_intror (or_intror (or_introl eq_refl))))).
Defined.

Lemma decode_next_fixed_width_witness :
  decode_next sample_clock None (cursor_at [] [x05; x01; x00] [] [])
  = (Ok (VInt 256), cursor_at [x05; x01; x00] [] [] []).
Proof.
  exact (proj1 (decode_next_fixed_width sample_clock x05 Deserializer.Fmt_h [] [] []
                  (or_intror (or_intror (or_intror (or_introl eq_refl)))))
           [x01; x00] [] eq_refl).
Defined.

Lemma decode_next_string_witness :
  decode_next sample_clock None
    (cursor_at [] [x03; x00; x00; x03; x65; x72; x6c; xff] [] [])
  = (Ok (VStr "erl"), cursor_at [x03; x00; x00; x03; x65; x72; x6c] [xff] [] []).
Proof.
  exact (proj1 (proj2 (decode_next_string sample_clock [] [xff] [] []))
           x00 x03 [x65; x72; x6c] eq_refl).
Defined.

Lemma decode_next_unknown_tag_witness :
  decode_next sample_clock None (cursor_at [] [x08; x00] [] [])
  = (Raise (Exception (UnknownDatatype 8)), cursor_at [x08] [x00] [] []).
Proof.
  exact (proj1 (decode_next_unknown_tag sample_clock [] [x00] x08 [] []) eq_refl).
Defined.

Lemma deserialize_signature_failures_witness :
  deserialize sample_clock (store_of [x00; x00; x00])
  = (Raise (Exception (InsufficientData 8 3)),
     cursor_at [] [x00; x00; x00] [] [x00; x00; x00]) /\
  deserialize sample_clock
    (store_of [x4b; x52; x44; x53; x00; x00; x00; x00; x01])
  = (Raise (Exception SignatureIncorrect),
     cursor_at [x4b; x52; x44; x53; x00; x00; x00; x00] [x01] []
       [x4b; x52; x44; x53; x00; x00; x00; x00; x01]).
Proof.
  split.
  - apply (proj1 (deserialize_signature_failures sample_clock
                    (store_of [x00; x00; x00]))).
    simpl. lia.
  - exact (proj2 (deserialize_signature_failures sample_clock
                    (store_of [x4b; x52; x44; x53; x00; x00; x00; x00; x01]))
             [x4b; x52; x44; x53; x00; x00; x00; x00] [x01]
             eq_refl eq_refl eq_refl).
Defined.

Lemma decode_failure_is_logged_witness :
  exists consumed rest' l',
    [x08; x00] = consumed ++ rest' /\
    cursor_at [x2a; x08] [x00] [] ([x2a] ++ [x08; x00])
    = cursor_at ([x2a] ++ consumed) rest' ([] ++ l') ([x2a] ++ [x08; x00]) /\
    decode_entries sample_clock 1 [] (cursor_at [x2a] [x08; x00] [] ([x2a] ++ [x08; x00]))
    = (Raise (Exception (UnknownDatatype 8)),
       cursor_at ([x2a] ++ consumed) rest'
         ([] ++ l' ++ [Info_decode_failed_at_offset
                         (Z.of_nat (List.length ([x2a] ++ consumed)));
                       Info_partial_value []])
         ([x2a] ++ [x08; x00])).
Proof.
  apply (decode_failure_is_logged sample_clock 0 [] [x2a] [x08; x00] []
           (Exception (UnknownDatatype 8))).
  vm_compute. reflexivity.
Defined.

Lemma scalar_entry_raises_attribute_error_witness :
  decode_entries sample_clock 1 [] (cursor_at [] [x07; x05] [] [])
  = (Raise AttributeError, cursor_at [x07; x05] [] [] []).
Proof.
  exact (scalar_entry_raises_attribute_error sample_clock 0 [] x07 Deserializer.Fmt_b
           [] [x05] [] [] []
           (or_intror (or_intror (or_intror (or_intror (or_intror (or_introl eq_refl))))))
           eq_refl).
Defined.

Lemma nonpositive_entry_count_witness :
  deserialize sample_clock (store_of (header_bytes x00 ++ [x2a]))
  = (Ok [],
     cursor_at (header_bytes x00) [x2a] [Error_bytes_of_extra_data 1]
       (header_bytes x00 ++ [x2a])).
Proof.
  apply (nonpositive_entry_count sample_clock (store_of (header_bytes x00 ++ [x2a]))
           x00 x00 x00 x00 [x2a] eq_refl).
  vm_compute. discriminate.
Defined.

Definition sample_children : list child :=
  [ ([x01; x00; x00; x00; x2a], VInt 42, []) ].

Lemma object_layout_witness :
  decode_next sample_clock None
    (cursor_at []
       (xfe :: x00 :: x00 :: x03 :: [x65; x72; x6c]
        ++ bytes_of sample_children ++ xff :: []) [] [])
  = decode_object sample_clock (string_of_list_byte [x65; x72; x6c])
      (values_of sample_children)
      (cursor_at
         ([] ++ xfe :: x00 :: x00 :: x03 :: [x65; x72; x6c]
          ++ bytes_of sample_children ++ [xff])
         [] ([] ++ logs_of sample_children) []).
Proof.
  apply (object_layout sample_clock x00 x03 [x65; x72; x6c] sample_children
           [] [] [] [] eq_refl eq_refl).
  constructor; [|constructor].
  intros pre post l dt. cbn [fst snd]. rewrite app_nil_r.
  exact (fixed_width_decodes sample_clock x01 Deserializer.Fmt_l pre l dt
           [x00; x00; x00; x2a] post (or_introl eq_refl) eq_refl).
Defined.
